(** * bylaw-db: the capture / preserve / version / extract pipeline

    A shallow embedding of the parts of the repository that the
    specification talks about:

    - [BylawVersionHistory]: [calculateContentDiff] of
      frontend/src/components/bylaws/BylawVersionHistory.tsx;
    - [Supabase]: [handleApiError] of the Supabase client helper;
    - [ADURequirements]: the requirement facts produced and displayed by
      frontend/src/components/bylaws/ADURequirements.tsx;
    - [Schema]: the PostgreSQL schema (tables, foreign keys, audit
      triggers) of the two SQL setup scripts;
    - [Pipeline]: the capture pipeline itself.  The Python backend that
      implements it is not among the sources, so this part follows the
      specification.

    Further parts of the frontend that use or stand beside these:

    - [JsString]: [substring] and [startsWith];
    - [BylawVersionHistoryView]: [getContentPreview] and the numbers
      shown beside a version;
    - [ADUSummary]: the confidence badge and the analysis summary of
      ADURequirements.tsx;
    - [AuthService]: the [try]/[catch] blocks of the authentication
      service around [handleApiError];
    - [MunicipalityRoutes]: the remaining requests of
      municipalityService.ts;
    - [SourceVerification]: the simulated source verification;
    - [RowLevelSecurity]: the row level security policies of the setup
      script and of database/schemas/simple_auth_policies.sql. *)

From Stdlib Require Import ZArith QArith List String Ascii Bool Lia.
From Stdlib Require DecimalString.
From stdpp Require Import gmap strings list.
Import ListNotations.

Set Warnings "-register-all".

Local Open Scope string_scope.
Local Open Scope Z_scope.

(** ** JavaScript arrays *)

Module JsArray.

(** [Array.prototype.findIndex]: the index of the first element that
    satisfies [p], and [-1] when there is none. *)
Fixpoint findIndex_from {A : Type} (p : A -> bool) (l : list A) (i : Z) : Z :=
  match l with
  | [] => -1
  | x :: l' => if p x then i else findIndex_from p l' (i + 1)
  end.

Definition findIndex {A : Type} (p : A -> bool) (l : list A) : Z :=
  findIndex_from p l 0.

(** [arr[i]] for an integer [i]: [undefined] (here [None]) out of range. *)
Definition at_index {A : Type} (l : list A) (i : Z) : option A :=
  if i <? 0 then None else l !! Z.to_nat i.

(** [s.length] of a string, as an integer. *)
Definition len (s : string) : Z := Z.of_nat (String.length s).

End JsArray.

(** ** BylawVersionHistory.tsx *)

Module BylawVersionHistory.
Import JsArray.

(** [BylawVersion] of types/bylaw.types.ts; dates are kept as epoch
    milliseconds. *)
Record BylawVersion := {
  id : string;
  bylaw_id : string;
  version_number : Z;
  content : string;
  hash : string;
  change_summary : string;
  created_at : Z;
  created_by : string;
  source_url : string
}.

(** The object literal [{ added, removed }]. *)
Record ContentDiff := { added : Z; removed : Z }.

(** [const currentIndex = versions.findIndex(v => v.id === version.id);
     const previousVersion = versions[currentIndex + 1];] *)
Definition currentIndex (versions : list BylawVersion) (version : BylawVersion) : Z :=
  findIndex (fun v => String.eqb (id v) (id version)) versions.

Definition previousVersion (versions : list BylawVersion) (version : BylawVersion)
  : option BylawVersion :=
  at_index versions (currentIndex versions version + 1).

Definition calculateContentDiff (versions : list BylawVersion) (version : BylawVersion)
  : ContentDiff :=
  match previousVersion versions version with
  | None => {| added := len (content version); removed := 0 |}
  | Some previous =>
      let currentLength := len (content version) in
      let previousLength := len (content previous) in
      {| added := Z.max 0 (currentLength - previousLength);
         removed := Z.max 0 (previousLength - currentLength) |}
  end.

End BylawVersionHistory.

(** ** The Supabase client helper: handleApiError *)

Module Supabase.

(** The integers that a JavaScript number holds exactly and prints as
    plain decimal digits. *)
Definition MAX_SAFE_INTEGER : Z := 9007199254740991.

Record SafeInteger := {
  integer : Z;
  is_safe : (Z.abs integer <=? MAX_SAFE_INTEGER) = true
}.

(** The values an [error: any] argument can take, as far as they are
    data: primitives, arrays, and ordinary objects given by their own
    data properties, a later entry for a key replacing an earlier one
    (what [JSON.parse] builds, with [undefined] and [NaN] added; a
    property named [__proto__] is an own property like any other).
    Numbers are the safe integers and [NaN].  Functions, accessors,
    symbols and objects with a prototype of their own are left out. *)
Inductive JsValue :=
| JsUndefined
| JsNull
| JsBool (b : bool)
| JsNumber (n : SafeInteger)
| JsNaN
| JsString (s : string)
| JsArray (items : list JsValue)
| JsObject (props : list (string * JsValue)).

(** What a call can do: complete normally with a value, throw the
    [Error] built by [new Error(message)], or throw the engine's
    [TypeError]: for a property read on [null] or [undefined], or for a
    value that cannot be converted to a string. *)
Inductive Completion :=
| Returns (v : JsValue)
| ThrowsError (message : string)
| ThrowsTypeError.

(** The own property [key] of an object, if it has one. *)
Fixpoint own_property (key : string) (props : list (string * JsValue)) : option JsValue :=
  match props with
  | [] => None
  | (k, v) :: props' =>
      match own_property key props' with
      | Some later => Some later
      | None => if String.eqb k key then Some v else None
      end
  end.

(** A missing key reads as [undefined]. *)
Definition lookup_prop (key : string) (props : list (string * JsValue)) : JsValue :=
  match own_property key props with
  | Some v => v
  | None => JsUndefined
  end.

(** [error.key], for the property names that the services read
    ([code], [message], [data], [error], [user], [session]), none of
    which a prototype defines: primitives and arrays have no such
    property.  [None] stands for the [TypeError] raised on [null] and
    [undefined]. *)
Definition get (error : JsValue) (key : string) : option JsValue :=
  match error with
  | JsUndefined | JsNull => None
  | JsObject props => Some (lookup_prop key props)
  | _ => Some JsUndefined
  end.

(** [v === 'literal'] *)
Definition strict_eq_string (v : JsValue) (literal : string) : bool :=
  match v with
  | JsString s => String.eqb s literal
  | _ => false
  end.

(** ToBoolean *)
Definition truthy (v : JsValue) : bool :=
  match v with
  | JsUndefined | JsNull | JsNaN => false
  | JsBool b => b
  | JsNumber n => negb (integer n =? 0)
  | JsString s => negb (String.eqb s "")
  | JsArray _ | JsObject _ => true
  end.

(** Number::toString on a safe integer: its decimal digits, with a
    minus sign when it is negative. *)
Definition number_to_string (n : SafeInteger) : string :=
  DecimalString.NilZero.string_of_int (Z.to_int (integer n)).

(** ToString, as [new Error(message)] applies it to its argument;
    [None] stands for the [TypeError] of a value that has no string
    conversion.  An array prints as its elements joined by commas
    ([Array.prototype.join]), [null] and [undefined] elements as the
    empty string.  An object prints as [[object Object]] by
    [Object.prototype.toString], unless it has a [toString] property of
    its own: this is data and cannot be called, [valueOf] gives no
    primitive value either, and the conversion fails. *)
Fixpoint to_string (v : JsValue) : option string :=
  match v with
  | JsUndefined => Some "undefined"
  | JsNull => Some "null"
  | JsBool true => Some "true"
  | JsBool false => Some "false"
  | JsNumber n => Some (number_to_string n)
  | JsNaN => Some "NaN"
  | JsString s => Some s
  | JsArray items =>
      (fix join (items : list JsValue) : option string :=
         match items with
         | [] => Some ""
         | item :: rest =>
             let element :=
               match item with
               | JsUndefined | JsNull => Some ""
               | _ => to_string item
               end in
             match rest with
             | [] => element
             | _ :: _ =>
                 match element, join rest with
                 | Some first, Some others => Some (first ++ "," ++ others)
                 | _, _ => None
                 end
             end
         end) items
  | JsObject props =>
      match own_property "toString" props with
      | Some _ => None
      | None => Some "[object Object]"
      end
  end.

(** [handleApiError] ([console.error] writes to the console only and is
    left out). *)
Definition handleApiError (error : JsValue) : Completion :=
  match get error "code" with
  | None => ThrowsTypeError
  | Some code =>
      if strict_eq_string code "PGRST301" then ThrowsError "No data found"
      else if strict_eq_string code "PGRST116" then ThrowsError "Invalid query parameters"
      else
        match get error "message" with
        | None => ThrowsTypeError
        | Some message =>
            if truthy message then
              match to_string message with
              | Some text => ThrowsError text
              | None => ThrowsTypeError
              end
            else ThrowsError "An unexpected error occurred"
        end
  end.

(** The claim's reading of the input: its [code] field, and its
    [message] field when there is one. *)
Definition code_is (error : JsValue) (literal : string) : Prop :=
  get error "code" = Some (JsString literal).

Definition message_field (error : JsValue) : option JsValue :=
  match get error "message" with
  | Some JsUndefined | None => None
  | Some m => Some m
  end.

End Supabase.

(** ** ADURequirements.tsx *)

Module ADURequirements.

(** [category: 'zoning' | 'parking' | 'size' | 'design' | 'permit' | 'other'] *)
Inductive Category := zoning | parking | size | design | permit | other.

Definition Category_eqb (a b : Category) : bool :=
  match a, b with
  | zoning, zoning | parking, parking | size, size
  | design, design | permit, permit | other, other => true
  | _, _ => false
  end.

(** [interface ADURequirement]; [confidence: number] is a rational here. *)
Record ADURequirement := {
  id : string;
  category : Category;
  requirement : string;
  value : option string;
  unit : option string;
  confidence : Q;
  source_text : string;
  page_reference : option string
}.

(** The fields of [Bylaw] (types/bylaw.types.ts) that identify a bylaw and
    carry its text. *)
Record Bylaw := {
  bylaw_id : string;
  municipality_id : string;
  title : string;
  number : string;
  content : string;
  status : string;
  bylaw_category : string;
  tags : list string;
  source_url : string;
  source_type : string;
  hash : string
}.

Definition mockRequirements : list ADURequirement :=
  [ {| id := "1"; category := zoning;
       requirement := "Permitted in R-1 and R-2 residential zones";
       value := None; unit := None;
       confidence := 95 # 1;
       source_text := "Accessory dwelling units are permitted as a conditional use in R-1 and R-2 residential zones...";
       page_reference := Some "Section 4.2.1" |};
    {| id := "2"; category := size;
       requirement := "Maximum floor area";
       value := Some "1000"; unit := Some "sq ft";
       confidence := 88 # 1;
       source_text := "The maximum floor area of an accessory dwelling unit shall not exceed 1,000 square feet...";
       page_reference := Some "Section 4.2.3" |};
    {| id := "3"; category := parking;
       requirement := "Additional parking spaces required";
       value := Some "1"; unit := Some "spaces";
       confidence := 92 # 1;
       source_text := "One additional off-street parking space shall be provided for each accessory dwelling unit...";
       page_reference := Some "Section 4.2.5" |};
    {| id := "4"; category := design;
       requirement := "Must maintain character of neighborhood";
       value := None; unit := None;
       confidence := 76 # 1;
       source_text := "The design of the accessory dwelling unit shall be compatible with the architectural character of the primary dwelling and neighborhood...";
       page_reference := Some "Section 4.2.4" |};
    {| id := "5"; category := permit;
       requirement := "Conditional use permit required";
       value := None; unit := None;
       confidence := 98 # 1;
       source_text := "A conditional use permit is required for all accessory dwelling units...";
       page_reference := Some "Section 4.2.2" |};
    {| id := "6"; category := size;
       requirement := "Minimum lot size";
       value := Some "7000"; unit := Some "sq ft";
       confidence := 65 # 1;
       source_text := "Properties with accessory dwelling units should have adequate lot size to accommodate the additional use...";
       page_reference := Some "Section 4.2.1" |} ].

(** [extractADURequirements]: after the simulated delay the component's
    [requirements] state is set to the fixed list, whatever the bylaw. *)
Definition extractADURequirements (bylaw : Bylaw) : list ADURequirement :=
  mockRequirements.

(** [selectedCategory] is ['all'] ([None]) or one category. *)
Definition filteredRequirements (requirements : list ADURequirement)
    (selectedCategory : option Category) (minConfidence : Q) : list ADURequirement :=
  List.filter
    (fun req =>
       let categoryMatch :=
         match selectedCategory with
         | None => true
         | Some c => Category_eqb (category req) c
         end in
       let confidenceMatch := Qle_bool minConfidence (confidence req) in
       categoryMatch && confidenceMatch)
    requirements.

(** The text of the confidence badge hint: [useState(70)] is the initial
    threshold of the slider, whose range is 0 to 100. *)
Definition initialMinConfidence : Q := 70 # 1.

(** Reading a [value] string as a number: decimal digits with an optional
    fraction, as [Number(value)] does on such strings. *)
Definition digit_of (c : ascii) : option Z :=
  let n := Z.of_nat (nat_of_ascii c) in
  if (48 <=? n) && (n <=? 57) then Some (n - 48) else None.

Fixpoint parse_digits (s : string) (acc : Z) : option Z :=
  match s with
  | EmptyString => Some acc
  | String c s' =>
      match digit_of c with
      | Some d => parse_digits s' (10 * acc + d)
      | None => None
      end
  end.

Fixpoint split_dot (s : string) : string * option string :=
  match s with
  | EmptyString => (EmptyString, None)
  | String c s' =>
      if Ascii.eqb c "."%char then (EmptyString, Some s')
      else let '(a, b) := split_dot s' in (String c a, b)
  end.

Definition parse_number (s : string) : option Q :=
  match split_dot s with
  | (EmptyString, _) => None
  | (int_part, None) =>
      match parse_digits int_part 0 with
      | Some n => Some (inject_Z n)
      | None => None
      end
  | (int_part, Some frac_part) =>
      match parse_digits int_part 0, parse_digits frac_part 0 with
      | Some n, Some f =>
          Some (inject_Z n + (f # Pos.pow 10 (Pos.of_nat (String.length frac_part))))%Q
      | _, _ => None
      end
  end.

Definition numeric_value (req : ADURequirement) : option Q :=
  match value req with
  | Some v => parse_number v
  | None => None
  end.

(** Modelled from the spec: the extractor's unit conversion to the
    canonical unit (feet to meters); the backend converter is not among
    the sources.  One foot is 0.3048 m, so one square foot is
    0.09290304 m2. *)
Definition square_feet_to_square_meters (v : Q) : Q :=
  (v * (9290304 # 100000000))%Q.

(** [lo <= v <= hi] on rationals, as a boolean. *)
Definition within (v target tolerance : Q) : bool :=
  Qle_bool (target - tolerance) v && Qle_bool v (target + tolerance).

End ADURequirements.

(** ** municipalityService.ts *)

Module MunicipalityService.

Inductive HttpMethod := GET | POST | PUT | DELETE.

(** A call of [apiClient]: the verb and the path of the request. *)
Record ApiCall := { method : HttpMethod; path : string }.

(** [apiClient.get('/api/municipalities/${id}')] *)
Definition getMunicipalityById (id : string) : ApiCall :=
  {| method := GET; path := "/api/municipalities/" ++ id |}.

(** [apiClient.post('/api/municipalities', municipality)] *)
Definition createMunicipality : ApiCall :=
  {| method := POST; path := "/api/municipalities" |}.

(** [apiClient.put('/api/municipalities/${id}', updates)] *)
Definition updateMunicipality (id : string) : ApiCall :=
  {| method := PUT; path := "/api/municipalities/" ++ id |}.

(** [apiClient.delete('/api/municipalities/${id}')] *)
Definition deleteMunicipality (id : string) : ApiCall :=
  {| method := DELETE; path := "/api/municipalities/" ++ id |}.

End MunicipalityService.

(** ** The PostgreSQL schema

    Tables are finite maps from the primary key [id] to the remaining
    columns.  JSONB, INET and TEXT columns are strings, timestamps and
    dates are integers, nullable columns are options.  Length limits of
    VARCHAR(n) and the precision of NUMERIC(p,s) columns are not
    checked. *)

Module Schema.

Abbreviation uuid := N (only parsing).

Module Municipality.
Record row := {
  name : string;
  province : string;
  website_url : option string;
  scraping_enabled : bool;
  created_at : Z;
  updated_at : Z;
  metadata : string
}.
End Municipality.

Module SourceDocument.
Record row := {
  municipality_id : option uuid;
  document_url : string;
  document_type : string;
  scraped_at : Z;
  scraper_version : string;
  scraper_ip_address : option string;
  raw_html_path : option string;
  pdf_path : option string;
  screenshot_path : option string;
  http_headers : option string;
  response_code : option Z;
  content_hash : option string;
  file_size_bytes : option Z;
  preservation_status : option string;
  preservation_error : option string;
  created_at : Z
}.
End SourceDocument.

Module Bylaw.
Record row := {
  municipality_id : option uuid;
  source_document_id : option uuid;
  bylaw_number : option string;
  title : string;
  category : option string;
  status : option string;
  effective_date : option Z;
  amendment_date : option Z;
  repeal_date : option Z;
  parent_bylaw_id : option uuid;
  full_text : option string;
  summary : option string;
  created_at : Z;
  updated_at : Z
}.
End Bylaw.

Module BylawVersion.
Record row := {
  bylaw_id : option uuid;
  version_number : Z;
  content : string;
  extracted_requirements : option string;
  extracted_at : Z;
  extraction_method : option string;
  confidence_scores : option string;
  source_document_id : option uuid;
  source_location : option string;
  previous_version_id : option uuid;
  change_type : option string;
  change_summary : option string;
  change_reason : option string;
  created_by : option uuid;
  created_at : Z;
  approved_by : option uuid;
  approved_at : option Z;
  is_current : bool
}.
End BylawVersion.

Module AduRequirement.
Record row := {
  bylaw_version_id : option uuid;
  max_height_m : option Q;
  max_floor_area_sqm : option Q;
  min_lot_size_sqm : option Q;
  front_setback_m : option Q;
  rear_setback_m : option Q;
  side_setback_m : option Q;
  max_units : option Z;
  parking_spaces_required : option Z;
  owner_occupancy_required : option bool;
  other_requirements : option string;
  extraction_confidence : option Q;
  source_text : option string;
  created_at : Z
}.
End AduRequirement.

Module ScrapingConfig.
Record row := {
  municipality_id : option uuid;
  target_urls : string;
  selectors : option string;
  schedule_cron : option string;
  last_run_at : option Z;
  next_run_at : option Z;
  scraper_type : option string;
  requires_javascript : bool;
  custom_headers : option string;
  is_active : bool;
  failure_count : Z;
  last_error : option string;
  created_at : Z;
  updated_at : Z
}.
End ScrapingConfig.

Module ScrapingJob.
Record row := {
  municipality_id : option uuid;
  config_id : option uuid;
  job_type : string;
  status : string;
  started_at : option Z;
  completed_at : option Z;
  duration_seconds : option Z;
  documents_found : Z;
  documents_processed : Z;
  documents_changed : Z;
  error_message : option string;
  error_details : option string;
  triggered_by : option uuid;
  celery_task_id : option string;
  created_at : Z
}.
End ScrapingJob.

(** The tables that hold data ([audit_log] is written by the trigger
    function only). *)
Inductive table :=
| t_municipalities
| t_source_documents
| t_bylaws
| t_bylaw_versions
| t_adu_requirements
| t_scraping_configs
| t_scraping_jobs.

Definition TG_TABLE_NAME (t : table) : string :=
  match t with
  | t_municipalities => "municipalities"
  | t_source_documents => "source_documents"
  | t_bylaws => "bylaws"
  | t_bylaw_versions => "bylaw_versions"
  | t_adu_requirements => "adu_requirements"
  | t_scraping_configs => "scraping_configs"
  | t_scraping_jobs => "scraping_jobs"
  end.

Definition row_of (t : table) : Type :=
  match t with
  | t_municipalities => Municipality.row
  | t_source_documents => SourceDocument.row
  | t_bylaws => Bylaw.row
  | t_bylaw_versions => BylawVersion.row
  | t_adu_requirements => AduRequirement.row
  | t_scraping_configs => ScrapingConfig.row
  | t_scraping_jobs => ScrapingJob.row
  end.

(** [row_to_json(OLD)] and [row_to_json(NEW)]: the whole row with its id. *)
Record row_image := { image_table : table; image_id : uuid; image_row : row_of image_table }.

Module AuditLog.
Record row := {
  action : string;
  table_name : option string;
  record_id : option uuid;
  old_values : option row_image;
  new_values : option row_image;
  changed_fields : option (list string);
  user_id : option uuid;
  user_email : option string;
  ip_address : option string;
  user_agent : option string;
  context : option string;
  timestamp : Z
}.
End AuditLog.

Record DB := {
  municipalities : gmap N Municipality.row;
  source_documents : gmap N SourceDocument.row;
  bylaws : gmap N Bylaw.row;
  bylaw_versions : gmap N BylawVersion.row;
  adu_requirements : gmap N AduRequirement.row;
  scraping_configs : gmap N ScrapingConfig.row;
  scraping_jobs : gmap N ScrapingJob.row;
  audit_log : list AuditLog.row
}.

Definition empty_db : DB :=
  {| municipalities := ∅; source_documents := ∅; bylaws := ∅;
     bylaw_versions := ∅; adu_requirements := ∅; scraping_configs := ∅;
     scraping_jobs := ∅; audit_log := [] |}.

(** The session a statement runs in: [auth.uid()], the [email] claim of
    [request.jwt.claims], and [NOW()]. *)
Record Session := { auth_uid : option uuid; jwt_email : option string; now : Z }.

(** *** Triggers *)

Inductive TG_OP := INSERT | UPDATE | DELETE | TRUNCATE.

Definition TG_OP_name (op : TG_OP) : string :=
  match op with
  | INSERT => "INSERT"
  | UPDATE => "UPDATE"
  | DELETE => "DELETE"
  | TRUNCATE => "TRUNCATE"
  end.

(** [audit_trigger_function()]: the row it inserts into [audit_log], if
    any.  The columns it does not list stay NULL; [timestamp] takes its
    default [NOW()], and [id] its default (the position in the log). *)
Definition audit_trigger_function (s : Session) (op : TG_OP) (t : table)
    (OLD NEW : option row_image) : option AuditLog.row :=
  let audit_user_id := auth_uid s in
  let audit_user_email := jwt_email s in
  match op with
  | DELETE =>
      Some {| AuditLog.action := TG_OP_name op;
              AuditLog.table_name := Some (TG_TABLE_NAME t);
              AuditLog.record_id := image_id <$> OLD;
              AuditLog.old_values := OLD;
              AuditLog.new_values := None;
              AuditLog.changed_fields := None;
              AuditLog.user_id := audit_user_id;
              AuditLog.user_email := audit_user_email;
              AuditLog.ip_address := None;
              AuditLog.user_agent := None;
              AuditLog.context := None;
              AuditLog.timestamp := now s |}
  | UPDATE =>
      Some {| AuditLog.action := TG_OP_name op;
              AuditLog.table_name := Some (TG_TABLE_NAME t);
              AuditLog.record_id := image_id <$> NEW;
              AuditLog.old_values := OLD;
              AuditLog.new_values := NEW;
              AuditLog.changed_fields := None;
              AuditLog.user_id := audit_user_id;
              AuditLog.user_email := audit_user_email;
              AuditLog.ip_address := None;
              AuditLog.user_agent := None;
              AuditLog.context := None;
              AuditLog.timestamp := now s |}
  | INSERT =>
      Some {| AuditLog.action := TG_OP_name op;
              AuditLog.table_name := Some (TG_TABLE_NAME t);
              AuditLog.record_id := image_id <$> NEW;
              AuditLog.old_values := None;
              AuditLog.new_values := NEW;
              AuditLog.changed_fields := None;
              AuditLog.user_id := audit_user_id;
              AuditLog.user_email := audit_user_email;
              AuditLog.ip_address := None;
              AuditLog.user_agent := None;
              AuditLog.context := None;
              AuditLog.timestamp := now s |}
  | TRUNCATE => None
  end.

(** *** The setup scripts *)

(** The two setup scripts of the repository: the Supabase setup script
    and the full schema script.  Both declare the same tables and keys;
    the second also declares [audit_trigger_function] and applies it
    AFTER INSERT OR UPDATE OR DELETE, FOR EACH ROW, to four tables.
    [exec] below gives the effect of a statement on the tables as the
    scripts declare them.  PostgreSQL creates all of them from the
    Supabase setup script, but not from the full schema script (see
    [exists_after]): for that script [exec] describes the schema it
    declares, with the audit triggers that it gets to create together
    with [audit_log]. *)
Inductive SetupScript := supabase_setup | full_schema.

(** A relation that the scripts create: one of the data tables, or
    [audit_log]. *)
Inductive Relation := data_table (t : table) | audit_log_table.

Definition table_eqb (a b : table) : bool :=
  match a, b with
  | t_municipalities, t_municipalities | t_source_documents, t_source_documents
  | t_bylaws, t_bylaws | t_bylaw_versions, t_bylaw_versions
  | t_adu_requirements, t_adu_requirements | t_scraping_configs, t_scraping_configs
  | t_scraping_jobs, t_scraping_jobs => true
  | _, _ => false
  end.

Definition Relation_eqb (a b : Relation) : bool :=
  match a, b with
  | data_table x, data_table y => table_eqb x y
  | audit_log_table, audit_log_table => true
  | _, _ => false
  end.

(** A [CREATE TABLE] statement: the relation it creates, the tables its
    [REFERENCES] clauses name, and whether it carries [INDEX name
    (columns)] clauses between its column definitions. *)
Record CreateTable := {
  creates : Relation;
  references : list table;
  inline_index : bool
}.

(** The [CREATE TABLE] statements of a script, in its order.  The
    Supabase setup script creates its indexes with [CREATE INDEX]
    statements of their own; the full schema script writes them inside
    the [CREATE TABLE] of six of its eight relations. *)
Definition create_table_statements (script : SetupScript) : list CreateTable :=
  let inline := match script with supabase_setup => false | full_schema => true end in
  [ {| creates := data_table t_municipalities; references := []; inline_index := false |};
    {| creates := data_table t_source_documents; references := [t_municipalities];
       inline_index := inline |};
    {| creates := data_table t_bylaws;
       references := [t_municipalities; t_source_documents; t_bylaws];
       inline_index := inline |};
    {| creates := data_table t_bylaw_versions;
       references := [t_bylaws; t_source_documents; t_bylaw_versions];
       inline_index := inline |};
    {| creates := data_table t_adu_requirements; references := [t_bylaw_versions];
       inline_index := inline |};
    {| creates := data_table t_scraping_configs; references := [t_municipalities];
       inline_index := false |};
    {| creates := data_table t_scraping_jobs;
       references := [t_municipalities; t_scraping_configs]; inline_index := inline |};
    {| creates := audit_log_table; references := []; inline_index := inline |} ].

(** PostgreSQL has no [INDEX] clause inside [CREATE TABLE]: it rejects
    a statement that carries one.  A statement that references a table
    that does not exist fails as well. *)
Definition accepted (existing : list Relation) (c : CreateTable) : bool :=
  negb (inline_index c)
  && forallb (fun t => Relation_eqb (data_table t) (creates c)
                       || existsb (Relation_eqb (data_table t)) existing)
             (references c).

(** The relations that exist after the statements, run one by one, a
    failed one skipped.  (Sent as one query, a script with a statement
    that fails is rolled back as a whole and creates nothing.) *)
Fixpoint create_tables (statements : list CreateTable) (existing : list Relation)
  : list Relation :=
  match statements with
  | [] => existing
  | c :: rest =>
      create_tables rest (if accepted existing c then existing ++ [creates c] else existing)
  end.

Definition exists_after (script : SetupScript) (r : Relation) : bool :=
  existsb (Relation_eqb r) (create_tables (create_table_statements script) []).

(** [CREATE TRIGGER audit_... AFTER INSERT OR UPDATE OR DELETE ON t FOR
    EACH ROW EXECUTE FUNCTION audit_trigger_function()] *)
Definition declares_audit_trigger (script : SetupScript) (t : table) : bool :=
  match script, t with
  | full_schema, (t_municipalities | t_bylaws | t_bylaw_versions | t_adu_requirements) => true
  | _, _ => false
  end.

(** The audit trigger of a table is there and writes audit records
    only if the script declares it and both its table and [audit_log],
    into which [audit_trigger_function] inserts, exist after the
    script.  (Of the four tables, the full schema script creates
    [municipalities] alone; the trigger it puts on it has no
    [audit_log] to insert into, so that a statement that fires it
    fails and writes nothing.) *)
Definition has_audit_trigger (script : SetupScript) (t : table) : bool :=
  declares_audit_trigger script t
  && exists_after script (data_table t)
  && exists_after script audit_log_table.

(** The AFTER ROW trigger, when the table has one. *)
Definition fire_audit (script : SetupScript) (s : Session) (op : TG_OP) (t : table)
    (OLD NEW : option row_image) (log : list AuditLog.row) : list AuditLog.row :=
  if has_audit_trigger script t then
    match audit_trigger_function s op t OLD NEW with
    | Some entry => log ++ [entry]
    | None => log
    end
  else log.

(** [update_updated_at_column()], BEFORE UPDATE on municipalities, bylaws
    and scraping_configs: [NEW.updated_at = NOW()]. *)
Definition update_updated_at_column (s : Session) (t : table) : row_of t -> row_of t :=
  match t return row_of t -> row_of t with
  | t_municipalities => fun r =>
      {| Municipality.name := Municipality.name r;
         Municipality.province := Municipality.province r;
         Municipality.website_url := Municipality.website_url r;
         Municipality.scraping_enabled := Municipality.scraping_enabled r;
         Municipality.created_at := Municipality.created_at r;
         Municipality.updated_at := now s;
         Municipality.metadata := Municipality.metadata r |}
  | t_bylaws => fun r =>
      {| Bylaw.municipality_id := Bylaw.municipality_id r;
         Bylaw.source_document_id := Bylaw.source_document_id r;
         Bylaw.bylaw_number := Bylaw.bylaw_number r;
         Bylaw.title := Bylaw.title r;
         Bylaw.category := Bylaw.category r;
         Bylaw.status := Bylaw.status r;
         Bylaw.effective_date := Bylaw.effective_date r;
         Bylaw.amendment_date := Bylaw.amendment_date r;
         Bylaw.repeal_date := Bylaw.repeal_date r;
         Bylaw.parent_bylaw_id := Bylaw.parent_bylaw_id r;
         Bylaw.full_text := Bylaw.full_text r;
         Bylaw.summary := Bylaw.summary r;
         Bylaw.created_at := Bylaw.created_at r;
         Bylaw.updated_at := now s |}
  | t_scraping_configs => fun r =>
      {| ScrapingConfig.municipality_id := ScrapingConfig.municipality_id r;
         ScrapingConfig.target_urls := ScrapingConfig.target_urls r;
         ScrapingConfig.selectors := ScrapingConfig.selectors r;
         ScrapingConfig.schedule_cron := ScrapingConfig.schedule_cron r;
         ScrapingConfig.last_run_at := ScrapingConfig.last_run_at r;
         ScrapingConfig.next_run_at := ScrapingConfig.next_run_at r;
         ScrapingConfig.scraper_type := ScrapingConfig.scraper_type r;
         ScrapingConfig.requires_javascript := ScrapingConfig.requires_javascript r;
         ScrapingConfig.custom_headers := ScrapingConfig.custom_headers r;
         ScrapingConfig.is_active := ScrapingConfig.is_active r;
         ScrapingConfig.failure_count := ScrapingConfig.failure_count r;
         ScrapingConfig.last_error := ScrapingConfig.last_error r;
         ScrapingConfig.created_at := ScrapingConfig.created_at r;
         ScrapingConfig.updated_at := now s |}
  | _ => fun r => r
  end.

(** *** Reading and writing a table *)

Definition get_tbl (t : table) (db : DB) : gmap N (row_of t) :=
  match t return gmap N (row_of t) with
  | t_municipalities => municipalities db
  | t_source_documents => source_documents db
  | t_bylaws => bylaws db
  | t_bylaw_versions => bylaw_versions db
  | t_adu_requirements => adu_requirements db
  | t_scraping_configs => scraping_configs db
  | t_scraping_jobs => scraping_jobs db
  end.

Definition set_tbl (t : table) : gmap N (row_of t) -> DB -> DB :=
  match t return gmap N (row_of t) -> DB -> DB with
  | t_municipalities => fun m db =>
      {| municipalities := m; source_documents := source_documents db; bylaws := bylaws db;
         bylaw_versions := bylaw_versions db; adu_requirements := adu_requirements db;
         scraping_configs := scraping_configs db; scraping_jobs := scraping_jobs db;
         audit_log := audit_log db |}
  | t_source_documents => fun m db =>
      {| municipalities := municipalities db; source_documents := m; bylaws := bylaws db;
         bylaw_versions := bylaw_versions db; adu_requirements := adu_requirements db;
         scraping_configs := scraping_configs db; scraping_jobs := scraping_jobs db;
         audit_log := audit_log db |}
  | t_bylaws => fun m db =>
      {| municipalities := municipalities db; source_documents := source_documents db; bylaws := m;
         bylaw_versions := bylaw_versions db; adu_requirements := adu_requirements db;
         scraping_configs := scraping_configs db; scraping_jobs := scraping_jobs db;
         audit_log := audit_log db |}
  | t_bylaw_versions => fun m db =>
      {| municipalities := municipalities db; source_documents := source_documents db;
         bylaws := bylaws db; bylaw_versions := m; adu_requirements := adu_requirements db;
         scraping_configs := scraping_configs db; scraping_jobs := scraping_jobs db;
         audit_log := audit_log db |}
  | t_adu_requirements => fun m db =>
      {| municipalities := municipalities db; source_documents := source_documents db;
         bylaws := bylaws db; bylaw_versions := bylaw_versions db; adu_requirements := m;
         scraping_configs := scraping_configs db; scraping_jobs := scraping_jobs db;
         audit_log := audit_log db |}
  | t_scraping_configs => fun m db =>
      {| municipalities := municipalities db; source_documents := source_documents db;
         bylaws := bylaws db; bylaw_versions := bylaw_versions db;
         adu_requirements := adu_requirements db; scraping_configs := m;
         scraping_jobs := scraping_jobs db; audit_log := audit_log db |}
  | t_scraping_jobs => fun m db =>
      {| municipalities := municipalities db; source_documents := source_documents db;
         bylaws := bylaws db; bylaw_versions := bylaw_versions db;
         adu_requirements := adu_requirements db; scraping_configs := scraping_configs db;
         scraping_jobs := m; audit_log := audit_log db |}
  end.

Definition set_audit_log (log : list AuditLog.row) (db : DB) : DB :=
  {| municipalities := municipalities db; source_documents := source_documents db;
     bylaws := bylaws db; bylaw_versions := bylaw_versions db;
     adu_requirements := adu_requirements db; scraping_configs := scraping_configs db;
     scraping_jobs := scraping_jobs db; audit_log := log |}.

Definition image (t : table) (id : uuid) (r : row_of t) : row_image :=
  {| image_table := t; image_id := id; image_row := r |}.

(** *** Constraints *)

(** A nullable foreign key is satisfied by NULL or by an existing row. *)
Definition ref_ok {R : Type} (parent : gmap N R) (fk : option uuid) : bool :=
  match fk with
  | None => true
  | Some k => match parent !! k with Some _ => true | None => false end
  end.

(** [REFERENCES] clauses of each table. *)
Definition fks_ok (t : table) (db : DB) : row_of t -> bool :=
  match t return row_of t -> bool with
  | t_municipalities => fun _ => true
  | t_source_documents => fun r =>
      ref_ok (municipalities db) (SourceDocument.municipality_id r)
  | t_bylaws => fun r =>
      ref_ok (municipalities db) (Bylaw.municipality_id r)
      && ref_ok (source_documents db) (Bylaw.source_document_id r)
      && ref_ok (bylaws db) (Bylaw.parent_bylaw_id r)
  | t_bylaw_versions => fun r =>
      ref_ok (bylaws db) (BylawVersion.bylaw_id r)
      && ref_ok (source_documents db) (BylawVersion.source_document_id r)
      && ref_ok (bylaw_versions db) (BylawVersion.previous_version_id r)
  | t_adu_requirements => fun r =>
      ref_ok (bylaw_versions db) (AduRequirement.bylaw_version_id r)
  | t_scraping_configs => fun r =>
      ref_ok (municipalities db) (ScrapingConfig.municipality_id r)
  | t_scraping_jobs => fun r =>
      ref_ok (municipalities db) (ScrapingJob.municipality_id r)
      && ref_ok (scraping_configs db) (ScrapingJob.config_id r)
  end.

Definition option_N_eqb (a b : option uuid) : bool :=
  match a, b with
  | Some x, Some y => N.eqb x y
  | _, _ => false
  end.

(** Whether two rows of a table collide on a UNIQUE constraint (NULLs
    never collide): [UNIQUE(name, province)], [UNIQUE(bylaw_id,
    version_number)], [UNIQUE(municipality_id)]. *)
Definition same_unique_key (t : table) : row_of t -> row_of t -> bool :=
  match t return row_of t -> row_of t -> bool with
  | t_municipalities => fun a b =>
      String.eqb (Municipality.name a) (Municipality.name b)
      && String.eqb (Municipality.province a) (Municipality.province b)
  | t_bylaw_versions => fun a b =>
      option_N_eqb (BylawVersion.bylaw_id a) (BylawVersion.bylaw_id b)
      && (BylawVersion.version_number a =? BylawVersion.version_number b)
  | t_scraping_configs => fun a b =>
      option_N_eqb (ScrapingConfig.municipality_id a) (ScrapingConfig.municipality_id b)
  | _ => fun _ _ => false
  end.

(** No row other than [id] itself collides with [r]. *)
Definition unique_ok (t : table) (db : DB) (id : uuid) (r : row_of t) : bool :=
  forallb (fun kv => N.eqb (fst kv) id || negb (same_unique_key t r (snd kv)))
          (map_to_list (get_tbl t db)).

(** *** Statements *)

Inductive Stmt :=
| Insert (t : table) (id : uuid) (r : row_of t)
| Update (t : table) (id : uuid) (r : row_of t)
| Delete (t : table) (id : uuid).

Inductive SqlError := unique_violation | foreign_key_violation.

Inductive Outcome :=
| Done (db : DB)
| Failed (e : SqlError).

(** [INSERT INTO t (id, ...) VALUES (id, r)].  The foreign keys are
    checked with the new row in place, so that a row may reference
    itself. *)
Definition insert_row (script : SetupScript) (s : Session) (t : table) (id : uuid)
    (r : row_of t) (db : DB) : Outcome :=
  match get_tbl t db !! id with
  | Some _ => Failed unique_violation
  | None =>
      let db' := set_tbl t (<[id := r]> (get_tbl t db)) db in
      if negb (unique_ok t db id r) then Failed unique_violation
      else if negb (fks_ok t db' r) then Failed foreign_key_violation
      else
        Done (set_audit_log
                (fire_audit script s INSERT t None (Some (image t id r)) (audit_log db')) db')
  end.

(** [UPDATE t SET ... WHERE id = id], all columns but the key taken from
    [r]; a missing row is no error: no row is updated, no trigger runs. *)
Definition update_row (script : SetupScript) (s : Session) (t : table) (id : uuid)
    (r : row_of t) (db : DB) : Outcome :=
  match get_tbl t db !! id with
  | None => Done db
  | Some old =>
      let new := update_updated_at_column s t r in
      let db' := set_tbl t (<[id := new]> (get_tbl t db)) db in
      if negb (unique_ok t db id new) then Failed unique_violation
      else if negb (fks_ok t db' new) then Failed foreign_key_violation
      else
        Done (set_audit_log
                (fire_audit script s UPDATE t (Some (image t id old)) (Some (image t id new))
                   (audit_log db')) db')
  end.

(** The rows a DELETE removes, table by table. *)
Record Dead := {
  dead_municipalities : gset N;
  dead_source_documents : gset N;
  dead_bylaws : gset N;
  dead_bylaw_versions : gset N;
  dead_adu_requirements : gset N;
  dead_scraping_configs : gset N;
  dead_scraping_jobs : gset N
}.

Definition target (t : table) (id : uuid) : Dead :=
  let on (t' : table) : gset N :=
    match t, t' with
    | t_municipalities, t_municipalities
    | t_source_documents, t_source_documents
    | t_bylaws, t_bylaws
    | t_bylaw_versions, t_bylaw_versions
    | t_adu_requirements, t_adu_requirements
    | t_scraping_configs, t_scraping_configs
    | t_scraping_jobs, t_scraping_jobs => {[ id ]}
    | _, _ => ∅
    end in
  {| dead_municipalities := on t_municipalities;
     dead_source_documents := on t_source_documents;
     dead_bylaws := on t_bylaws;
     dead_bylaw_versions := on t_bylaw_versions;
     dead_adu_requirements := on t_adu_requirements;
     dead_scraping_configs := on t_scraping_configs;
     dead_scraping_jobs := on t_scraping_jobs |}.

(** Whether a foreign key points into a set of deleted rows. *)
Definition refers (dead : gset N) (fk : option uuid) : bool :=
  match fk with
  | Some k => bool_decide (k ∈ dead)
  | None => false
  end.

Definition keys_where {R : Type} (p : R -> bool) (m : gmap N R) : gset N :=
  dom (filter (fun kv => p (snd kv) = true) m).

(** [ON DELETE CASCADE]: municipalities to source_documents, bylaws,
    scraping_configs and scraping_jobs; bylaws to bylaw_versions;
    bylaw_versions to adu_requirements. *)
Definition cascade (db : DB) (d : Dead) : Dead :=
  let dm := dead_municipalities d in
  let dsd := dead_source_documents d
             ∪ keys_where (fun r => refers dm (SourceDocument.municipality_id r))
                 (source_documents db) in
  let dby := dead_bylaws d
             ∪ keys_where (fun r => refers dm (Bylaw.municipality_id r)) (bylaws db) in
  let dbv := dead_bylaw_versions d
             ∪ keys_where (fun r => refers dby (BylawVersion.bylaw_id r)) (bylaw_versions db) in
  let dadu := dead_adu_requirements d
              ∪ keys_where (fun r => refers dbv (AduRequirement.bylaw_version_id r))
                  (adu_requirements db) in
  let dsc := dead_scraping_configs d
             ∪ keys_where (fun r => refers dm (ScrapingConfig.municipality_id r))
                 (scraping_configs db) in
  let dsj := dead_scraping_jobs d
             ∪ keys_where (fun r => refers dm (ScrapingJob.municipality_id r))
                 (scraping_jobs db) in
  {| dead_municipalities := dm; dead_source_documents := dsd; dead_bylaws := dby;
     dead_bylaw_versions := dbv; dead_adu_requirements := dadu;
     dead_scraping_configs := dsc; dead_scraping_jobs := dsj |}.

Definition remove {R : Type} (dead : gset N) (m : gmap N R) : gmap N R :=
  filter (fun kv => fst kv ∉ dead) m.

(** [ON DELETE SET NULL] of [scraping_jobs.config_id]. *)
Definition config_set_null (dead_configs : gset N) (j : ScrapingJob.row) : ScrapingJob.row :=
  if refers dead_configs (ScrapingJob.config_id j) then
    {| ScrapingJob.municipality_id := ScrapingJob.municipality_id j;
       ScrapingJob.config_id := None;
       ScrapingJob.job_type := ScrapingJob.job_type j;
       ScrapingJob.status := ScrapingJob.status j;
       ScrapingJob.started_at := ScrapingJob.started_at j;
       ScrapingJob.completed_at := ScrapingJob.completed_at j;
       ScrapingJob.duration_seconds := ScrapingJob.duration_seconds j;
       ScrapingJob.documents_found := ScrapingJob.documents_found j;
       ScrapingJob.documents_processed := ScrapingJob.documents_processed j;
       ScrapingJob.documents_changed := ScrapingJob.documents_changed j;
       ScrapingJob.error_message := ScrapingJob.error_message j;
       ScrapingJob.error_details := ScrapingJob.error_details j;
       ScrapingJob.triggered_by := ScrapingJob.triggered_by j;
       ScrapingJob.celery_task_id := ScrapingJob.celery_task_id j;
       ScrapingJob.created_at := ScrapingJob.created_at j |}
  else j.

Definition sweep (d : Dead) (db : DB) : DB :=
  {| municipalities := remove (dead_municipalities d) (municipalities db);
     source_documents := remove (dead_source_documents d) (source_documents db);
     bylaws := remove (dead_bylaws d) (bylaws db);
     bylaw_versions := remove (dead_bylaw_versions d) (bylaw_versions db);
     adu_requirements := remove (dead_adu_requirements d) (adu_requirements db);
     scraping_configs := remove (dead_scraping_configs d) (scraping_configs db);
     scraping_jobs :=
       config_set_null (dead_scraping_configs d)
         <$> remove (dead_scraping_jobs d) (scraping_jobs db);
     audit_log := audit_log db |}.

(** The references declared without an ON DELETE clause (NO ACTION):
    [bylaws.source_document_id], [bylaws.parent_bylaw_id],
    [bylaw_versions.source_document_id] and
    [bylaw_versions.previous_version_id].

    PostgreSQL enforces a reference by row triggers on the referenced
    table.  The triggers of the rows a statement removed fire at its
    end, in the order in which the rows were removed and, for one row,
    in the order in which the constraints were created.  A cascade
    removes its rows with a query whose own triggers are not fired at
    the end of that query: they are queued behind those of the
    statement in course (the referential actions run their queries with
    [fire_triggers = false]) and fire in the next round.  A DELETE on
    [municipalities] therefore runs in rounds:
    - round 1 removes the source documents, then the bylaws, the
      scraping configurations and the scraping jobs of the municipality;
    - round 2 first checks the removed source documents against the
      bylaws and the versions that are there at that moment (the bylaws
      of the municipality are gone, no version is), then checks the
      removed bylaws against the remaining bylaws and removes their
      versions;
    - round 3 checks the removed versions against the remaining
      versions and removes their requirements. *)

(** The rows that are left when the DELETE is complete reference no
    removed row. *)
Definition remaining_ok (d : Dead) (db' : DB) : bool :=
  forallb (fun kv =>
             negb (refers (dead_source_documents d) (Bylaw.source_document_id (snd kv)))
             && negb (refers (dead_bylaws d) (Bylaw.parent_bylaw_id (snd kv))))
          (map_to_list (bylaws db'))
  && forallb (fun kv =>
                negb (refers (dead_source_documents d) (BylawVersion.source_document_id (snd kv)))
                && negb (refers (dead_bylaw_versions d) (BylawVersion.previous_version_id (snd kv))))
             (map_to_list (bylaw_versions db')).

(** The check of [bylaw_versions.source_document_id] runs before any
    version is removed: it sees every version of the database, also
    those that the cascade removes afterwards. *)
Definition documents_unused (d : Dead) (db : DB) : bool :=
  forallb (fun kv =>
             negb (refers (dead_source_documents d)
                     (BylawVersion.source_document_id (snd kv))))
          (map_to_list (bylaw_versions db)).

(** The NO ACTION checks of a DELETE on the database [db] that removes
    the rows [d] and leaves [db']. *)
Definition no_action_ok (d : Dead) (db db' : DB) : bool :=
  remaining_ok d db' && documents_unused d db.

Definition dead_of (t : table) (d : Dead) : gset N :=
  match t with
  | t_municipalities => dead_municipalities d
  | t_source_documents => dead_source_documents d
  | t_bylaws => dead_bylaws d
  | t_bylaw_versions => dead_bylaw_versions d
  | t_adu_requirements => dead_adu_requirements d
  | t_scraping_configs => dead_scraping_configs d
  | t_scraping_jobs => dead_scraping_jobs d
  end.

(** The rows of table [t] that the DELETE removes, with their images. *)
Definition deleted_images (t : table) (d : Dead) (db : DB) : list row_image :=
  (fun kv => image t (fst kv) (snd kv))
    <$> map_to_list (filter (fun kv => fst kv ∈ dead_of t d) (get_tbl t db)).

Definition all_tables : list table :=
  [ t_municipalities; t_source_documents; t_bylaws; t_bylaw_versions;
    t_adu_requirements; t_scraping_configs; t_scraping_jobs ].

(** The AFTER DELETE row triggers of all removed rows, the row named by
    the statement first and the cascaded rows behind it. *)
Definition fire_delete_audits (script : SetupScript) (s : Session) (d : Dead) (db : DB)
    (log : list AuditLog.row) : list AuditLog.row :=
  fold_left
    (fun log t =>
       fold_left (fun log img => fire_audit script s DELETE t (Some img) None log)
                 (deleted_images t d db) log)
    all_tables log.

(** [DELETE FROM t WHERE id = id] *)
Definition delete_row (script : SetupScript) (s : Session) (t : table) (id : uuid)
    (db : DB) : Outcome :=
  match get_tbl t db !! id with
  | None => Done db
  | Some _ =>
      let d := cascade db (target t id) in
      let db' := sweep d db in
      if no_action_ok d db db' then
        Done (set_audit_log (fire_delete_audits script s d db (audit_log db')) db')
      else Failed foreign_key_violation
  end.

Definition exec (script : SetupScript) (s : Session) (stmt : Stmt) (db : DB) : Outcome :=
  match stmt with
  | Insert t id r => insert_row script s t id r db
  | Update t id r => update_row script s t id r db
  | Delete t id => delete_row script s t id db
  end.

(** A failed statement is rolled back and leaves the database as it
    was. *)
Definition after (script : SetupScript) (s : Session) (stmt : Stmt) (db : DB) : DB :=
  match exec script s stmt db with
  | Done db' => db'
  | Failed _ => db
  end.

Definition run (script : SetupScript) (s : Session) (stmts : list Stmt) (db : DB) : DB :=
  fold_left (fun db stmt => after script s stmt db) stmts db.

End Schema.

(** ** The capture pipeline

    The scraper, preserver, job manager and extractor of the Python
    backend are not among the sources.  This module follows the
    specification: its data model (section 3) and the contracts of the
    Preserver (4.3), the Version Manager (4.4), the Extractor (4.5) and
    the Orchestrator (4.1). *)

Module Pipeline.

(** Modelled from the spec: the data model of section 3 (the backend
    models are not among the sources). *)
Inductive TriggerKind := scheduled | manual | retry.

Inductive JobStatus := job_pending | job_running | job_completed | job_failed | job_cancelled.

(** The terminal states a running job can move to. *)
Inductive JobEnd := completed | failed_site (detail : string) | cancelled.

Inductive PreservationStatus := pending | preserved | failed.

Inductive DocumentKind := page | pdf | other_kind.

Inductive LifecycleStatus := active | repealed | superseded | draft.

Inductive ChangeClassification := new_document | amendment.

Inductive Category := zoning | parking | size | design | permit | other.

(** Modelled from the spec: the site configuration of section 6. *)
Record SiteConfig := {
  targetUrls : list string;
  selectors : list (string * string);
  pagination_enabled : bool;
  nextSelector : string;
  maxPages : nat;
  documentCategories : list string;
  keywords : list string;
  requiresRendering : bool;
  rateLimitPerSecond : nat;
  maxAttempts : nat;
  baseDelayMs : Z;
  maxDelayMs : Z
}.

Record TrackedSite := {
  site_name : string;
  jurisdiction : string;
  config : SiteConfig;
  enabled : bool
}.

Record JobStats := {
  found : nat;
  preserved_count : nat;
  versioned : nat;
  skipped_unchanged : nat;
  failed_count : nat
}.

Record CaptureJob := {
  job_site : N;
  trigger : TriggerKind;
  job_status : JobStatus;
  started_at : option Z;
  ended_at : option Z;
  stats : JobStats;
  error_detail : option string;
  cancel_requested : bool
}.

(** Modelled from the spec: storage paths,
    [{site}/{sourceDomain}/{fetchTimestamp}/{artifactName}]. *)
Abbreviation Path := (N * string * Z * string)%type (only parsing).

Record SourceDocument := {
  sd_site : N;
  source_url : string;
  document_kind : DocumentKind;
  fetched_at : Z;
  fetcher_version : string;
  response_status : Z;
  response_headers : string;
  fingerprint : string;
  locations : list Path;
  preservation_status : PreservationStatus;
  preservation_error : option string;
  sd_size : Z
}.

Record DocumentVersion := {
  sequence : nat;
  content : string;
  version_fingerprint : string;
  source_document : nat;
  classification : ChangeClassification;
  change_summary : Z;
  created_at : Z;
  is_current : bool
}.

(** Modelled from the spec: what the Capturer reports about a document,
    the fields of a TrackedDocument other than its versions. *)
Record DocumentInfo := {
  doc_site : N;
  external_id : string;
  title : string;
  doc_category : string;
  lifecycle : LifecycleStatus
}.

Record TrackedDocument := {
  info : DocumentInfo;
  versions : list DocumentVersion
}.

Record RequirementFact := {
  category : Category;
  description : string;
  value : option Q;
  unit : option string;
  confidence : Q;
  snippet : string;
  reference : option string
}.

Inductive Entity :=
| site_entity (site : N)
| job_entity (job : nat)
| source_document_entity (sd : nat)
| version_entity (doc : N) (seq : nat)
| facts_entity (doc : N) (seq : nat).

Record AuditEvent := {
  event_kind : string;
  entity : Entity;
  actor : option nat;
  at_time : Z
}.

(** Modelled from the spec: the raw capture bundle of the Capturer. *)
Record CaptureBundle := {
  bundle_kind : DocumentKind;
  bundle_status : Z;
  bundle_headers : string;
  primary : string;
  screenshot : option string;
  binary : option string;
  assets : list (string * string)
}.

Record State := {
  sites : gmap N TrackedSite;
  jobs : list CaptureJob;
  source_docs : list SourceDocument;
  storage : gmap Path string;
  documents : gmap N TrackedDocument;
  facts : gmap (N * nat) (list RequirementFact);
  audit : list AuditEvent
}.

Definition initial : State :=
  {| sites := ∅; jobs := []; source_docs := []; storage := ∅; documents := ∅;
     facts := ∅; audit := [] |}.

Definition set_sites (x : gmap N TrackedSite) (st : State) : State :=
  {| sites := x; jobs := jobs st; source_docs := source_docs st; storage := storage st;
     documents := documents st; facts := facts st; audit := audit st |}.

Definition set_jobs (x : list CaptureJob) (st : State) : State :=
  {| sites := sites st; jobs := x; source_docs := source_docs st; storage := storage st;
     documents := documents st; facts := facts st; audit := audit st |}.

Definition set_source_docs (x : list SourceDocument) (st : State) : State :=
  {| sites := sites st; jobs := jobs st; source_docs := x; storage := storage st;
     documents := documents st; facts := facts st; audit := audit st |}.

Definition set_storage (x : gmap Path string) (st : State) : State :=
  {| sites := sites st; jobs := jobs st; source_docs := source_docs st; storage := x;
     documents := documents st; facts := facts st; audit := audit st |}.

Definition set_documents (x : gmap N TrackedDocument) (st : State) : State :=
  {| sites := sites st; jobs := jobs st; source_docs := source_docs st; storage := storage st;
     documents := x; facts := facts st; audit := audit st |}.

Definition set_facts (x : gmap (N * nat) (list RequirementFact)) (st : State) : State :=
  {| sites := sites st; jobs := jobs st; source_docs := source_docs st; storage := storage st;
     documents := documents st; facts := x; audit := audit st |}.

(** Modelled from the spec: explicit AuditEvent emission (section 9), an
    append to the audit sink. *)
Definition emit (kind : string) (e : Entity) (who : option nat) (now : Z) (st : State) : State :=
  {| sites := sites st; jobs := jobs st; source_docs := source_docs st; storage := storage st;
     documents := documents st; facts := facts st;
     audit := audit st ++ [ {| event_kind := kind; entity := e; actor := who; at_time := now |} ] |}.

Section Operations.

(** The canonicalization rule and the hash are left open by the
    specification (section 9) and are taken as given, as is the fixed set
    of matchers of the Extractor. *)
Variable canonicalize : string -> string.
Variable sha256 : string -> string.
Variable matchers : string -> list RequirementFact.

(** *** Storage interface *)

(** Modelled from the spec: the storage interface of section 6 (the
    storage client of the backend is not among the sources),
    [put(path, bytes) -> ok|error]; whether the backend rejects the write is
    an input. *)
Definition put (path : Path) (bytes : string) (rejected : bool)
    (st : State) : bool * State :=
  if rejected then (false, st)
  else (true, set_storage (<[path := bytes]> (storage st)) st).

(** Modelled from the spec: [get(path) -> bytes|notFound]. *)
Definition get (path : Path) (st : State) : option string :=
  storage st !! path.

(** *** Document Preserver (4.3) *)

(** Modelled from the spec: the artifacts of a bundle; the names are those
    of the storage layout in the scraping documentation. *)
Definition artifacts (b : CaptureBundle) : list (string * string) :=
  [("page.html", primary b)]
  ++ match screenshot b with Some png => [("screenshot.png", png)] | None => [] end
  ++ match binary b with Some doc => [("document.pdf", doc)] | None => [] end
  ++ ((fun a => ("assets/" ++ fst a, snd a)) <$> assets b).

Definition path_of (site : N) (domain : string) (fetched : Z) (artifact : string)
  : Path :=
  (site, domain, fetched, artifact).

(** Modelled from the spec: the Preserver writes every artifact; the
    result tells whether all writes were accepted.  [failures] names the artifacts whose write the backend
    rejects. *)
Fixpoint write_artifacts (site : N) (domain : string) (fetched : Z) (failures : list string)
    (arts : list (string * string)) (st : State) : bool * State :=
  match arts with
  | [] => (true, st)
  | (name, bytes) :: rest =>
      let '(ok, st1) :=
        put (path_of site domain fetched name) bytes (existsb (String.eqb name) failures) st in
      let '(oks, st2) := write_artifacts site domain fetched failures rest st1 in
      (ok && oks, st2)
  end.

(** Modelled from the spec: the read-after-write check, every artifact can
    be read back. *)
Definition readable_back (site : N) (domain : string) (fetched : Z)
    (arts : list (string * string)) (st : State) : bool :=
  forallb (fun a => match get (path_of site domain fetched (fst a)) st with
                    | Some _ => true
                    | None => false
                    end) arts.

Definition with_status (ok : bool) (sd : SourceDocument) : SourceDocument :=
  {| sd_site := sd_site sd; source_url := source_url sd; document_kind := document_kind sd;
     fetched_at := fetched_at sd; fetcher_version := fetcher_version sd;
     response_status := response_status sd; response_headers := response_headers sd;
     fingerprint := fingerprint sd; locations := locations sd;
     preservation_status := if ok then preserved else failed;
     preservation_error := if ok then None else Some "artifact write not confirmed";
     sd_size := sd_size sd |}.

(** Modelled from the spec: the Document Preserver (the backend's
    document_preserver module is not among the sources),
    [preserve(site, sourceUrl, bundle) -> SourceDocument].  The record is written as [pending], the artifacts
    are written and read back, and the record of this capture, and no
    other, is then marked [preserved] or [failed]. *)
Definition preserve (site : N) (sourceUrl domain : string) (fetched : Z) (version : string)
    (bundle : CaptureBundle) (failures : list string) (st : State) : nat * State :=
  let arts := artifacts bundle in
  let id := length (source_docs st) in
  let record :=
    {| sd_site := site; source_url := sourceUrl; document_kind := bundle_kind bundle;
       fetched_at := fetched; fetcher_version := version;
       response_status := bundle_status bundle; response_headers := bundle_headers bundle;
       fingerprint := sha256 (canonicalize (primary bundle));
       locations := (fun a => path_of site domain fetched (fst a)) <$> arts;
       preservation_status := pending; preservation_error := None;
       sd_size := Z.of_nat (String.length (primary bundle)) |} in
  let st1 := set_source_docs (source_docs st ++ [record]) st in
  let '(written, st2) := write_artifacts site domain fetched failures arts st1 in
  let ok := written && readable_back site domain fetched arts st2 in
  let st3 := set_source_docs (alter (with_status ok) id (source_docs st2)) st2 in
  (id, emit (if ok then "source_preserved" else "preservation_failed")
         (source_document_entity id) None fetched st3).

(** *** Change Detector and Version Manager (4.4) *)

Definition current_version (vs : list DocumentVersion) : option DocumentVersion :=
  List.find is_current vs.

(** Modelled from the spec: the next sequence number, one more than the
    largest in use. *)
Definition next_sequence (vs : list DocumentVersion) : nat :=
  S (fold_right Nat.max 0%nat (sequence <$> vs)).

Definition clear_current (v : DocumentVersion) : DocumentVersion :=
  {| sequence := sequence v; content := content v;
     version_fingerprint := version_fingerprint v; source_document := source_document v;
     classification := classification v; change_summary := change_summary v;
     created_at := created_at v; is_current := false |}.

(** Modelled from the spec: the currency flip; the flag of the prior
    current version is cleared and the new version, which carries it, is
    added, in one step. *)
Definition flip (prior : option DocumentVersion) (new : DocumentVersion)
    (vs : list DocumentVersion) : list DocumentVersion :=
  ((fun v => match prior with
             | Some p => if Nat.eqb (sequence v) (sequence p) then clear_current v else v
             | None => v
             end) <$> vs) ++ [new].

Inductive ApplyResult :=
| NoChange
| NewVersion (v : DocumentVersion) (vs : list DocumentVersion).

(** Modelled from the spec: the Change Detector and Version Manager (not
    among the sources), [applyCapture(trackedDocument, sourceDocument) ->
    DocumentVersion | NoChange], on the versions of the tracked document
    (none when it has no prior content). *)
Definition applyCapture (vs : list DocumentVersion) (sd_id : nat) (sd : SourceDocument)
    (text : string) (now : Z) : ApplyResult :=
  let prior := current_version vs in
  let unchanged :=
    match prior with
    | Some p => String.eqb (version_fingerprint p) (fingerprint sd)
    | None => false
    end in
  if unchanged then NoChange
  else
    let new :=
      {| sequence := next_sequence vs;
         content := text;
         version_fingerprint := fingerprint sd;
         source_document := sd_id;
         classification := match prior with Some _ => amendment | None => new_document end;
         change_summary :=
           Z.of_nat (String.length text)
           - match prior with Some p => Z.of_nat (String.length (content p)) | None => 0 end;
         created_at := now;
         is_current := true |} in
    NewVersion new (flip prior new vs).

(** Modelled from the spec: the Requirement Extractor (the backend's
    adu_extractor module is not among the sources), [extract(version)]; the
    facts of a version are replaced as a set. *)
Definition extract (doc : N) (v : DocumentVersion) (now : Z) (st : State) : State :=
  emit "facts_extracted" (facts_entity doc (sequence v)) None now
    (set_facts (<[(doc, sequence v) := matchers (content v)]> (facts st)) st).

Inductive CaptureOutcome :=
| Unchanged
| Versioned (seq : nat)
| UnknownSourceDocument.

(** Modelled from the spec: [applyCapture] on the registry.  A document
    enters the registry with its first version; an unchanged capture leaves
    the state as it is. *)
Definition apply_capture (doc : N) (about : DocumentInfo) (sd_id : nat) (text : string)
    (now : Z) (st : State) : CaptureOutcome * State :=
  match source_docs st !! sd_id with
  | None => (UnknownSourceDocument, st)
  | Some sd =>
      let tracked :=
        match documents st !! doc with
        | Some td => td
        | None => {| info := about; versions := [] |}
        end in
      match applyCapture (versions tracked) sd_id sd text now with
      | NoChange => (Unchanged, st)
      | NewVersion v vs =>
          (Versioned (sequence v),
           emit "version_created" (version_entity doc (sequence v)) None now
             (set_documents (<[doc := {| info := info tracked; versions := vs |}]> (documents st))
                st))
      end
  end.

(** *** Capture Orchestrator (4.1) *)

Definition running_for (site : N) (j : CaptureJob) : bool :=
  N.eqb (job_site j) site
  && match job_status j with job_running => true | _ => false end.

Definition with_job_status (s : JobStatus) (started ended : option Z) (detail : option string)
    (j : CaptureJob) : CaptureJob :=
  {| job_site := job_site j; trigger := trigger j; job_status := s;
     started_at := started; ended_at := ended; stats := stats j;
     error_detail := detail; cancel_requested := cancel_requested j |}.

Inductive RunResult :=
| Started (job : nat)
| ConflictError
| UnknownSite
| SiteDisabled.

Definition no_stats : JobStats :=
  {| found := 0; preserved_count := 0; versioned := 0; skipped_unchanged := 0;
     failed_count := 0 |}.

(** Modelled from the spec: the Capture Orchestrator (the backend's
    job_manager module is not among the sources),
    [runJob(site, triggerKind) -> CaptureJob].  A
    site with a job in flight is answered with the conflict; otherwise the
    site must be known and enabled, and the job is created [pending] and
    moved to [running]. *)
Definition runJob (site : N) (kind : TriggerKind) (now : Z) (st : State) : RunResult * State :=
  if existsb (running_for site) (jobs st) then (ConflictError, st)
  else
    match sites st !! site with
    | None => (UnknownSite, st)
    | Some s =>
        if negb (enabled s) then (SiteDisabled, st)
        else
          let id := length (jobs st) in
          let job :=
            {| job_site := site; trigger := kind; job_status := job_pending;
               started_at := None; ended_at := None; stats := no_stats;
               error_detail := None; cancel_requested := false |} in
          let st1 := emit "job_created" (job_entity id) (Some id) now
                       (set_jobs (jobs st ++ [job]) st) in
          let st2 := set_jobs (alter (with_job_status job_running (Some now) None None) id
                                 (jobs st1)) st1 in
          (Started id, emit "job_started" (job_entity id) (Some id) now st2)
    end.

(** Modelled from the spec: [cancelJob(id)] sets the cancellation flag of
    a job that has not ended. *)
Definition cancelJob (id : nat) (st : State) : State :=
  set_jobs
    (alter (fun j =>
              match job_status j with
              | job_pending | job_running =>
                  {| job_site := job_site j; trigger := trigger j; job_status := job_status j;
                     started_at := started_at j; ended_at := ended_at j; stats := stats j;
                     error_detail := error_detail j; cancel_requested := true |}
              | _ => j
              end) id (jobs st)) st.

(** Modelled from the spec: the end of a job; only a running job moves,
    and a job that has ended is never reopened. *)
Definition finishJob (id : nat) (how : JobEnd) (now : Z) (st : State) : State :=
  match jobs st !! id with
  | Some j =>
      match job_status j with
      | job_running =>
          let j' :=
            match how with
            | completed => with_job_status job_completed (started_at j) (Some now) None j
            | failed_site detail =>
                with_job_status job_failed (started_at j) (Some now) (Some detail) j
            | cancelled => with_job_status job_cancelled (started_at j) (Some now) None j
            end in
          emit "job_ended" (job_entity id) (Some id) now
            (set_jobs (<[id := j']> (jobs st)) st)
      | _ => st
      end
  | None => st
  end.

Inductive DocOutcome :=
| DocVersioned (seq : nat)
| DocSkippedUnchanged
| DocFailed
| NotRun.

Definition count (o : DocOutcome) (j : CaptureJob) : CaptureJob :=
  let s := stats j in
  let s' :=
    match o with
    | DocVersioned _ =>
        {| found := S (found s); preserved_count := S (preserved_count s);
           versioned := S (versioned s); skipped_unchanged := skipped_unchanged s;
           failed_count := failed_count s |}
    | DocSkippedUnchanged =>
        {| found := S (found s); preserved_count := S (preserved_count s);
           versioned := versioned s; skipped_unchanged := S (skipped_unchanged s);
           failed_count := failed_count s |}
    | DocFailed =>
        {| found := S (found s); preserved_count := preserved_count s;
           versioned := versioned s; skipped_unchanged := skipped_unchanged s;
           failed_count := S (failed_count s) |}
    | NotRun => s
    end in
  {| job_site := job_site j; trigger := trigger j; job_status := job_status j;
     started_at := started_at j; ended_at := ended_at j; stats := s';
     error_detail := error_detail j; cancel_requested := cancel_requested j |}.

(** Modelled from the spec: a job that processes documents is running and
    not asked to stop (the cancellation flag is checked between
    documents). *)
Definition runnable (j : CaptureJob) : bool :=
  running_for (job_site j) j && negb (cancel_requested j).

Definition is_preserved (sd_id : nat) (st : State) : bool :=
  match source_docs st !! sd_id with
  | Some sd => match preservation_status sd with preserved => true | _ => false end
  | None => false
  end.

(** Modelled from the spec: the Extractor on the current version of a
    document. *)
Definition extract_current (doc : N) (now : Z) (st : State) : State :=
  match documents st !! doc with
  | Some td =>
      match current_version (versions td) with
      | Some v => extract doc v now st
      | None => st
      end
  | None => st
  end.

(** Modelled from the spec: Version Manager, then Extractor when there is
    a new version. *)
Definition version_and_extract (doc : N) (about : DocumentInfo) (sd_id : nat) (text : string)
    (now : Z) (st : State) : DocOutcome * State :=
  match apply_capture doc about sd_id text now st with
  | (Versioned n, st') => (DocVersioned n, extract_current doc now st')
  | (Unchanged, st') => (DocSkippedUnchanged, st')
  | (UnknownSourceDocument, st') => (DocFailed, st')
  end.

(** Modelled from the spec: the outcome of a document, counted in the
    statistics of its job. *)
Definition record_outcome (job : nat) (r : DocOutcome * State) : DocOutcome * State :=
  (fst r, set_jobs (alter (count (fst r)) job (jobs (snd r))) (snd r)).

(** Modelled from the spec: what a running job does with one discovered
    document: Preserver, then Version Manager, then Extractor, the outcome
    counted in the job statistics.  A document whose preservation failed
    goes no further.  A job that is not running, or whose cancellation was
    requested, processes no further document. *)
Definition process_document (job : nat) (doc : N) (about : DocumentInfo)
    (sourceUrl domain : string) (bundle : CaptureBundle) (now : Z) (failures : list string)
    (st : State) : DocOutcome * State :=
  match jobs st !! job with
  | Some j =>
      if runnable j then
        let '(sd_id, st1) :=
          preserve (job_site j) sourceUrl domain now "1.0.0" bundle failures st in
        record_outcome job
          (if is_preserved sd_id st1
           then version_and_extract doc about sd_id (primary bundle) now st1
           else (DocFailed, st1))
      else (NotRun, st)
  | None => (NotRun, st)
  end.

(** *** The operations of the pipeline and of its administrator *)

(** Modelled from the spec: the operations of the pipeline, with the
    configuration edits of the administrator. *)
Inductive Op :=
| AddSite (site : N) (s : TrackedSite)
| ConfigureSite (site : N) (s : TrackedSite)
| RunJob (site : N) (kind : TriggerKind) (now : Z)
| CancelJob (job : nat)
| FinishJob (job : nat) (how : JobEnd) (now : Z)
| ProcessDocument (job : nat) (doc : N) (about : DocumentInfo) (sourceUrl domain : string)
    (bundle : CaptureBundle) (now : Z) (failures : list string)
| Preserve (site : N) (sourceUrl domain : string) (fetched : Z) (bundle : CaptureBundle)
    (failures : list string)
| ApplyCapture (doc : N) (about : DocumentInfo) (sd_id : nat) (text : string) (now : Z)
| Extract (doc : N) (now : Z).

Definition step (op : Op) (st : State) : State :=
  match op with
  | AddSite site s =>
      match sites st !! site with
      | Some _ => st
      | None => set_sites (<[site := s]> (sites st)) st
      end
  | ConfigureSite site s =>
      match sites st !! site with
      | Some _ => set_sites (<[site := s]> (sites st)) st
      | None => st
      end
  | RunJob site kind now => snd (runJob site kind now st)
  | CancelJob job => cancelJob job st
  | FinishJob job how now => finishJob job how now st
  | ProcessDocument job doc about sourceUrl domain bundle now failures =>
      snd (process_document job doc about sourceUrl domain bundle now failures st)
  | Preserve site sourceUrl domain fetched bundle failures =>
      snd (preserve site sourceUrl domain fetched "1.0.0" bundle failures st)
  | ApplyCapture doc about sd_id text now => snd (apply_capture doc about sd_id text now st)
  | Extract doc now => extract_current doc now st
  end.

(** A sequence of operations, one after the other. *)
Definition steps (ops : list Op) (st : State) : State :=
  fold_left (fun st op => step op st) ops st.

Inductive reachable : State -> Prop :=
| reachable_initial : reachable initial
| reachable_step (op : Op) (st : State) : reachable st -> reachable (step op st).

End Operations.

End Pipeline.

(** * Further parts of the frontend *)

(** ** JavaScript strings *)

Module JsString.
Import JsArray.

(** The clamping of an index argument to [0 .. length]. *)
Definition clamp (length i : Z) : Z := Z.min (Z.max i 0) length.

(** [String.prototype.substring(indexStart, indexEnd)] on integer
    arguments: both are clamped to [0 .. length] and swapped when they
    come in the wrong order. *)
Definition substring (s : string) (indexStart indexEnd : Z) : string :=
  let intStart := clamp (len s) indexStart in
  let intEnd := clamp (len s) indexEnd in
  let from := Z.min intStart intEnd in
  let to := Z.max intStart intEnd in
  String.substring (Z.to_nat from) (Z.to_nat (to - from)) s.

(** [s.startsWith(searchString)] *)
Definition startsWith (s searchString : string) : bool := String.prefix searchString s.

End JsString.

(** ** BylawVersionHistory.tsx: the preview of a version *)

Module BylawVersionHistoryView.
Import JsArray JsString BylawVersionHistory.

(** [if (content.length <= maxLength) return content;
     return content.substring(0, maxLength) + '...';] *)
Definition getContentPreview (content : string) (maxLength : Z) : string :=
  if len content <=? maxLength then content
  else substring content 0 maxLength ++ "...".

(** [{diff.added > 0 && <span>+{diff.added}</span>}
     {diff.removed > 0 && <span>-{diff.removed}</span>}]: the signed
    numbers shown beside a version, none for a zero. *)
Definition shownDiff (versions : list BylawVersion) (version : BylawVersion) : list Z :=
  let diff := calculateContentDiff versions version in
  (if 0 <? added diff then [added diff] else [])
    ++ (if 0 <? removed diff then [- removed diff] else []).

End BylawVersionHistoryView.

(** ** ADURequirements.tsx: the confidence badge and the analysis summary *)

Module ADUSummary.
Import ADURequirements.

(** [getConfidenceColor], the classes of the confidence badge. *)
Definition getConfidenceColor (confidence : Q) : string :=
  if Qle_bool (90 # 1) confidence then "text-green-600 bg-green-100"
  else if Qle_bool (75 # 1) confidence then "text-yellow-600 bg-yellow-100"
  else "text-red-600 bg-red-100".

(** The tile 'High Confidence':
    [requirements.filter(r => r.confidence >= 90).length] *)
Definition highConfidence (requirements : list ADURequirement) : nat :=
  length (List.filter (fun r => Qle_bool (90 # 1) (confidence r)) requirements).

(** The options of the category selector but ['all']. *)
Definition categories : list Category := [zoning; parking; size; design; permit; other].

End ADUSummary.

(** ** authService.ts: the [try]/[catch] around the Supabase calls *)

Module AuthService.
Import Supabase.

(** What [await supabase.auth....] gives: the value the promise resolved
    to, or the reason it was rejected with, which the [await] throws. *)
Inductive Awaited :=
| Resolved (response : JsValue)
| Rejected (reason : JsValue).

(** The values that travel through [throw] and [catch]: an [Error] built
    by [new Error(message)], the engine's [TypeError], or the reason of
    a rejected promise. *)
Inductive Thrown :=
| AnError (message : string)
| ATypeError
| AReason (reason : JsValue).

Inductive Result :=
| Value (v : JsValue)
| Throws (e : Thrown).

(** A [handleApiError(error)] statement: the rest runs only if the call
    returns. *)
Definition handled (error : JsValue) (rest : Result) : Result :=
  match handleApiError error with
  | Returns _ => rest
  | ThrowsError message => Throws (AnError message)
  | ThrowsTypeError => Throws ATypeError
  end.

(** [obj.key], the engine's [TypeError] on [null] and [undefined]. *)
Definition read (obj : JsValue) (key : string) (rest : JsValue -> Result) : Result :=
  match get obj key with
  | Some v => rest v
  | None => Throws ATypeError
  end.

Section Engine.

(** The message text of the engine's [TypeError]; the language leaves it
    to the engine. *)
Variable typeErrorMessage : string.

(** The caught value as the [catch] block sees it.  An [Error] has its
    [message] as an own property and no [code]. *)
Definition caught (e : Thrown) : JsValue :=
  match e with
  | AnError message => JsObject [("message", JsString message)]
  | ATypeError => JsObject [("message", JsString typeErrorMessage)]
  | AReason reason => reason
  end.

(** [try { body } catch (error) { handleApiError(error); throw error }] *)
Definition try_catch (body : Result) : Result :=
  match body with
  | Value v => Value v
  | Throws e => handled (caught e) (Throws e)
  end.

(** [if (error) { handleApiError(error) }] *)
Definition check (error : JsValue) (rest : Result) : Result :=
  if truthy error then handled error rest else rest.

(** [signIn]: [const { data, error } = await ...signInWithPassword(...);
     if (error) handleApiError(error);
     if (!data.user || !data.session) throw new Error('Authentication failed');
     return { user: data.user, session: data.session }] *)
Definition signIn (awaited : Awaited) : Result :=
  try_catch
    match awaited with
    | Rejected reason => Throws (AReason reason)
    | Resolved response =>
        read response "data" (fun data =>
        read response "error" (fun error =>
        check error (
        read data "user" (fun user =>
        if negb (truthy user) then Throws (AnError "Authentication failed")
        else
          read data "session" (fun session =>
          if negb (truthy session) then Throws (AnError "Authentication failed")
          else Value (JsObject [("user", user); ("session", session)]))))))
    end.

(** [getCurrentUser]: [const { data: { user }, error } = await ...getUser();
     if (error) handleApiError(error); return user] *)
Definition getCurrentUser (awaited : Awaited) : Result :=
  try_catch
    match awaited with
    | Rejected reason => Throws (AReason reason)
    | Resolved response =>
        read response "data" (fun data =>
        read data "user" (fun user =>
        read response "error" (fun error =>
        check error (Value user))))
    end.

(** [user !== null] *)
Definition strict_neq_null (v : JsValue) : bool :=
  match v with
  | JsNull => false
  | _ => true
  end.

(** [isAdmin]: [try { const user = await this.getCurrentUser();
     return user !== null } catch (error) { return false }] *)
Definition isAdmin (awaited : Awaited) : Result :=
  match getCurrentUser awaited with
  | Value user => Value (JsBool (strict_neq_null user))
  | Throws _ => Value (JsBool false)
  end.

End Engine.

End AuthService.

(** ** municipalityService.ts: the remaining requests *)

Module MunicipalityRoutes.
Import MunicipalityService.

(** [apiClient.get('/api/municipalities')] *)
Definition getMunicipalities : ApiCall :=
  {| method := GET; path := "/api/municipalities" |}.

(** [apiClient.get('/api/municipalities/provinces')] *)
Definition getProvinces : ApiCall :=
  {| method := GET; path := "/api/municipalities/provinces" |}.

(** [apiClient.get('/api/municipalities/${municipalityId}/config')] *)
Definition getMunicipalityConfig (municipalityId : string) : ApiCall :=
  {| method := GET; path := "/api/municipalities/" ++ municipalityId ++ "/config" |}.

(** [apiClient.put('/api/municipalities/${municipalityId}/config', config)] *)
Definition updateMunicipalityConfig (municipalityId : string) : ApiCall :=
  {| method := PUT; path := "/api/municipalities/" ++ municipalityId ++ "/config" |}.

(** The characters of an id as the database generates it (a UUID):
    letters, digits and the hyphen. *)
Definition plain_char (c : ascii) : bool :=
  let n := nat_of_ascii c in
  (Nat.leb 48 n && Nat.leb n 57) || (Nat.leb 65 n && Nat.leb n 90)
  || (Nat.leb 97 n && Nat.leb n 122) || Nat.eqb n 45.

Fixpoint plain (s : string) : bool :=
  match s with
  | EmptyString => true
  | String c s' => plain_char c && plain s'
  end.

Definition plain_id (id : string) : bool :=
  negb (String.eqb id "") && plain id.

(** The path of a request target: what stands before the first [?] or
    [#] (RFC 3986, section 3). *)
Fixpoint target_path (target : string) : string :=
  match target with
  | EmptyString => EmptyString
  | String c rest =>
      if Ascii.eqb c "?"%char || Ascii.eqb c "#"%char then EmptyString
      else String c (target_path rest)
  end.

(** The segments of a path, which [/] separates. *)
Fixpoint segments (path : string) : list string :=
  match path with
  | EmptyString => [EmptyString]
  | String c rest =>
      if Ascii.eqb c "/"%char then EmptyString :: segments rest
      else
        match segments rest with
        | segment :: others => String c segment :: others
        | [] => [String c EmptyString]
        end
  end.

End MunicipalityRoutes.

(** ** SourceVerification.tsx: the simulated verification *)

Module SourceVerification.
Import JsString.

Record VerificationStatus := {
  sourceAccessible : bool;
  hashVerified : bool;
  lastChecked : Z;
  certificateValid : bool;
  sslVerified : bool
}.

(** [x > y] on numbers. *)
Definition gt (x y : Q) : bool := negb (Qle_bool x y).

(** [simulateVerificationCheck]: the status that is stored, from the
    bylaw, the clock and the three draws of [Math.random()]. *)
Definition simulateVerificationCheck (bylaw : ADURequirements.Bylaw) (now : Z)
    (draw1 draw2 draw3 : Q) : VerificationStatus :=
  {| sourceAccessible := gt draw1 (1 # 10);
     hashVerified := gt draw2 (5 # 100);
     lastChecked := now;
     certificateValid := startsWith (ADURequirements.source_url bylaw) "https://";
     sslVerified :=
       startsWith (ADURequirements.source_url bylaw) "https://" && gt draw3 (1 # 10) |}.

(** [getVerificationScore], on the state [verificationStatus], which is
    [null] until the first check has finished. *)
Definition getVerificationScore (verificationStatus : option VerificationStatus) : Z :=
  match verificationStatus with
  | None => 0
  | Some status =>
      let score := 0 in
      let score := if sourceAccessible status then score + 25 else score in
      let score := if hashVerified status then score + 25 else score in
      let score := if certificateValid status then score + 25 else score in
      let score := if sslVerified status then score + 25 else score in
      score
  end.

Inductive ScoreColor := green | yellow | red.

(** [getScoreColor]; [getScoreBackground] has the same thresholds. *)
Definition getScoreColor (score : Z) : ScoreColor :=
  if 90 <=? score then green
  else if 70 <=? score then yellow
  else red.

End SourceVerification.

(** ** Row level security: the policies of the SQL scripts *)

Module RowLevelSecurity.

Inductive Command := cmd_select | cmd_insert | cmd_update | cmd_delete.

(** The [FOR] clause of [CREATE POLICY]. *)
Inductive ForClause := for_all | for_command (c : Command).

(** What a policy expression can read: [auth.role()], the [role] claim
    that [auth.user_role()] returns, the [apikey] request header, and,
    on [bylaws], the [status] column of the row; a missing value is
    NULL. *)
Record Request := {
  auth_role : option string;
  user_role : option string;
  apikey : option string
}.

(** The expressions of the [USING] and [WITH CHECK] clauses. *)
Inductive Expr :=
| e_true
| auth_role_is (role : string)
| user_role_in (roles : list string)
| status_is (status : string)
| apikey_is_not_null
| e_and (a b : Expr).

Definition is_one_of (v : option string) (l : list string) : bool :=
  match v with
  | Some s => existsb (String.eqb s) l
  | None => false
  end.

(** A row passes when the expression is true; NULL counts as false. *)
Fixpoint eval (req : Request) (row_status : option string) (e : Expr) : bool :=
  match e with
  | e_true => true
  | auth_role_is role => is_one_of (auth_role req) [role]
  | user_role_in roles => is_one_of (user_role req) roles
  | status_is status => is_one_of row_status [status]
  | apikey_is_not_null => match apikey req with Some _ => true | None => false end
  | e_and a b => eval req row_status a && eval req row_status b
  end.

(** [CREATE POLICY name ON table FOR ... USING (expr)], or
    [WITH CHECK (expr)] for an INSERT policy; the [USING] expression of
    a [FOR ALL] policy is its [WITH CHECK] expression as well.  No
    policy of the scripts has a [TO] clause or is [RESTRICTIVE]. *)
Record Policy := {
  policy_name : string;
  on_table : string;
  for_clause : ForClause;
  expr : Expr
}.

Definition Command_eqb (a b : Command) : bool :=
  match a, b with
  | cmd_select, cmd_select | cmd_insert, cmd_insert
  | cmd_update, cmd_update | cmd_delete, cmd_delete => true
  | _, _ => false
  end.

Definition applies (f : ForClause) (c : Command) : bool :=
  match f with
  | for_all => true
  | for_command c' => Command_eqb c' c
  end.

(** With row level security enabled, a command on a row is permitted
    when one of the table's policies for this command passes; with no
    such policy it is denied.  (Roles that bypass row level security,
    as the service role, are not subject to this.) *)
Definition permitted (policies : list Policy) (table : string) (c : Command)
    (req : Request) (row_status : option string) : bool :=
  existsb (fun p => String.eqb (on_table p) table
                    && applies (for_clause p) c
                    && eval req row_status (expr p))
          policies.

Inductive PolicyStmt :=
| DropPolicyIfExists (name table : string)
| CreatePolicy (p : Policy).

Definition names (name table : string) (p : Policy) : bool :=
  String.eqb (policy_name p) name && String.eqb (on_table p) table.

(** [CREATE POLICY] fails when the table has a policy of this name. *)
Definition run_stmt (stmt : PolicyStmt) (policies : list Policy) : option (list Policy) :=
  match stmt with
  | DropPolicyIfExists name table =>
      Some (List.filter (fun p => negb (names name table p)) policies)
  | CreatePolicy p =>
      if existsb (names (policy_name p) (on_table p)) policies then None
      else Some (policies ++ [p])%list
  end.

Fixpoint run_script (script : list PolicyStmt) (policies : list Policy)
  : option (list Policy) :=
  match script with
  | [] => Some policies
  | stmt :: script' =>
      match run_stmt stmt policies with
      | Some policies' => run_script script' policies'
      | None => None
      end
  end.

Definition tables : list string :=
  [ "municipalities"; "source_documents"; "bylaws"; "bylaw_versions";
    "adu_requirements"; "scraping_configs"; "scraping_jobs"; "audit_log" ].

Definition policy (name table : string) (f : ForClause) (e : Expr) : PolicyStmt :=
  CreatePolicy {| policy_name := name; on_table := table; for_clause := f; expr := e |}.

(** The policies of the Supabase setup script:
    [CREATE POLICY "Enable read access for all users" ON t FOR SELECT
     USING (true)] for each of the eight tables. *)
Definition setup_policies : list PolicyStmt :=
  map (fun t => policy "Enable read access for all users" t (for_command cmd_select) e_true)
      tables.

(** simple_auth_policies.sql *)
Definition simple_auth_policies : list PolicyStmt :=
  (map (DropPolicyIfExists "Enable read access for all users")
       [ "municipalities"; "bylaws"; "source_documents"; "bylaw_versions";
         "adu_requirements"; "scraping_configs"; "scraping_jobs"; "audit_log" ]
   ++ [ DropPolicyIfExists "Public read access" "municipalities";
        DropPolicyIfExists "Public read access" "bylaws";
        DropPolicyIfExists "Admin write access" "municipalities";
        DropPolicyIfExists "Admin write access" "bylaws";
        DropPolicyIfExists "Admin only access" "scraping_configs";
        DropPolicyIfExists "Admin only access" "scraping_jobs" ]
   ++ map (fun t => policy "Authenticated users have full access" t for_all
                      (auth_role_is "authenticated"))
          tables
   ++ [ policy "Public can read municipalities" "municipalities" (for_command cmd_select)
          e_true;
        policy "Public can read bylaws" "bylaws" (for_command cmd_select) e_true ])%list.

(** The script with the role based policies. *)
Definition role_based_policies : list PolicyStmt :=
  [ policy "Municipalities viewable by all authenticated users" "municipalities"
      (for_command cmd_select) (auth_role_is "authenticated");
    policy "Municipalities editable by editors and admins" "municipalities"
      for_all (user_role_in ["editor"; "admin"]);
    policy "Source documents viewable by all authenticated users" "source_documents"
      (for_command cmd_select) (auth_role_is "authenticated");
    policy "Source documents insertable by system" "source_documents"
      (for_command cmd_insert) (user_role_in ["editor"; "admin"; "service_role"]);
    policy "Bylaws viewable by all authenticated users" "bylaws"
      (for_command cmd_select) (auth_role_is "authenticated");
    policy "Bylaws editable by editors and admins" "bylaws"
      for_all (user_role_in ["editor"; "admin"]);
    policy "Bylaw versions viewable by all authenticated users" "bylaw_versions"
      (for_command cmd_select) (auth_role_is "authenticated");
    policy "Bylaw versions insertable by editors and admins" "bylaw_versions"
      (for_command cmd_insert) (user_role_in ["editor"; "admin"]);
    policy "ADU requirements viewable by all authenticated users" "adu_requirements"
      (for_command cmd_select) (auth_role_is "authenticated");
    policy "ADU requirements editable by editors and admins" "adu_requirements"
      for_all (user_role_in ["editor"; "admin"]);
    policy "Scraping configs viewable by admins" "scraping_configs"
      (for_command cmd_select) (user_role_in ["admin"]);
    policy "Scraping configs editable by admins" "scraping_configs"
      for_all (user_role_in ["admin"]);
    policy "Scraping jobs viewable by editors and admins" "scraping_jobs"
      (for_command cmd_select) (user_role_in ["editor"; "admin"]);
    policy "Scraping jobs manageable by admins" "scraping_jobs"
      for_all (user_role_in ["admin"]);
    policy "Audit log viewable by authenticated users" "audit_log"
      (for_command cmd_select) (auth_role_is "authenticated");
    policy "Public bylaw search" "bylaws" (for_command cmd_select)
      (e_and (status_is "active") (e_and (auth_role_is "anon") apikey_is_not_null)) ].

End RowLevelSecurity.

(** * Examples and the claims of the specification *)

Local Open Scope list_scope.
Local Open Scope Z_scope.

Module VersionExamples.

Definition version_2 : BylawVersionHistory.BylawVersion :=
  {| BylawVersionHistory.id := "v2"; BylawVersionHistory.bylaw_id := "b1";
     BylawVersionHistory.version_number := 2;
     BylawVersionHistory.content := "Maximum height 8 m.";
     BylawVersionHistory.hash := "h2";
     BylawVersionHistory.change_summary := "height raised";
     BylawVersionHistory.created_at := 1700000000000;
     BylawVersionHistory.created_by := "scraper";
     BylawVersionHistory.source_url := "https://city.example/bylaws/1" |}.

Definition version_1 : BylawVersionHistory.BylawVersion :=
  {| BylawVersionHistory.id := "v1"; BylawVersionHistory.bylaw_id := "b1";
     BylawVersionHistory.version_number := 1;
     BylawVersionHistory.content := "Maximum height 7.5 m.";
     BylawVersionHistory.hash := "h1";
     BylawVersionHistory.change_summary := "initial";
     BylawVersionHistory.created_at := 1600000000000;
     BylawVersionHistory.created_by := "scraper";
     BylawVersionHistory.source_url := "https://city.example/bylaws/1" |}.

(** Newest first, as the component lists them. *)
Definition loaded_versions : list BylawVersionHistory.BylawVersion := [version_2; version_1].

End VersionExamples.

Module SupabaseExamples.
(** The [Error] that [handleApiError] itself throws for a PGRST301
    response; the [catch] blocks of the authentication service hand it to
    [handleApiError] a second time. *)
Definition rethrown_error : Supabase.JsValue :=
  Supabase.JsObject [("message", Supabase.JsString "No data found")].

Definition postgrest_error : Supabase.JsValue :=
  Supabase.JsObject [("code", Supabase.JsString "PGRST116");
                     ("message", Supabase.JsString "JSON object requested, multiple rows returned")].

(** An error whose message is a list of texts, and one whose message
    has no string conversion. *)
Definition listed_error : Supabase.JsValue :=
  Supabase.JsObject [("message", Supabase.JsArray [Supabase.JsString "email is required";
                                                   Supabase.JsNull;
                                                   Supabase.JsString "password is required"])].

Definition unprintable_error : Supabase.JsValue :=
  Supabase.JsObject [("message", Supabase.JsObject [("toString", Supabase.JsNull)])].
End SupabaseExamples.

Module SupabaseClaims.
Import Supabase.
(** The behaviour of [handleApiError] as the specification words it: it
    throws an [Error] whose message is ['No data found'] exactly when the
    code is ['PGRST301'], ['Invalid query parameters'] exactly when the
    code is ['PGRST116'], and otherwise the input's message, or ['An
    unexpected error occurred'] when there is none. *)
Definition throws_as_stated (error : JsValue) : Prop :=
  exists msg : string,
    handleApiError error = ThrowsError msg
    /\ (msg = "No data found" <-> code_is error "PGRST301")
    /\ (msg = "Invalid query parameters" <-> code_is error "PGRST116")
    /\ (~ code_is error "PGRST301" -> ~ code_is error "PGRST116" ->
        match message_field error with
        | Some m => to_string m = Some msg
        | None => msg = "An unexpected error occurred"
        end).
End SupabaseClaims.

Module ADUExamples.
(** A bylaw whose text is the sentence of scenario E. *)
Definition floor_area_sentence : string :=
  "maximum floor area shall not exceed 1,000 square feet".

Definition floor_area_bylaw : ADURequirements.Bylaw :=
  {| ADURequirements.bylaw_id := "b1";
     ADURequirements.municipality_id := "m1";
     ADURequirements.title := "Accessory Dwelling Unit Bylaw";
     ADURequirements.number := "2024-001";
     ADURequirements.content := floor_area_sentence;
     ADURequirements.status := "active";
     ADURequirements.bylaw_category := "adu";
     ADURequirements.tags := [];
     ADURequirements.source_url := "https://city.example/bylaws/2024-001";
     ADURequirements.source_type := "html";
     ADURequirements.hash := "0" |}.

(** The first fact of the component's list. *)
Definition zoning_fact : ADURequirements.ADURequirement :=
  {| ADURequirements.id := "1";
     ADURequirements.category := ADURequirements.zoning;
     ADURequirements.requirement := "Permitted in R-1 and R-2 residential zones";
     ADURequirements.value := None;
     ADURequirements.unit := None;
     ADURequirements.confidence := 95 # 1;
     ADURequirements.source_text := "Accessory dwelling units are permitted as a conditional use in R-1 and R-2 residential zones...";
     ADURequirements.page_reference := Some "Section 4.2.1" |}.
End ADUExamples.

Module ADUClaims.
Import ADURequirements.

(** The confidence bound of the specification: a score in [[0, 1]]. *)
Definition confidence_in_unit_interval (req : ADURequirement) : Prop :=
  (0 <= confidence req)%Q /\ (confidence req <= 1)%Q.

(** What the component shows for a bylaw when it opens: the extracted
    facts, all categories, the initial confidence threshold. *)
Definition displayed (bylaw : Bylaw) : list ADURequirement :=
  filteredRequirements (extractADURequirements bylaw) None initialMinConfidence.

Definition contains (text part : string) : bool :=
  match String.index 0 part text with
  | Some _ => true
  | None => false
  end.

(** Scenario E as the specification words it: from a text that contains
    the sentence, a fact of category size whose value is 92.9 within 0.1,
    with the matched sentence as its snippet. *)
Definition scenario_E (sentence : string) (bylaw : Bylaw) : Prop :=
  contains (content bylaw) sentence = true ->
  exists req : ADURequirement,
    In req (extractADURequirements bylaw)
    /\ category req = size
    /\ (exists v : Q, numeric_value req = Some v /\ within v (929 # 10) (1 # 10) = true)
    /\ contains (source_text req) sentence = true
    /\ contains (content bylaw) (source_text req) = true.
End ADUClaims.

Module SchemaExamples.
Import Schema.

Definition admin_session : Session :=
  {| auth_uid := Some 7%N; jwt_email := Some "admin@example.com"; now := 1700000000 |}.

(** The first row of the sample data of the setup script. *)
Definition toronto : Municipality.row :=
  {| Municipality.name := "Toronto"; Municipality.province := "Ontario";
     Municipality.website_url := Some "https://www.toronto.ca";
     Municipality.scraping_enabled := true;
     Municipality.created_at := 1600000000; Municipality.updated_at := 1600000000;
     Municipality.metadata := "{}" |}.

Definition finished_job : ScrapingJob.row :=
  {| ScrapingJob.municipality_id := Some 1%N; ScrapingJob.config_id := None;
     ScrapingJob.job_type := "manual"; ScrapingJob.status := "completed";
     ScrapingJob.started_at := Some 1650000000; ScrapingJob.completed_at := Some 1650000060;
     ScrapingJob.duration_seconds := Some 60;
     ScrapingJob.documents_found := 3; ScrapingJob.documents_processed := 3;
     ScrapingJob.documents_changed := 1;
     ScrapingJob.error_message := None; ScrapingJob.error_details := None;
     ScrapingJob.triggered_by := Some 7%N; ScrapingJob.celery_task_id := None;
     ScrapingJob.created_at := 1650000000 |}.

Definition adu_bylaw : Bylaw.row :=
  {| Bylaw.municipality_id := Some 1%N; Bylaw.source_document_id := None;
     Bylaw.bylaw_number := Some "2024-001";
     Bylaw.title := "Accessory Dwelling Unit Bylaw";
     Bylaw.category := Some "adu"; Bylaw.status := Some "active";
     Bylaw.effective_date := None; Bylaw.amendment_date := None; Bylaw.repeal_date := None;
     Bylaw.parent_bylaw_id := None; Bylaw.full_text := None; Bylaw.summary := None;
     Bylaw.created_at := 1650000000; Bylaw.updated_at := 1650000000 |}.

Definition first_version : BylawVersion.row :=
  {| BylawVersion.bylaw_id := Some 2%N; BylawVersion.version_number := 1;
     BylawVersion.content := "{}"; BylawVersion.extracted_requirements := None;
     BylawVersion.extracted_at := 1650000000; BylawVersion.extraction_method := Some "automated";
     BylawVersion.confidence_scores := None; BylawVersion.source_document_id := None;
     BylawVersion.source_location := None; BylawVersion.previous_version_id := None;
     BylawVersion.change_type := None; BylawVersion.change_summary := None;
     BylawVersion.change_reason := None; BylawVersion.created_by := None;
     BylawVersion.created_at := 1650000000; BylawVersion.approved_by := None;
     BylawVersion.approved_at := None; BylawVersion.is_current := true |}.

(** A database with one site, one of its bylaws and one finished job. *)
Definition one_site_db : DB :=
  run full_schema admin_session
    [ Insert t_municipalities 1%N toronto;
      Insert t_bylaws 2%N adu_bylaw;
      Insert t_scraping_jobs 10%N finished_job ]
    empty_db.


End SchemaExamples.

Module SchemaClaims.
Import Schema.

(** C8 as the specification words it, for one statement: a site that is
    present is still present afterwards. *)
Definition site_persists (script : SetupScript) (s : Session) (stmt : Stmt) (db : DB)
    (site : N) : Prop :=
  is_Some (municipalities db !! site) ->
  is_Some (municipalities (after script s stmt db) !! site).

(** Every job that names a site names a site that is there. *)
Definition jobs_reference_sites (db : DB) : Prop :=
  forall (job : N) (row : ScrapingJob.row) (site : N),
    scraping_jobs db !! job = Some row ->
    ScrapingJob.municipality_id row = Some site ->
    is_Some (municipalities db !! site).






End SchemaClaims.

Module PipelineExamples.
Import Pipeline.

(** Stand-ins for the canonicalization rule and the hash, and an
    extractor without matchers. *)
Definition keep_text (text : string) : string := text.

Definition no_matchers (text : string) : list RequirementFact := [].

Definition toronto_config : SiteConfig :=
  {| targetUrls := ["https://www.toronto.ca/bylaws"];
     selectors := [("linkList", "a[href*=bylaw]"); ("title", "h1.title");
                   ("content", ".content")];
     pagination_enabled := false; nextSelector := ""; maxPages := 1;
     documentCategories := ["adu"]; keywords := [];
     requiresRendering := false; rateLimitPerSecond := 1;
     maxAttempts := 3; baseDelayMs := 1000; maxDelayMs := 8000 |}.

Definition toronto : TrackedSite :=
  {| site_name := "Toronto"; jurisdiction := "Ontario"; config := toronto_config;
     enabled := true |}.

Definition adu_bylaw : DocumentInfo :=
  {| doc_site := 1%N; external_id := "2024-001";
     title := "Accessory Dwelling Unit Bylaw"; doc_category := "adu";
     lifecycle := active |}.

Definition adu_page : CaptureBundle :=
  {| bundle_kind := page; bundle_status := 200; bundle_headers := "{}";
     primary := "<h1>Accessory Dwelling Unit Bylaw</h1>";
     screenshot := None; binary := None; assets := [] |}.

Definition run (ops : list Op) : State :=
  steps keep_text keep_text no_matchers ops initial.

(** Site 1 with its first job, job 0, running. *)
Definition job_running : State :=
  run [AddSite 1%N toronto; RunJob 1%N manual 100].

(** The same after the job has captured the bylaw page once. *)
Definition captured_once : State :=
  run [AddSite 1%N toronto; RunJob 1%N manual 100;
       ProcessDocument 0 5%N adu_bylaw "https://www.toronto.ca/bylaws/2024-001"
         "www.toronto.ca" adu_page 110 []].

End PipelineExamples.

Module PipelineClaims.
Import Pipeline.

(** The number of versions flagged current. *)
Definition count_current (vs : list DocumentVersion) : nat :=
  length (List.filter is_current vs).

(** The currency and monotonicity invariant of one tracked document. *)
Definition versions_ok (vs : list DocumentVersion) : Prop :=
  count_current vs = 1%nat /\ sequence <$> vs = seq 1 (length vs).

Definition all_versions_ok (st : State) : Prop :=
  forall (doc : N) (td : TrackedDocument),
    documents st !! doc = Some td -> versions_ok (versions td).

(** The jobs of a site that are running. *)
Definition running_jobs (site : N) (st : State) : list CaptureJob :=
  List.filter (running_for site) (jobs st).

(** Whether some write of the bundle is rejected. *)
Definition some_write_fails (bundle : CaptureBundle) (failures : list string) : Prop :=
  exists name bytes : string, In (name, bytes) (artifacts bundle) /\ In name failures.

(** Whether every write of a list of artifacts is accepted. *)
Definition accepted (failures : list string) (arts : list (string * string)) : bool :=
  forallb (fun a => negb (existsb (String.eqb (fst a)) failures)) arts.

(** The provenance record of a capture once the Preserver is done with
    it. *)
Definition recorded (canonicalize sha256 : string -> string) (site : N)
    (sourceUrl domain : string) (fetched : Z) (version : string) (bundle : CaptureBundle)
    (failures : list string) : SourceDocument :=
  with_status (accepted failures (artifacts bundle))
    {| sd_site := site; source_url := sourceUrl; document_kind := bundle_kind bundle;
       fetched_at := fetched; fetcher_version := version;
       response_status := bundle_status bundle; response_headers := bundle_headers bundle;
       fingerprint := sha256 (canonicalize (primary bundle));
       locations := (fun a => path_of site domain fetched (fst a)) <$> artifacts bundle;
       preservation_status := pending; preservation_error := None;
       sd_size := Z.of_nat (String.length (primary bundle)) |}.

(** The versions of a document, none when it is not tracked yet. *)
Definition doc_versions (st : State) (doc : N) : list DocumentVersion :=
  match documents st !! doc with
  | Some td => versions td
  | None => []
  end.

(** The only way the tracked documents change: one document receives the
    versions that [applyCapture] computed from its own. *)
Definition documents_step (st st' : State) : Prop :=
  documents st' = documents st
  \/ exists (doc : N) (sd_id : nat) (sd : SourceDocument) (text : string) (now : Z)
            (v : DocumentVersion) (td' : TrackedDocument),
       applyCapture (doc_versions st doc) sd_id sd text now = NewVersion v (versions td')
       /\ documents st' = <[doc := td']> (documents st).

End PipelineClaims.

Module AuditClaims.
Import Pipeline PipelineClaims.

(** Modelled from the spec: the events that a step has appended to the
    audit sink, an append-only stream (section 6). *)
Definition emitted (st st' : State) : list AuditEvent :=
  drop (length (audit st)) (audit st').

(** The status of the job with a given number, if there is one. *)
Definition status_of (st : State) (job : nat) : option JobStatus :=
  job_status <$> jobs st !! job.

(** Modelled from the spec: an AuditEvent references the entity that was
    created, changed or extracted (section 3).  The mutation that the
    event [e] records was performed between the states [st] and [st']:
    the source document was added, the version was added under a
    sequence number that was not in use, the facts of a version are
    stored, the job has a status that it did not have.  No operation of
    the pipeline records an event for a site. *)
Definition performed (st st' : State) (e : AuditEvent) : Prop :=
  match entity e with
  | source_document_entity id =>
      source_docs st !! id = None /\ is_Some (source_docs st' !! id)
  | version_entity doc seq =>
      (exists v, In v (doc_versions st' doc) /\ sequence v = seq)
      /\ (forall w, In w (doc_versions st doc) -> sequence w <> seq)
  | facts_entity doc seq =>
      is_Some (facts st' !! (doc, seq))
      /\ (exists v, In v (doc_versions st' doc) /\ sequence v = seq)
  | job_entity job =>
      exists status, status_of st' job = Some status /\ status_of st job <> Some status
  | site_entity _ => False
  end.

(** Modelled from the spec: the audit sink holds a record of every
    mutation the pipeline performs (section 3).  Every source document
    and every version that was added between [st] and [st'], every
    change of the facts of a version and every change of the status of
    a job has an event in [events]. *)
Definition all_recorded (st st' : State) (events : list AuditEvent) : Prop :=
  (forall id, source_docs st !! id = None -> is_Some (source_docs st' !! id) ->
              exists e, In e events /\ entity e = source_document_entity id)
  /\ (forall doc v,
         In v (doc_versions st' doc) ->
         (forall w, In w (doc_versions st doc) -> sequence w <> sequence v) ->
         exists e, In e events /\ entity e = version_entity doc (sequence v)
                   /\ event_kind e = "version_created")
  /\ (forall doc seq, facts st' !! (doc, seq) <> facts st !! (doc, seq) ->
                      exists e, In e events /\ entity e = facts_entity doc seq)
  /\ (forall job, status_of st' job <> status_of st job ->
                  exists e, In e events /\ entity e = job_entity job).

(** What is recorded in [st] is still there in [st']: no source
    document, no sequence number of a version and no set of facts is
    gone, and every job has the status it had. *)
Definition persists (st st' : State) : Prop :=
  (forall id, is_Some (source_docs st !! id) -> is_Some (source_docs st' !! id))
  /\ (forall doc w, In w (doc_versions st doc) ->
                    exists x, In x (doc_versions st' doc) /\ sequence x = sequence w)
  /\ (forall key, is_Some (facts st !! key) -> is_Some (facts st' !! key))
  /\ (forall job, status_of st' job = status_of st job).

(** The step from [st] to [st'] appended [events], each for a mutation
    it performed, and one for each. *)
Definition audited (st st' : State) (events : list AuditEvent) : Prop :=
  audit st' = audit st ++ events
  /\ Forall (performed st st') events
  /\ all_recorded st st' events.

End AuditClaims.

Module SchemaInvariants.
Import Schema.

(** Every foreign key of every row points to a row that is there. *)
Definition referential_integrity (db : DB) : Prop :=
  forall (t : table) (id : N) (r : row_of t),
    get_tbl t db !! id = Some r -> fks_ok t db r = true.

(** No two rows of a table collide on its UNIQUE constraint. *)
Definition uniqueness (db : DB) : Prop :=
  forall (t : table) (id1 id2 : N) (r1 r2 : row_of t),
    get_tbl t db !! id1 = Some r1 ->
    get_tbl t db !! id2 = Some r2 ->
    same_unique_key t r1 r2 = true ->
    id1 = id2.

(** A bylaw or a bylaw version cites the source document [doc]. *)
Definition cited (db : DB) (doc : N) : Prop :=
  (exists b row, bylaws db !! b = Some row /\ Bylaw.source_document_id row = Some doc)
  \/ (exists v row, bylaw_versions db !! v = Some row
                    /\ BylawVersion.source_document_id row = Some doc).

(** Two databases hold the same rows; the audit log is left aside. *)
Definition same_rows (a b : DB) : Prop :=
  forall t : table, get_tbl t a = get_tbl t b.

(** The bylaw version [v] belongs to a bylaw of the municipality [site]. *)
Definition version_of_site (db : DB) (site : N) (v : BylawVersion.row) : Prop :=
  exists b brow, BylawVersion.bylaw_id v = Some b /\ bylaws db !! b = Some brow
                 /\ Bylaw.municipality_id brow = Some site.

(** The extracted requirements [a] belong to a version of a bylaw of the
    municipality [site]. *)
Definition requirement_of_site (db : DB) (site : N) (a : AduRequirement.row) : Prop :=
  exists v vrow, AduRequirement.bylaw_version_id a = Some v
                 /\ bylaw_versions db !! v = Some vrow /\ version_of_site db site vrow.

(** A scraped page of the first municipality. *)
Definition scraped_page : SourceDocument.row :=
  {| SourceDocument.municipality_id := Some 1%N;
     SourceDocument.document_url := "https://www.toronto.ca/bylaws/adu";
     SourceDocument.document_type := "webpage";
     SourceDocument.scraped_at := 1650000000;
     SourceDocument.scraper_version := "1.0.0";
     SourceDocument.scraper_ip_address := None;
     SourceDocument.raw_html_path := Some "toronto/adu.html";
     SourceDocument.pdf_path := None;
     SourceDocument.screenshot_path := None;
     SourceDocument.http_headers := None;
     SourceDocument.response_code := Some 200;
     SourceDocument.content_hash := Some "9f86d081884c7d65";
     SourceDocument.file_size_bytes := Some 2048;
     SourceDocument.preservation_status := Some "completed";
     SourceDocument.preservation_error := None;
     SourceDocument.created_at := 1650000000 |}.

(** A version of bylaw 2 extracted from the scraped page 5. *)
Definition cited_version : BylawVersion.row :=
  {| BylawVersion.bylaw_id := Some 2%N; BylawVersion.version_number := 1;
     BylawVersion.content := "{}"; BylawVersion.extracted_requirements := None;
     BylawVersion.extracted_at := 1650000000; BylawVersion.extraction_method := Some "automated";
     BylawVersion.confidence_scores := None; BylawVersion.source_document_id := Some 5%N;
     BylawVersion.source_location := None; BylawVersion.previous_version_id := None;
     BylawVersion.change_type := None; BylawVersion.change_summary := None;
     BylawVersion.change_reason := None; BylawVersion.created_by := None;
     BylawVersion.created_at := 1650000000; BylawVersion.approved_by := None;
     BylawVersion.approved_at := None; BylawVersion.is_current := true |}.

(** A municipality with a scraped page, a bylaw and a version of it that
    cites the page. *)
Definition cited_db : DB :=
  run full_schema SchemaExamples.admin_session
    [ Insert t_municipalities 1%N SchemaExamples.toronto;
      Insert t_source_documents 5%N scraped_page;
      Insert t_bylaws 2%N SchemaExamples.adu_bylaw;
      Insert t_bylaw_versions 3%N cited_version ]
    empty_db.

(** A municipality with a scraped page that nothing cites, a bylaw and
    a version of it. *)
Definition uncited_db : DB :=
  run supabase_setup SchemaExamples.admin_session
    [ Insert t_municipalities 1%N SchemaExamples.toronto;
      Insert t_source_documents 5%N scraped_page;
      Insert t_bylaws 2%N SchemaExamples.adu_bylaw;
      Insert t_bylaw_versions 3%N SchemaExamples.first_version ]
    empty_db.

End SchemaInvariants.



Module VersionHistoryClaims.
Import JsArray BylawVersionHistory BylawVersionHistoryView.

(** The sum of a list of numbers. *)
Definition total (l : list Z) : Z := fold_right Z.add 0 l.

(** All the signed numbers that the history shows, top to bottom. *)
Definition shownDiffs (versions : list BylawVersion) : list Z :=
  concat (map (shownDiff versions) versions).

End VersionHistoryClaims.

Module ADUSummaryClaims.
Import ADURequirements ADUSummary.

(** What the six category views show together, in the order of the
    selector. *)
Definition byCategory (requirements : list ADURequirement) (minConfidence : Q)
  : list ADURequirement :=
  concat (map (fun c => filteredRequirements requirements (Some c) minConfidence) categories).

(** The classes of a green confidence badge. *)
Definition green_badge : string := "text-green-600 bg-green-100".

(** The requirements of the list whose badge is green. *)
Definition green_badges (requirements : list ADURequirement) : list ADURequirement :=
  List.filter (fun r => String.eqb (getConfidenceColor (confidence r)) green_badge)
              requirements.

End ADUSummaryClaims.

Module AuthExamples.
Import Supabase AuthService.


Definition a_user : JsValue := JsObject [("id", JsString "u1"); ("email", JsString "admin@example.com")].
Definition a_session : JsValue := JsObject [("access_token", JsString "t")].

(** A successful sign-in. *)
Definition signed_in : Awaited :=
  Resolved (JsObject [("data", JsObject [("user", a_user); ("session", a_session)]);
                      ("error", JsNull)]).

Definition status_400 : SafeInteger := {| integer := 400; is_safe := eq_refl |}.

(** Wrong credentials, as the Supabase client reports them. *)
Definition invalid_credentials : JsValue :=
  JsObject [("name", JsString "AuthApiError"); ("status", JsNumber status_400);
            ("message", JsString "Invalid login credentials")].

Definition refused : Awaited :=
  Resolved (JsObject [("data", JsObject [("user", JsNull); ("session", JsNull)]);
                      ("error", invalid_credentials)]).


End AuthExamples.

Module RouteExamples.

(** An id as the database generates it. *)
Definition toronto_id : string := "3f2c8a1e-5b7d-4c6f-9a0b-1d2e3f4a5b6c".

(** A bylaw served over plain HTTP. *)
Definition http_bylaw : ADURequirements.Bylaw :=
  {| ADURequirements.bylaw_id := "b2";
     ADURequirements.municipality_id := "m1";
     ADURequirements.title := "Zoning Bylaw";
     ADURequirements.number := "2019-114";
     ADURequirements.content := "Zoning.";
     ADURequirements.status := "active";
     ADURequirements.bylaw_category := "zoning";
     ADURequirements.tags := [];
     ADURequirements.source_url := "http://city.example/bylaws/2019-114";
     ADURequirements.source_type := "html";
     ADURequirements.hash := "1" |}.

End RouteExamples.

Module PolicyClaims.
Import RowLevelSecurity.

(** The writes that would change a record that is meant to stay as it
    was stored. *)
Definition guarded : list (string * Command) :=
  [ ("bylaw_versions", cmd_update); ("bylaw_versions", cmd_delete);
    ("source_documents", cmd_update); ("source_documents", cmd_delete);
    ("audit_log", cmd_insert); ("audit_log", cmd_update); ("audit_log", cmd_delete) ].

(** The policy that a [CREATE POLICY] statement creates. *)
Definition created (stmt : PolicyStmt) : list Policy :=
  match stmt with
  | CreatePolicy p => [p]
  | DropPolicyIfExists _ _ => []
  end.

(** The statement does not drop the policy [p]. *)
Definition keeps (p : Policy) (stmt : PolicyStmt) : bool :=
  match stmt with
  | DropPolicyIfExists name table => negb (names name table p)
  | CreatePolicy _ => true
  end.

(** The policies in force after the setup script, after the role based
    script on top of it, and after simple_auth_policies.sql, which drops
    those of the setup script. *)
Definition setup_store : list Policy := concat (map created setup_policies).

Definition role_based_store : list Policy :=
  setup_store ++ concat (map created role_based_policies).

Definition simple_store : list Policy := concat (map created simple_auth_policies).

(** A signed-in user of the web application. *)
Definition signed_in_user : Request :=
  {| auth_role := Some "authenticated"; user_role := Some "authenticated"; apikey := Some "k" |}.

(** An editor, as the role based policies see one. *)
Definition editor : Request :=
  {| auth_role := Some "editor"; user_role := Some "editor"; apikey := Some "k" |}.

End PolicyClaims.

(** * Theorems *)

Section VersionHistoryFacts.
Import JsArray BylawVersionHistory.

Lemma len_nonneg (s : string) : 0 <= len s.
Proof. unfold len. lia. Qed.

Lemma findIndex_from_miss {A : Type} (p : A -> bool) (l : list A) (x : A) (i : Z) :
  Forall (fun y => p y = false) l -> p x = true ->
  findIndex_from p (l ++ [x]) i = i + Z.of_nat (length l).
Proof.
  intros Hl Hx. revert i.
  induction Hl as [| y l Hy _ IH]; intros i; simpl.
  - rewrite Hx. lia.
  - rewrite Hy, IH. lia.
Qed.

Lemma at_index_past_end {A : Type} (l : list A) (i : Z) :
  Z.of_nat (length l) <= i -> at_index l i = None.
Proof.
  intros Hi. unfold at_index.
  destruct (i <? 0) eqn:E; [reflexivity |].
  apply lookup_ge_None_2. lia.
Qed.

(** The last entry of a list whose ids are distinct has no previous
    version. *)
Lemma previousVersion_last (l : list BylawVersion) (v : BylawVersion) :
  Forall (fun w => id w <> id v) l -> previousVersion (l ++ [v]) v = None.
Proof.
  intros Hl. unfold previousVersion, currentIndex, findIndex.
  rewrite findIndex_from_miss.
  - apply at_index_past_end. rewrite length_app. simpl. lia.
  - eapply Forall_impl; [exact Hl |]. simpl. intros w Hw.
    apply String.eqb_neq. exact Hw.
  - apply String.eqb_refl.
Qed.

(** C9. For every version of the loaded list [calculateContentDiff]
    returns two numbers, [added] and [removed], that are not negative and
    of which at most one is positive; when the version has no previous
    version in the list, [added] is the full length of its content and
    [removed] is 0. *)
Theorem calculateContentDiff_shape (versions : list BylawVersion) (version : BylawVersion) :
  In version versions ->
  let d := calculateContentDiff versions version in
  0 <= added d /\ 0 <= removed d
  /\ ~ (0 < added d /\ 0 < removed d)
  /\ (previousVersion versions version = None ->
      added d = len (content version) /\ removed d = 0).
Proof.
  intros _. unfold calculateContentDiff.
  pose proof (len_nonneg (content version)) as Hc.
  destruct (previousVersion versions version) as [previous |]; simpl.
  - pose proof (len_nonneg (content previous)) as Hp.
    split; [lia |]. split; [lia |]. split; [lia |].
    intros Hnone. discriminate Hnone.
  - split; [lia |]. split; [lia |]. split; [lia |].
    intros _. split; reflexivity.
Qed.

Lemma calculateContentDiff_shape_witness :
  In VersionExamples.version_1 VersionExamples.loaded_versions
  /\ previousVersion VersionExamples.loaded_versions VersionExamples.version_1 = None
  /\ added (calculateContentDiff VersionExamples.loaded_versions VersionExamples.version_1) = 21
  /\ removed (calculateContentDiff VersionExamples.loaded_versions VersionExamples.version_1) = 0.
Proof.
  assert (Hin : In VersionExamples.version_1 VersionExamples.loaded_versions) by (simpl; auto).
  assert (Hlast : previousVersion VersionExamples.loaded_versions VersionExamples.version_1 = None)
    by reflexivity.
  split; [exact Hin |]. split; [exact Hlast |].
  exact (proj2 (proj2 (proj2
           (calculateContentDiff_shape VersionExamples.loaded_versions VersionExamples.version_1 Hin)))
           Hlast).
Defined.

End VersionHistoryFacts.

Section SupabaseFacts.
Import Supabase SupabaseClaims.

Lemma strict_eq_string_spec (v : JsValue) (s : string) :
  strict_eq_string v s = true <-> v = JsString s.
Proof.
  destruct v; simpl; try (split; [discriminate | discriminate]).
  rewrite String.eqb_eq. split; [intros -> | intros [= ->]]; reflexivity.
Qed.

Lemma get_defined (error : JsValue) (key : string) :
  error <> JsNull -> error <> JsUndefined -> exists v, get error key = Some v.
Proof.
  intros Hn Hu. destruct error; simpl; try (eexists; reflexivity); congruence.
Qed.

Lemma get_none (error : JsValue) (key : string) :
  get error key = None <-> error = JsNull \/ error = JsUndefined.
Proof.
  destruct error; simpl; split; intros H;
    try discriminate; try reflexivity; auto;
    destruct H as [H | H]; discriminate H.
Qed.

(** C10, as the specification words it, fails on the [Error] that
    [handleApiError] throws for a PGRST301 response when it is handed to
    [handleApiError] again: the message is ['No data found'] although the
    input has no [code]. *)
Lemma handleApiError_not_exactly_when : ~ throws_as_stated SupabaseExamples.rethrown_error.
Proof.
  intros (msg & Hthrow & [H301 _] & _).
  vm_compute in Hthrow. injection Hthrow as <-.
  specialize (H301 eq_refl). vm_compute in H301. discriminate H301.
Qed.

(** C10, amended. [handleApiError] never returns normally.  On [null] and
    [undefined] the property read throws a [TypeError].  On every other
    input it throws an [Error] whose message is ['No data found'] when the
    code is ['PGRST301'] and ['Invalid query parameters'] when the code is
    ['PGRST116'].  Otherwise, when the input's message is truthy, it
    throws an [Error] whose message is that message as [new Error]
    converts it to a string, or the [TypeError] of the conversion when
    the message has none; and it throws the [Error] ['An unexpected error
    occurred'] when the message is missing or falsy. *)
Theorem handleApiError_throws (error : JsValue) :
  (forall v, handleApiError error <> Returns v)
  /\ (error = JsNull \/ error = JsUndefined -> handleApiError error = ThrowsTypeError)
  /\ (error <> JsNull -> error <> JsUndefined ->
      (code_is error "PGRST301" -> handleApiError error = ThrowsError "No data found")
      /\ (code_is error "PGRST116" ->
          handleApiError error = ThrowsError "Invalid query parameters")
      /\ (~ code_is error "PGRST301" -> ~ code_is error "PGRST116" ->
          exists m, get error "message" = Some m
                    /\ (truthy m = true ->
                        forall text, to_string m = Some text ->
                                     handleApiError error = ThrowsError text)
                    /\ (truthy m = true -> to_string m = None ->
                        handleApiError error = ThrowsTypeError)
                    /\ (truthy m = false ->
                        handleApiError error = ThrowsError "An unexpected error occurred"))).
Proof.
  split; [| split].
  - intros v. unfold handleApiError.
    destruct (get error "code") as [code |]; [| discriminate].
    destruct (strict_eq_string code "PGRST301"); [discriminate |].
    destruct (strict_eq_string code "PGRST116"); [discriminate |].
    destruct (get error "message") as [m |]; [| discriminate].
    destruct (truthy m); [| discriminate].
    destruct (to_string m); discriminate.
  - intros H. apply (get_none error "code") in H.
    unfold handleApiError. rewrite H. reflexivity.
  - intros Hn Hu.
    destruct (get_defined error "code" Hn Hu) as [code Hcode].
    destruct (get_defined error "message" Hn Hu) as [m Hm].
    unfold handleApiError, code_is. rewrite Hcode, Hm.
    split; [| split].
    + intros [= ->]. reflexivity.
    + intros [= ->]. reflexivity.
    + intros H301 H116.
      destruct (strict_eq_string code "PGRST301") eqn:E301.
      { apply strict_eq_string_spec in E301. subst code. contradiction H301. reflexivity. }
      destruct (strict_eq_string code "PGRST116") eqn:E116.
      { apply strict_eq_string_spec in E116. subst code. contradiction H116. reflexivity. }
      exists m. split; [reflexivity |].
      split; [| split]; intros ->.
      * intros text ->. reflexivity.
      * intros ->. reflexivity.
      * reflexivity.
Qed.

Lemma handleApiError_throws_witness :
  handleApiError SupabaseExamples.postgrest_error = ThrowsError "Invalid query parameters"
  /\ handleApiError SupabaseExamples.listed_error
     = ThrowsError "email is required,,password is required"
  /\ handleApiError SupabaseExamples.unprintable_error = ThrowsTypeError.
Proof.
  split; [| split].
  - destruct (handleApiError_throws SupabaseExamples.postgrest_error) as (_ & _ & H).
    destruct H as (_ & H116 & _); [discriminate | discriminate |].
    apply H116. reflexivity.
  - destruct (handleApiError_throws SupabaseExamples.listed_error) as (_ & _ & H).
    destruct H as (_ & _ & H); [discriminate | discriminate |].
    destruct H as (m & Hm & Htext & _); [discriminate | discriminate |].
    injection Hm as <-. apply Htext; reflexivity.
  - destruct (handleApiError_throws SupabaseExamples.unprintable_error) as (_ & _ & H).
    destruct H as (_ & _ & H); [discriminate | discriminate |].
    destruct H as (m & Hm & _ & Hnone & _); [discriminate | discriminate |].
    injection Hm as <-. apply Hnone; reflexivity.
Defined.

End SupabaseFacts.

Section ADUFacts.
Import ADURequirements ADUClaims.

Lemma filteredRequirements_In (reqs : list ADURequirement) (c : option Category)
    (minc : Q) (req : ADURequirement) :
  In req (filteredRequirements reqs c minc) ->
  In req reqs /\ (minc <= confidence req)%Q.
Proof.
  unfold filteredRequirements. rewrite filter_In.
  intros [Hin Hp]. split; [exact Hin |].
  apply andb_true_iff in Hp. destruct Hp as [_ Hp].
  apply Qle_bool_iff. exact Hp.
Qed.

Lemma mockRequirements_percent (req : ADURequirement) :
  In req mockRequirements -> (0 <= confidence req)%Q /\ (confidence req <= 100)%Q.
Proof.
  unfold mockRequirements. simpl.
  intros H. repeat (destruct H as [<- | H]; [split; vm_compute; discriminate |]).
  contradiction.
Qed.

(** C5, as stated, fails on the facts the component displays: the first
    of them has a confidence of 95. *)
Lemma displayed_confidence_above_one :
  ~ Forall confidence_in_unit_interval (displayed ADUExamples.floor_area_bylaw).
Proof.
  intros H. vm_compute in H. inversion H as [| req reqs [_ Hle] _]; subst.
  apply Hle. reflexivity.
Qed.

(** C5, amended. Every requirement fact that the extraction of the
    component produces, and so every fact it displays under any category
    filter and any confidence threshold, has a confidence between 0 and
    100: the component keeps confidences as percentages.  A displayed fact
    is at or above the chosen threshold. *)
Theorem displayed_confidence_is_a_percentage (bylaw : Bylaw) (c : option Category)
    (minc : Q) (req : ADURequirement) :
  In req (filteredRequirements (extractADURequirements bylaw) c minc) ->
  (0 <= confidence req)%Q /\ (confidence req <= 100)%Q /\ (minc <= confidence req)%Q.
Proof.
  intros H. apply filteredRequirements_In in H. destruct H as [Hin Hmin].
  destruct (mockRequirements_percent req Hin) as [H0 H100].
  split; [exact H0 |]. split; [exact H100 | exact Hmin].
Qed.

Lemma displayed_confidence_is_a_percentage_witness :
  In ADUExamples.zoning_fact (displayed ADUExamples.floor_area_bylaw)
  /\ (0 <= confidence ADUExamples.zoning_fact)%Q
  /\ (confidence ADUExamples.zoning_fact <= 100)%Q
  /\ (initialMinConfidence <= confidence ADUExamples.zoning_fact)%Q.
Proof.
  assert (Hin : In ADUExamples.zoning_fact (displayed ADUExamples.floor_area_bylaw))
    by (vm_compute; left; reflexivity).
  split; [exact Hin |].
  exact (displayed_confidence_is_a_percentage ADUExamples.floor_area_bylaw None
           initialMinConfidence ADUExamples.zoning_fact Hin).
Defined.

(** C6, as stated, fails on a bylaw whose text is the sentence itself:
    no extracted fact of category size has a value near 92.9. *)
Lemma scenario_E_not_normalized :
  ~ scenario_E ADUExamples.floor_area_sentence ADUExamples.floor_area_bylaw.
Proof.
  intros H. destruct (H eq_refl) as (req & Hin & Hcat & (v & Hv & Hnear) & _).
  simpl in Hin.
  repeat (destruct Hin as [<- | Hin];
          [try discriminate Hcat; vm_compute in Hv; injection Hv as <-;
           vm_compute in Hnear; discriminate Hnear |]).
  contradiction.
Qed.

(** C6, amended. The extraction of the component yields a fact of
    category size, [Maximum floor area], whose value is the text [1000] in
    the unit [sq ft]: it is left in the unit of the source and not
    converted.  Read as a number it is 1000, and 1000 square feet are
    92.9 square meters within 0.1.  Its source text is the fixed sentence
    of the component. *)
Theorem floor_area_fact (bylaw : Bylaw) :
  exists req : ADURequirement,
    In req (extractADURequirements bylaw)
    /\ category req = size
    /\ requirement req = "Maximum floor area"
    /\ value req = Some "1000"
    /\ unit req = Some "sq ft"
    /\ numeric_value req = Some (1000 # 1)
    /\ within (square_feet_to_square_meters (1000 # 1)) (929 # 10) (1 # 10) = true
    /\ source_text req
       = "The maximum floor area of an accessory dwelling unit shall not exceed 1,000 square feet...".
Proof.
  eexists. split.
  - unfold extractADURequirements, mockRequirements. right. left. reflexivity.
  - repeat split; reflexivity.
Qed.

End ADUFacts.

Section SchemaFacts.
Import Schema SchemaClaims.

Lemma municipalities_set_tbl (t : table) (m : gmap N (row_of t)) (db : DB) :
  t <> t_municipalities -> municipalities (set_tbl t m db) = municipalities db.
Proof. destruct t; simpl; congruence. Qed.

Lemma scraping_jobs_set_tbl (t : table) (m : gmap N (row_of t)) (db : DB) :
  t <> t_scraping_jobs -> scraping_jobs (set_tbl t m db) = scraping_jobs db.
Proof. destruct t; simpl; congruence. Qed.


Lemma ref_ok_Some {R : Type} (parent : gmap N R) (k : N) :
  ref_ok parent (Some k) = true -> is_Some (parent !! k).
Proof. simpl. destruct (parent !! k); [eauto | discriminate]. Qed.

Lemma refers_elem (dead : gset N) (k : N) : refers dead (Some k) = true <-> k ∈ dead.
Proof. simpl. apply bool_decide_eq_true. Qed.

Lemma elem_of_keys_where {R : Type} (p : R -> bool) (m : gmap N R) (k : N) :
  k ∈ keys_where p m <-> exists r, m !! k = Some r /\ p r = true.
Proof.
  unfold keys_where. rewrite elem_of_dom. unfold is_Some.
  split.
  - intros [r Hr]. apply map_lookup_filter_Some in Hr. exists r. exact Hr.
  - intros (r & Hr & Hp). exists r. apply map_lookup_filter_Some. split; assumption.
Qed.

Lemma lookup_remove {R : Type} (dead : gset N) (m : gmap N R) (k : N) (r : R) :
  remove dead m !! k = Some r <-> m !! k = Some r /\ k ∉ dead.
Proof. unfold remove. apply map_lookup_filter_Some. Qed.

Lemma config_set_null_municipality (dead : gset N) (j : ScrapingJob.row) :
  ScrapingJob.municipality_id (config_set_null dead j) = ScrapingJob.municipality_id j.
Proof. unfold config_set_null. destruct (refers _ _); reflexivity. Qed.

Lemma insert_keeps_sites script s t id r db db' site :
  insert_row script s t id r db = Done db' ->
  is_Some (municipalities db !! site) -> is_Some (municipalities db' !! site).
Proof.
  unfold insert_row.
  destruct (get_tbl t db !! id) eqn:Hid; [discriminate |].
  destruct (negb (unique_ok t db id r)); [discriminate |].
  destruct (negb (fks_ok t _ r)); [discriminate |].
  intros [= <-] Hs. simpl.
  destruct t; simpl in *; try exact Hs.
  destruct (decide (id = site)) as [-> | Hne].
  - rewrite lookup_insert_eq. eauto.
  - rewrite lookup_insert_ne by exact Hne. exact Hs.
Qed.

Lemma update_keeps_sites script s t id r db db' site :
  update_row script s t id r db = Done db' ->
  is_Some (municipalities db !! site) -> is_Some (municipalities db' !! site).
Proof.
  unfold update_row.
  destruct (get_tbl t db !! id) eqn:Hid; [| intros [= <-]; auto].
  destruct (negb (unique_ok t db id _)); [discriminate |].
  destruct (negb (fks_ok t _ _)); [discriminate |].
  intros [= <-] Hs. simpl.
  destruct t; simpl in *; try exact Hs.
  destruct (decide (id = site)) as [-> | Hne].
  - rewrite lookup_insert_eq. eauto.
  - rewrite lookup_insert_ne by exact Hne. exact Hs.
Qed.

Lemma delete_keeps_other_sites script s t id db db' site :
  delete_row script s t id db = Done db' ->
  (t = t_municipalities -> id <> site) ->
  is_Some (municipalities db !! site) -> is_Some (municipalities db' !! site).
Proof.
  unfold delete_row.
  destruct (get_tbl t db !! id) eqn:Hid; [| intros [= <-]; auto].
  destruct (no_action_ok _ _ _); [| discriminate].
  intros [= <-] Hne [m Hm]. simpl.
  exists m. apply lookup_remove. split; [exact Hm |].
  destruct t; simpl; try set_solver.
Qed.

Lemma insert_keeps_jobs_reference_sites script s t id r db db' :
  insert_row script s t id r db = Done db' ->
  jobs_reference_sites db -> jobs_reference_sites db'.
Proof.
  intros Hexec Hinv job row site Hjob Hsite.
  pose proof (insert_keeps_sites script s t id r db db' site Hexec) as Hkeep.
  revert Hexec Hjob. unfold insert_row.
  destruct (get_tbl t db !! id) eqn:Hid; [discriminate |].
  destruct (negb (unique_ok t db id r)); [discriminate |].
  destruct (fks_ok t _ r) eqn:Hfk; [| discriminate].
  intros [= <-]. simpl.
  destruct t; simpl in *; intros Hjob;
    try (apply Hkeep; eapply Hinv; eassumption).
  destruct (decide (id = job)) as [-> | Hne].
  - rewrite lookup_insert_eq in Hjob. injection Hjob as ->.
    apply andb_true_iff in Hfk. destruct Hfk as [Hfk _].
    rewrite Hsite in Hfk. apply ref_ok_Some in Hfk. exact Hfk.
  - rewrite lookup_insert_ne in Hjob by exact Hne.
    eapply Hinv; eassumption.
Qed.

Lemma update_keeps_jobs_reference_sites script s t id r db db' :
  update_row script s t id r db = Done db' ->
  jobs_reference_sites db -> jobs_reference_sites db'.
Proof.
  intros Hexec Hinv job row site Hjob Hsite.
  pose proof (update_keeps_sites script s t id r db db' site Hexec) as Hkeep.
  revert Hexec Hjob. unfold update_row.
  destruct (get_tbl t db !! id) eqn:Hid;
    [| intros [= <-] Hjob; eapply Hinv; eassumption].
  destruct (negb (unique_ok t db id _)); [discriminate |].
  destruct (fks_ok t _ _) eqn:Hfk; [| discriminate].
  intros [= <-]. simpl.
  destruct t; simpl in *; intros Hjob;
    try (apply Hkeep; eapply Hinv; eassumption).
  destruct (decide (id = job)) as [-> | Hne].
  - rewrite lookup_insert_eq in Hjob. injection Hjob as <-.
    apply andb_true_iff in Hfk. destruct Hfk as [Hfk _].
    rewrite Hsite in Hfk. apply ref_ok_Some in Hfk. exact Hfk.
  - rewrite lookup_insert_ne in Hjob by exact Hne.
    eapply Hinv; eassumption.
Qed.

(** The cascade: a job that outlives a DELETE names a site that outlives
    it too. *)
Lemma delete_keeps_jobs_reference_sites script s t id db db' :
  delete_row script s t id db = Done db' ->
  jobs_reference_sites db -> jobs_reference_sites db'.
Proof.
  unfold delete_row.
  destruct (get_tbl t db !! id) eqn:Hid; [| intros [= <-]; auto].
  destruct (no_action_ok _ _ _); [| discriminate].
  intros [= <-] Hinv job row site. simpl.
  rewrite lookup_fmap. intros Hjob Hsite.
  destruct (remove _ (scraping_jobs db) !! job) as [row0 |] eqn:Hrow0;
    [| discriminate Hjob].
  simpl in Hjob. injection Hjob as <-.
  rewrite config_set_null_municipality in Hsite.
  apply lookup_remove in Hrow0. destruct Hrow0 as [Hrow0 Halive].
  destruct (Hinv job row0 site Hrow0 Hsite) as [m Hm].
  exists m. apply lookup_remove. split; [exact Hm |].
  intros Hdead. apply Halive. apply elem_of_union_r.
  apply elem_of_keys_where. exists row0. split; [exact Hrow0 |].
  rewrite Hsite. apply refers_elem. exact Hdead.
Qed.

Lemma after_keeps_jobs_reference_sites script s stmt db :
  jobs_reference_sites db -> jobs_reference_sites (after script s stmt db).
Proof.
  intros Hinv. unfold after.
  destruct (exec script s stmt db) as [db' | e] eqn:Hexec; [| exact Hinv].
  destruct stmt as [t id r | t id r | t id]; simpl in Hexec.
  - eapply insert_keeps_jobs_reference_sites; eassumption.
  - eapply update_keeps_jobs_reference_sites; eassumption.
  - eapply delete_keeps_jobs_reference_sites; eassumption.
Qed.

(** C8, as stated, fails: the DELETE that [deleteMunicipality] asks for
    removes the record of a site that has a finished job. *)
Lemma site_hard_deleted :
  ~ site_persists full_schema SchemaExamples.admin_session (Delete t_municipalities 1%N)
      SchemaExamples.one_site_db 1%N.
Proof.
  unfold site_persists. intros H.
  assert (Hbefore : is_Some (municipalities SchemaExamples.one_site_db !! 1%N))
    by (vm_compute; eauto).
  specialize (H Hbefore). vm_compute in H. destruct H as [m Hm]. discriminate Hm.
Qed.

(** C8, amended. A site can be hard-deleted: [deleteMunicipality] sends
    an HTTP DELETE for it, and a DELETE on [municipalities] removes the
    row.  No other statement removes a site, and the jobs of a deleted
    site are deleted with it (ON DELETE CASCADE), so that, after any
    statement, every job that names a site names one whose record is
    present: no job dangles. *)
Theorem sites_deleted_with_their_jobs (script : SetupScript) (s : Session) (stmt : Stmt)
    (db : DB) :
  (forall id : string,
      MunicipalityService.method (MunicipalityService.deleteMunicipality id)
      = MunicipalityService.DELETE)
  /\ (forall site : N, stmt <> Delete t_municipalities site ->
                       site_persists script s stmt db site)
  /\ (forall (site : N) (db' : DB),
         exec script s (Delete t_municipalities site) db = Done db' ->
         municipalities db' !! site = None)
  /\ (jobs_reference_sites db -> jobs_reference_sites (after script s stmt db)).
Proof.
  split; [reflexivity |]. split; [| split].
  - intros site Hstmt Hsite. unfold after.
    destruct (exec script s stmt db) as [db' | e] eqn:Hexec; [| exact Hsite].
    destruct stmt as [t id r | t id r | t id]; simpl in Hexec.
    + eapply insert_keeps_sites; eassumption.
    + eapply update_keeps_sites; eassumption.
    + eapply delete_keeps_other_sites; [eassumption | | exact Hsite].
      intros -> ->. apply Hstmt. reflexivity.
  - intros site db'. simpl. unfold delete_row. simpl.
    destruct (municipalities db !! site) as [m |] eqn:Hm; [| intros [= <-]; exact Hm].
    destruct (no_action_ok _ _ _); [| discriminate].
    intros [= <-]. simpl.
    destruct (remove _ (municipalities db) !! site) as [m' |] eqn:E; [| reflexivity].
    apply lookup_remove in E. destruct E as [_ E]. exfalso. apply E. set_solver.
  - apply after_keeps_jobs_reference_sites.
Qed.

Lemma jobs_reference_sites_empty : jobs_reference_sites empty_db.
Proof. intros job row site H. simpl in H. rewrite lookup_empty in H. discriminate H. Qed.

Lemma sites_deleted_with_their_jobs_witness :
  municipalities
    (after full_schema SchemaExamples.admin_session (Delete t_municipalities 1%N)
       SchemaExamples.one_site_db) !! 1%N = None
  /\ jobs_reference_sites
       (after full_schema SchemaExamples.admin_session (Delete t_municipalities 1%N)
          SchemaExamples.one_site_db).
Proof.
  split.
  - destruct (sites_deleted_with_their_jobs full_schema SchemaExamples.admin_session
                (Delete t_municipalities 1%N) SchemaExamples.one_site_db) as (_ & _ & Hgone & _).
    apply (Hgone 1%N). vm_compute. reflexivity.
  - apply sites_deleted_with_their_jobs.
    unfold SchemaExamples.one_site_db, run. simpl.
    repeat apply sites_deleted_with_their_jobs.
    exact jobs_reference_sites_empty.
Defined.

(** *** Audit records *)

(** Of every relation that carries inline [INDEX] clauses in the full
    schema script, none exists after it; [audit_log] is one of them. *)
Lemma audit_log_not_created : exists_after full_schema audit_log_table = false.
Proof. reflexivity. Qed.





Lemma keys_where_refers_empty {R : Type} (f : R -> option N) (m : gmap N R) :
  keys_where (fun r => refers ∅ (f r)) m = ∅.
Proof.
  apply elem_of_equiv_empty_L. intros k Hk.
  apply elem_of_keys_where in Hk. destruct Hk as (r & _ & Hr).
  destruct (f r) as [k' |]; [| discriminate Hr].
  apply refers_elem in Hr. set_solver.
Qed.










End SchemaFacts.

Section PipelineFacts.
Import Pipeline PipelineClaims.

Variable canonicalize : string -> string.
Variable sha256 : string -> string.
Variable matchers : string -> list RequirementFact.

(** *** What each stage leaves alone *)

Lemma write_artifacts_frame site domain fetched failures arts st :
  let st' := snd (write_artifacts site domain fetched failures arts st) in
  sites st' = sites st /\ jobs st' = jobs st /\ source_docs st' = source_docs st
  /\ documents st' = documents st /\ facts st' = facts st /\ audit st' = audit st.
Proof.
  revert st. induction arts as [| [name bytes] rest IH]; intros st; simpl.
  - repeat split.
  - unfold put. destruct (existsb (String.eqb name) failures).
    + specialize (IH st). simpl in IH.
      destruct (write_artifacts site domain fetched failures rest st) as [oks st2].
      exact IH.
    + specialize (IH (set_storage
                        (<[path_of site domain fetched name := bytes]> (storage st)) st)).
      simpl in IH.
      destruct (write_artifacts site domain fetched failures rest _) as [oks st2].
      exact IH.
Qed.

Lemma write_artifacts_keeps site domain fetched failures arts st p :
  is_Some (storage st !! p) ->
  is_Some (storage (snd (write_artifacts site domain fetched failures arts st)) !! p).
Proof.
  revert st. induction arts as [| [name bytes] rest IH]; intros st Hp; simpl.
  - exact Hp.
  - unfold put. destruct (existsb (String.eqb name) failures).
    + specialize (IH st Hp).
      destruct (write_artifacts site domain fetched failures rest st) as [oks st2].
      exact IH.
    + match goal with
      | |- context [write_artifacts _ _ _ _ rest ?s] => specialize (IH s)
      end.
      destruct (write_artifacts site domain fetched failures rest _) as [oks st2].
      apply IH. simpl.
      destruct (decide (path_of site domain fetched name = p)) as [-> | Hne].
      * rewrite lookup_insert_eq. eauto.
      * rewrite lookup_insert_ne by exact Hne. exact Hp.
Qed.

Lemma write_artifacts_written site domain fetched failures arts st :
  fst (write_artifacts site domain fetched failures arts st) = accepted failures arts.
Proof.
  revert st. induction arts as [| [name bytes] rest IH]; intros st; simpl.
  - reflexivity.
  - unfold put. destruct (existsb (String.eqb name) failures); simpl.
    + specialize (IH st).
      destruct (write_artifacts site domain fetched failures rest st) as [oks st2].
      reflexivity.
    + match goal with
      | |- context [write_artifacts _ _ _ _ rest ?s] => specialize (IH s)
      end.
      destruct (write_artifacts site domain fetched failures rest _) as [oks st2].
      exact IH.
Qed.

Lemma write_artifacts_readable site domain fetched failures arts st :
  accepted failures arts = true ->
  readable_back site domain fetched arts
    (snd (write_artifacts site domain fetched failures arts st)) = true.
Proof.
  revert st. induction arts as [| [name bytes] rest IH]; intros st Hacc; simpl in *.
  - reflexivity.
  - apply andb_true_iff in Hacc. destruct Hacc as [Hname Hrest].
    apply negb_true_iff in Hname. unfold put. rewrite Hname.
    pose proof (write_artifacts_keeps site domain fetched failures rest
                  (set_storage (<[path_of site domain fetched name := bytes]> (storage st)) st)
                  (path_of site domain fetched name)) as Hkeep.
    specialize (IH (set_storage
                      (<[path_of site domain fetched name := bytes]> (storage st)) st) Hrest).
    destruct (write_artifacts site domain fetched failures rest _) as [oks st2].
    simpl in *. unfold get.
    destruct Hkeep as [b Hb]; [rewrite lookup_insert_eq; eauto |].
    rewrite Hb. simpl. exact IH.
Qed.

Lemma preserve_spec site sourceUrl domain fetched version bundle failures st :
  let r := preserve canonicalize sha256 site sourceUrl domain fetched version bundle
             failures st in
  fst r = length (source_docs st)
  /\ source_docs (snd r)
     = source_docs st
       ++ [recorded canonicalize sha256 site sourceUrl domain fetched version bundle failures]
  /\ sites (snd r) = sites st /\ jobs (snd r) = jobs st
  /\ documents (snd r) = documents st /\ facts (snd r) = facts st.
Proof.
  unfold preserve.
  match goal with
  | |- context [write_artifacts ?a ?b ?c ?d ?e ?s] =>
      pose proof (write_artifacts_frame a b c d e s) as Hframe;
      pose proof (write_artifacts_written a b c d e s) as Hwritten;
      pose proof (write_artifacts_readable a b c d e s) as Hreadable;
      destruct (write_artifacts a b c d e s) as [written st2]
  end.
  cbn [fst snd] in *. cbv zeta in Hframe.
  destruct Hframe as (Hs & Hj & Hsd & Hd & Hf & _).
  split; [reflexivity |].
  cbn [sites jobs documents facts source_docs emit set_source_docs].
  rewrite Hs, Hj, Hd, Hf, Hsd. cbn [sites jobs documents facts source_docs set_source_docs].
  split; [| repeat split].
  replace (length (source_docs st)) with (length (source_docs st) + 0)%nat by lia.
  rewrite alter_app_r. cbn [alter list_alter]. unfold recorded. do 3 f_equal.
  rewrite Hwritten. destruct (accepted failures (artifacts bundle)) eqn:Hacc.
  - rewrite Hreadable by reflexivity. reflexivity.
  - reflexivity.
Qed.

(** *** The currency flip *)

Lemma max_seq (n start : nat) :
  fold_right Nat.max 0%nat (seq start (S n)) = (start + n)%nat.
Proof.
  revert start. induction n as [| n IH]; intros start.
  - simpl. lia.
  - change (seq start (S (S n))) with (start :: seq (S start) (S n)).
    cbn [fold_right]. rewrite IH. lia.
Qed.

Lemma next_sequence_contiguous (vs : list DocumentVersion) :
  sequence <$> vs = seq 1 (length vs) -> next_sequence vs = S (length vs).
Proof.
  intros H. unfold next_sequence. rewrite H.
  destruct (length vs) as [| n]; [reflexivity |].
  rewrite max_seq. reflexivity.
Qed.

Lemma no_current_version (vs : list DocumentVersion) :
  current_version vs = None -> count_current vs = 0%nat.
Proof.
  unfold current_version, count_current.
  induction vs as [| v vs IH]; simpl; [reflexivity |].
  destruct (is_current v); [discriminate | exact IH].
Qed.

Lemma current_version_is_current (vs : list DocumentVersion) (p : DocumentVersion) :
  current_version vs = Some p -> is_current p = true.
Proof. intros H. apply find_some in H. apply H. Qed.

(** Clearing the flag of the version that [current_version] finds leaves
    no version current when exactly one was. *)
Lemma cleared_count (vs : list DocumentVersion) (p : DocumentVersion) :
  current_version vs = Some p ->
  count_current vs = 1%nat ->
  count_current
    ((fun v => if Nat.eqb (sequence v) (sequence p) then clear_current v else v) <$> vs)
  = 0%nat.
Proof.
  unfold current_version, count_current.
  induction vs as [| v vs IH]; simpl; [discriminate |].
  destruct (is_current v) eqn:Hv.
  - intros [= ->] Hone. simpl in Hone.
    rewrite Nat.eqb_refl. simpl.
    assert (Hrest : length (List.filter is_current vs) = 0%nat) by lia.
    clear Hone IH Hv. induction vs as [| w ws IHw]; simpl in *; [reflexivity |].
    destruct (is_current w) eqn:Hw; [simpl in Hrest; lia |].
    destruct (Nat.eqb (sequence w) (sequence p)); simpl; rewrite ?Hw; apply IHw; exact Hrest.
  - intros Hfind Hone.
    destruct (Nat.eqb (sequence v) (sequence p)); simpl; rewrite ?Hv; apply IH; assumption.
Qed.

Lemma cleared_sequences (vs : list DocumentVersion) (prior : option DocumentVersion) :
  sequence <$> ((fun v => match prior with
                          | Some p =>
                              if Nat.eqb (sequence v) (sequence p) then clear_current v else v
                          | None => v
                          end) <$> vs)
  = sequence <$> vs.
Proof.
  rewrite <- list_fmap_compose. apply list_fmap_ext. intros i v _. simpl.
  destruct prior as [p |]; [| reflexivity].
  destruct (Nat.eqb (sequence v) (sequence p)); reflexivity.
Qed.

Lemma find_append {A : Type} (p : A -> bool) (a b : list A) :
  List.find p (a ++ b) = match List.find p a with Some x => Some x | None => List.find p b end.
Proof.
  induction a as [| x a IH]; simpl; [reflexivity |].
  destruct (p x); [reflexivity | exact IH].
Qed.

Lemma count_current_app (a b : list DocumentVersion) :
  count_current (a ++ b) = (count_current a + count_current b)%nat.
Proof. unfold count_current. rewrite List.filter_app, length_app. reflexivity. Qed.

(** The heart of C1: a new version leaves exactly one version current and
    the sequence numbers contiguous, and it keeps the numbers already
    given. *)
Lemma applyCapture_versions_ok (vs : list DocumentVersion) (sd_id : nat)
    (sd : SourceDocument) (text : string) (now : Z) (v : DocumentVersion)
    (vs' : list DocumentVersion) :
  vs = [] \/ versions_ok vs ->
  applyCapture vs sd_id sd text now = NewVersion v vs' ->
  versions_ok vs'
  /\ sequence <$> vs' = (sequence <$> vs) ++ [S (length vs)]
  /\ current_version vs' = Some v
  /\ version_fingerprint v = fingerprint sd.
Proof.
  intros Hvs. unfold applyCapture.
  destruct (current_version vs) as [p |] eqn:Hprior.
  - destruct Hvs as [-> | [Hone Hseq]]; [discriminate Hprior |].
    destruct (String.eqb (version_fingerprint p) (fingerprint sd)); [discriminate |].
    intros [= <- <-]. unfold flip.
    pose proof (cleared_count vs p Hprior Hone) as Hzero.
    pose proof (cleared_sequences vs (Some p)) as Hsame. simpl in Hsame.
    split; [split |]; [| | split; [| split]].
    + rewrite count_current_app, Hzero. reflexivity.
    + rewrite fmap_app, Hsame, length_app, length_fmap. simpl.
      rewrite (next_sequence_contiguous vs Hseq), Hseq.
      rewrite Nat.add_1_r, seq_S. reflexivity.
    + rewrite fmap_app, Hsame. simpl.
      rewrite (next_sequence_contiguous vs Hseq). reflexivity.
    + unfold current_version. rewrite find_append.
      unfold count_current in Hzero.
      destruct (find is_current _) as [w |] eqn:Hw.
      * apply find_some in Hw. destruct Hw as [Hin Hcur].
        assert (In w (List.filter is_current
                        ((fun v => if Nat.eqb (sequence v) (sequence p)
                                   then clear_current v else v) <$> vs)))
          by (apply filter_In; split; assumption).
        destruct (List.filter is_current _); [contradiction | discriminate Hzero].
      * reflexivity.
    + reflexivity.
  - assert (Hempty : vs = []).
    { destruct Hvs as [-> | [Hone _]]; [reflexivity |].
      rewrite (no_current_version vs Hprior) in Hone. discriminate Hone. }
    subst vs. intros [= <- <-]. unfold flip. simpl.
    split; [split; reflexivity |]. repeat split.
Qed.

(** *** The stages on the registry *)

Lemma apply_capture_spec doc about sd_id text now st :
  let r := apply_capture doc about sd_id text now st in
  sites (snd r) = sites st /\ jobs (snd r) = jobs st
  /\ source_docs (snd r) = source_docs st /\ facts (snd r) = facts st
  /\ ((snd r = st /\ fst r = UnknownSourceDocument /\ source_docs st !! sd_id = None)
      \/ (exists sd : SourceDocument,
             source_docs st !! sd_id = Some sd
             /\ applyCapture (doc_versions st doc) sd_id sd text now = NoChange
             /\ snd r = st /\ fst r = Unchanged)
      \/ (exists (sd : SourceDocument) (v : DocumentVersion) (td' : TrackedDocument),
             source_docs st !! sd_id = Some sd
             /\ applyCapture (doc_versions st doc) sd_id sd text now
                = NewVersion v (versions td')
             /\ fst r = Versioned (sequence v)
             /\ documents (snd r) = <[doc := td']> (documents st))).
Proof.
  unfold apply_capture, doc_versions.
  destruct (source_docs st !! sd_id) as [sd |] eqn:Hsd.
  2: { cbn [fst snd]. do 4 (split; [reflexivity |]). left. repeat split. }
  destruct (documents st !! doc) as [td |] eqn:Htd.
  - destruct (applyCapture (versions td) sd_id sd text now) as [| v vs'] eqn:Happly;
      cbn [fst snd]; do 4 (split; [reflexivity |]); right.
    + left. exists sd. repeat split. exact Happly.
    + right. exists sd, v, {| info := info td; versions := vs' |}.
      split; [reflexivity |]. split; [exact Happly |]. split; reflexivity.
  - cbn [versions info].
    destruct (applyCapture [] sd_id sd text now) as [| v vs'] eqn:Happly;
      cbn [fst snd]; do 4 (split; [reflexivity |]); right.
    + left. exists sd. repeat split. exact Happly.
    + right. exists sd, v, {| info := about; versions := vs' |}.
      split; [reflexivity |]. split; [exact Happly |]. split; reflexivity.
Qed.

Lemma apply_capture_documents doc about sd_id text now st :
  documents_step st (snd (apply_capture doc about sd_id text now st)).
Proof.
  destruct (apply_capture_spec doc about sd_id text now st)
    as (_ & _ & _ & _ & [(-> & _) | [(sd & _ & _ & -> & _)
                                    | (sd & v & td' & _ & Happly & _ & Hdocs)]]).
  - left. reflexivity.
  - left. reflexivity.
  - right. exists doc, sd_id, sd, text, now, v, td'. split; assumption.
Qed.

Lemma documents_step_same (st st1 st2 st' : State) :
  documents st1 = documents st -> documents st' = documents st2 ->
  documents_step st1 st2 -> documents_step st st'.
Proof.
  intros H1 H2 [Hsame | (doc & sd_id & sd & text & now & v & td' & Happly & Hdocs)].
  - left. congruence.
  - right. exists doc, sd_id, sd, text, now, v, td'.
    unfold doc_versions in *. rewrite H1 in *. split; [exact Happly | congruence].
Qed.

Lemma extract_current_frame doc now st :
  let st' := extract_current matchers doc now st in
  sites st' = sites st /\ jobs st' = jobs st /\ source_docs st' = source_docs st
  /\ documents st' = documents st.
Proof.
  unfold extract_current. destruct (documents st !! doc) as [td |]; [| repeat split].
  destruct (current_version (versions td)); repeat split.
Qed.

Lemma applyCapture_unchanged (vs : list DocumentVersion) (sd_id : nat) (sd : SourceDocument)
    (text : string) (now : Z) (p : DocumentVersion) :
  current_version vs = Some p ->
  version_fingerprint p = fingerprint sd ->
  applyCapture vs sd_id sd text now = NoChange.
Proof.
  intros Hp Hfp. unfold applyCapture. rewrite Hp, Hfp, String.eqb_refl. reflexivity.
Qed.

Lemma applyCapture_NoChange_inv (vs : list DocumentVersion) (sd_id : nat)
    (sd : SourceDocument) (text : string) (now : Z) :
  applyCapture vs sd_id sd text now = NoChange ->
  exists p, current_version vs = Some p /\ version_fingerprint p = fingerprint sd.
Proof.
  unfold applyCapture. destruct (current_version vs) as [p |]; [| discriminate].
  destruct (String.eqb (version_fingerprint p) (fingerprint sd)) eqn:E; [| discriminate].
  intros _. exists p. split; [reflexivity |]. apply String.eqb_eq. exact E.
Qed.

Lemma doc_versions_ok (st : State) (doc : N) :
  all_versions_ok st -> doc_versions st doc = [] \/ versions_ok (doc_versions st doc).
Proof.
  intros Hok. unfold doc_versions.
  destruct (documents st !! doc) as [td |] eqn:Htd;
    [right; eapply Hok; exact Htd | left; reflexivity].
Qed.

(** Version Manager and Extractor on a source document that is on
    record. *)
Lemma version_and_extract_spec doc about sd_id text now st sd :
  source_docs st !! sd_id = Some sd ->
  let r := version_and_extract matchers doc about sd_id text now st in
  jobs (snd r) = jobs st /\ source_docs (snd r) = source_docs st
  /\ documents_step st (snd r)
  /\ ((exists p, current_version (doc_versions st doc) = Some p
                  /\ version_fingerprint p = fingerprint sd) ->
      fst r = DocSkippedUnchanged /\ documents (snd r) = documents st)
  /\ (all_versions_ok st ->
      (fst r = DocSkippedUnchanged \/ exists n, fst r = DocVersioned n)
      /\ exists p, current_version (doc_versions (snd r) doc) = Some p
                   /\ version_fingerprint p = fingerprint sd).
Proof.
  intros Hsd. unfold version_and_extract.
  pose proof (apply_capture_spec doc about sd_id text now st) as Ha. cbv zeta in Ha.
  pose proof (apply_capture_documents doc about sd_id text now st) as Hstep.
  destruct (apply_capture doc about sd_id text now st) as [o st2].
  cbn [fst snd] in Ha, Hstep.
  destruct Ha as (_ & Hjobs & Hsds & _ & [(_ & _ & Hnone) | [Hsame | Hnew]]).
  - rewrite Hsd in Hnone. discriminate Hnone.
  - destruct Hsame as (sd0 & Hsd0 & Happly & -> & ->).
    rewrite Hsd in Hsd0. injection Hsd0 as <-. cbn [fst snd].
    split; [reflexivity |]. split; [reflexivity |]. split; [left; reflexivity |].
    split; [intros _; split; reflexivity |].
    intros _. split; [left; reflexivity |].
    apply applyCapture_NoChange_inv in Happly. exact Happly.
  - destruct Hnew as (sd0 & v & td' & Hsd0 & Happly & -> & Hdocs).
    rewrite Hsd in Hsd0. injection Hsd0 as <-. cbn [fst snd].
    destruct (extract_current_frame doc now st2) as (_ & Hj & Hs & Hd).
    split; [congruence |]. split; [congruence |].
    split; [eapply documents_step_same; [reflexivity | exact Hd | exact Hstep] |].
    split.
    + intros (p & Hp & Hfp). exfalso.
      rewrite (applyCapture_unchanged _ _ _ _ _ p Hp Hfp) in Happly. discriminate Happly.
    + intros Hok. split; [right; eexists; reflexivity |].
      apply applyCapture_versions_ok in Happly; [| apply doc_versions_ok; exact Hok].
      destruct Happly as (_ & _ & Hcur & Hfp).
      exists v. unfold doc_versions. rewrite Hd, Hdocs, lookup_insert_eq.
      split; [exact Hcur | exact Hfp].
Qed.

Lemma version_and_extract_documents doc about sd_id text now st :
  documents_step st (snd (version_and_extract matchers doc about sd_id text now st)).
Proof.
  unfold version_and_extract.
  pose proof (apply_capture_documents doc about sd_id text now st) as Hstep.
  destruct (apply_capture doc about sd_id text now st) as [o st2].
  cbn [snd] in Hstep. destruct o; cbn [snd]; try exact Hstep.
  eapply documents_step_same; [reflexivity | | exact Hstep].
  apply extract_current_frame.
Qed.

Lemma version_and_extract_ran doc about sd_id text now st :
  fst (version_and_extract matchers doc about sd_id text now st) <> NotRun.
Proof.
  unfold version_and_extract.
  destruct (apply_capture doc about sd_id text now st) as [o st2].
  destruct o; discriminate.
Qed.

Lemma recorded_fingerprint site sourceUrl domain fetched version bundle failures :
  fingerprint (recorded canonicalize sha256 site sourceUrl domain fetched version bundle
                 failures)
  = sha256 (canonicalize (primary bundle)).
Proof. reflexivity. Qed.

Lemma is_preserved_recorded st1 l site sourceUrl domain fetched version bundle failures :
  source_docs st1
  = l ++ [recorded canonicalize sha256 site sourceUrl domain fetched version bundle failures] ->
  is_preserved (length l) st1 = accepted failures (artifacts bundle).
Proof.
  intros H. unfold is_preserved. rewrite H, lookup_app_r by lia.
  rewrite Nat.sub_diag. cbn [lookup list_lookup].
  unfold recorded, with_status. cbn [preservation_status].
  destruct (accepted failures (artifacts bundle)); reflexivity.
Qed.

(** One document in a job that runs. *)
Lemma process_document_run job doc about sourceUrl domain bundle now failures st j :
  jobs st !! job = Some j -> runnable j = true ->
  let r := process_document canonicalize sha256 matchers job doc about sourceUrl domain
             bundle now failures st in
  let fp := sha256 (canonicalize (primary bundle)) in
  jobs (snd r) = alter (count (fst r)) job (jobs st)
  /\ source_docs (snd r)
     = source_docs st
       ++ [recorded canonicalize sha256 (job_site j) sourceUrl domain now "1.0.0" bundle
             failures]
  /\ fst r <> NotRun
  /\ (accepted failures (artifacts bundle) = false ->
      fst r = DocFailed /\ documents (snd r) = documents st)
  /\ (accepted failures (artifacts bundle) = true ->
      ((exists p, current_version (doc_versions st doc) = Some p
                  /\ version_fingerprint p = fp) ->
       fst r = DocSkippedUnchanged /\ documents (snd r) = documents st)
      /\ (all_versions_ok st ->
          (fst r = DocSkippedUnchanged \/ exists n, fst r = DocVersioned n)
          /\ exists p, current_version (doc_versions (snd r) doc) = Some p
                       /\ version_fingerprint p = fp)).
Proof.
  intros Hj Hrun. unfold process_document. rewrite Hj, Hrun.
  pose proof (preserve_spec (job_site j) sourceUrl domain now "1.0.0" bundle failures st)
    as Hp. cbv zeta in Hp.
  destruct (preserve canonicalize sha256 (job_site j) sourceUrl domain now "1.0.0" bundle
              failures st) as [sd_id st1].
  cbn [fst snd] in Hp. destruct Hp as (-> & Hsd1 & _ & Hjobs1 & Hdocs1 & _).
  rewrite (is_preserved_recorded st1 _ _ _ _ _ _ _ _ Hsd1).
  unfold record_outcome.
  destruct (accepted failures (artifacts bundle)) eqn:Hacc.
  - assert (Hrec : source_docs st1 !! length (source_docs st)
                   = Some (recorded canonicalize sha256 (job_site j) sourceUrl domain now
                             "1.0.0" bundle failures)).
    { rewrite Hsd1, lookup_app_r by lia. rewrite Nat.sub_diag. reflexivity. }
    pose proof (version_and_extract_spec doc about _ (primary bundle) now st1 _ Hrec) as Hv.
    pose proof (version_and_extract_ran doc about (length (source_docs st)) (primary bundle)
                  now st1) as Hran.
    cbv zeta in Hv.
    destruct (version_and_extract matchers doc about (length (source_docs st))
                (primary bundle) now st1) as [o st2].
    cbn [fst snd] in *. rewrite recorded_fingerprint in Hv.
    cbn [jobs source_docs documents set_jobs].
    destruct Hv as (Hjobs2 & Hsd2 & _ & Hsame & Hnew).
    split; [rewrite Hjobs2, Hjobs1; reflexivity |].
    split; [rewrite Hsd2; exact Hsd1 |].
    assert (Hvs : doc_versions st1 doc = doc_versions st doc)
      by (unfold doc_versions; rewrite Hdocs1; reflexivity).
    assert (Hok1 : all_versions_ok st -> all_versions_ok st1)
      by (unfold all_versions_ok; rewrite Hdocs1; auto).
    rewrite Hvs in Hsame.
    split; [exact Hran |].
    split; [discriminate |]. intros _. split.
    + intros Hp. destruct (Hsame Hp) as [-> Hd]. split; [reflexivity | congruence].
    + intros Hok. destruct (Hnew (Hok1 Hok)) as [Ho Hcur]. split; [exact Ho | exact Hcur].
  - cbn [fst snd jobs source_docs documents set_jobs].
    split; [rewrite Hjobs1; reflexivity |].
    split; [exact Hsd1 |]. split; [discriminate |].
    split; [intros _; split; [reflexivity | exact Hdocs1] |].
    discriminate.
Qed.

(** *** Every operation *)

Lemma runJob_frame site kind now st :
  let st' := snd (runJob site kind now st) in
  sites st' = sites st /\ source_docs st' = source_docs st
  /\ documents st' = documents st.
Proof.
  unfold runJob.
  destruct (existsb (running_for site) (jobs st)); [repeat split |].
  destruct (sites st !! site) as [s |]; [| repeat split].
  destruct (negb (enabled s)); repeat split.
Qed.

Lemma finishJob_frame job how now st :
  let st' := finishJob job how now st in
  sites st' = sites st /\ source_docs st' = source_docs st
  /\ documents st' = documents st.
Proof.
  unfold finishJob.
  destruct (jobs st !! job) as [j |]; [| repeat split].
  destruct (job_status j); repeat split.
Qed.

Lemma process_document_documents job doc about sourceUrl domain bundle now failures st :
  documents_step st
    (snd (process_document canonicalize sha256 matchers job doc about sourceUrl domain
            bundle now failures st)).
Proof.
  unfold process_document.
  destruct (jobs st !! job) as [j |]; [| left; reflexivity].
  destruct (runnable j); [| left; reflexivity].
  pose proof (preserve_spec (job_site j) sourceUrl domain now "1.0.0" bundle failures st)
    as Hp. cbv zeta in Hp.
  destruct (preserve canonicalize sha256 (job_site j) sourceUrl domain now "1.0.0" bundle
              failures st) as [sd_id st1].
  cbn [fst snd] in Hp. destruct Hp as (_ & _ & _ & _ & Hdocs1 & _).
  unfold record_outcome. cbn [snd].
  destruct (is_preserved sd_id st1).
  - eapply documents_step_same;
      [exact Hdocs1 | | apply (version_and_extract_documents doc about sd_id
                                 (primary bundle) now st1)].
    reflexivity.
  - left. exact Hdocs1.
Qed.

Lemma step_documents (op : Op) (st : State) :
  documents_step st (step canonicalize sha256 matchers op st).
Proof.
  destruct op; simpl.
  - destruct (sites st !! site); left; reflexivity.
  - destruct (sites st !! site); left; reflexivity.
  - left. apply runJob_frame.
  - left. reflexivity.
  - left. apply finishJob_frame.
  - apply process_document_documents.
  - left. apply preserve_spec.
  - apply apply_capture_documents.
  - left. apply extract_current_frame.
Qed.

Lemma documents_step_versions_ok (st st' : State) :
  documents_step st st' -> all_versions_ok st -> all_versions_ok st'.
Proof.
  intros [Hsame | (doc & sd_id & sd & text & now & v & td' & Happly & Hdocs)] Hok.
  - unfold all_versions_ok. rewrite Hsame. exact Hok.
  - intros d td. rewrite Hdocs.
    destruct (decide (doc = d)) as [-> | Hne].
    + rewrite lookup_insert_eq. intros [= <-].
      apply applyCapture_versions_ok in Happly; [apply Happly |].
      apply doc_versions_ok. exact Hok.
    + rewrite lookup_insert_ne by exact Hne. apply Hok.
Qed.

Lemma reachable_versions_ok (st : State) :
  reachable canonicalize sha256 matchers st -> all_versions_ok st.
Proof.
  induction 1 as [| op st _ IH].
  - intros doc td H. simpl in H. rewrite lookup_empty in H. discriminate H.
  - eapply documents_step_versions_ok; [apply step_documents | exact IH].
Qed.

Lemma documents_step_keeps_numbers (st st' : State) (doc : N) (td : TrackedDocument) :
  documents_step st st' -> all_versions_ok st ->
  documents st !! doc = Some td ->
  exists td' : TrackedDocument,
    documents st' !! doc = Some td'
    /\ (sequence <$> versions td) `prefix_of` (sequence <$> versions td').
Proof.
  intros [Hsame | (d & sd_id & sd & text & now & v & td' & Happly & Hdocs)] Hok Htd.
  - exists td. rewrite Hsame. split; [exact Htd | reflexivity].
  - rewrite Hdocs. destruct (decide (d = doc)) as [-> | Hne].
    + exists td'. rewrite lookup_insert_eq. split; [reflexivity |].
      unfold doc_versions in Happly. rewrite Htd in Happly.
      apply applyCapture_versions_ok in Happly; [| right; eapply Hok; exact Htd].
      destruct Happly as (_ & -> & _). apply prefix_app_r. reflexivity.
    + exists td. rewrite lookup_insert_ne by exact Hne. split; [exact Htd | reflexivity].
Qed.

(** C1. In every state the pipeline can reach, each tracked document has
    exactly one version flagged current, and the sequence numbers of its
    N versions are exactly 1..N.  Every operation keeps this, the currency
    flip of [applyCapture] in particular, and no operation takes back or
    reuses a number: the numbers a document had are a prefix of the ones
    it has afterwards.  The flip itself, from no prior content or from
    versions in order, yields versions in order of which the new one, with
    the next number, is the current one. *)
Theorem version_currency_invariant (st : State) :
  reachable canonicalize sha256 matchers st ->
  (forall (doc : N) (td : TrackedDocument),
      documents st !! doc = Some td ->
      count_current (versions td) = 1%nat
      /\ sequence <$> versions td = seq 1 (length (versions td)))
  /\ (forall op : Op,
         all_versions_ok (step canonicalize sha256 matchers op st)
         /\ forall (doc : N) (td : TrackedDocument),
              documents st !! doc = Some td ->
              exists td' : TrackedDocument,
                documents (step canonicalize sha256 matchers op st) !! doc = Some td'
                /\ (sequence <$> versions td) `prefix_of` (sequence <$> versions td'))
  /\ (forall (doc : N) (about : DocumentInfo) (sd_id : nat) (text : string) (now : Z),
         all_versions_ok (snd (apply_capture doc about sd_id text now st)))
  /\ (forall (vs : list DocumentVersion) (sd_id : nat) (sd : SourceDocument) (text : string)
             (now : Z) (v : DocumentVersion) (vs' : list DocumentVersion),
         vs = [] \/ versions_ok vs ->
         applyCapture vs sd_id sd text now = NewVersion v vs' ->
         versions_ok vs' /\ current_version vs' = Some v /\ is_current v = true
         /\ sequence <$> vs' = (sequence <$> vs) ++ [S (length vs)]).
Proof.
  intros Hreach. pose proof (reachable_versions_ok st Hreach) as Hok.
  split; [exact Hok |]. split; [| split].
  - intros op. split.
    + eapply documents_step_versions_ok; [apply step_documents | exact Hok].
    + intros doc td Htd.
      eapply documents_step_keeps_numbers; [apply step_documents | exact Hok | exact Htd].
  - intros doc about sd_id text now.
    eapply documents_step_versions_ok; [apply apply_capture_documents | exact Hok].
  - intros vs sd_id sd text now v vs' Hvs Happly.
    destruct (applyCapture_versions_ok vs sd_id sd text now v vs' Hvs Happly)
      as (Hvs' & Hseq & Hcur & _).
    split; [exact Hvs' |]. split; [exact Hcur |].
    split; [eapply current_version_is_current; exact Hcur | exact Hseq].
Qed.

(** *** Provenance records *)

Lemma version_and_extract_frame doc about sd_id text now st :
  let r := version_and_extract matchers doc about sd_id text now st in
  jobs (snd r) = jobs st /\ source_docs (snd r) = source_docs st.
Proof.
  unfold version_and_extract.
  pose proof (apply_capture_spec doc about sd_id text now st) as Ha. cbv zeta in Ha.
  destruct (apply_capture doc about sd_id text now st) as [o st2].
  cbn [fst snd] in Ha. destruct Ha as (_ & Hj & Hs & _).
  destruct o; cbn [snd]; try (split; assumption).
  destruct (extract_current_frame doc now st2) as (_ & Hj' & Hs' & _).
  split; congruence.
Qed.

Lemma process_document_source_docs job doc about sourceUrl domain bundle now failures st :
  exists new : list SourceDocument,
    source_docs (snd (process_document canonicalize sha256 matchers job doc about sourceUrl
                        domain bundle now failures st))
    = source_docs st ++ new.
Proof.
  unfold process_document.
  destruct (jobs st !! job) as [j |]; [| exists []; rewrite app_nil_r; reflexivity].
  destruct (runnable j); [| exists []; rewrite app_nil_r; reflexivity].
  pose proof (preserve_spec (job_site j) sourceUrl domain now "1.0.0" bundle failures st)
    as Hp. cbv zeta in Hp.
  destruct (preserve canonicalize sha256 (job_site j) sourceUrl domain now "1.0.0" bundle
              failures st) as [sd_id st1].
  cbn [fst snd] in Hp. destruct Hp as (_ & Hsd1 & _).
  eexists. unfold record_outcome. cbn [snd source_docs set_jobs].
  destruct (is_preserved sd_id st1).
  - destruct (version_and_extract_frame doc about sd_id (primary bundle) now st1) as [_ Hs].
    rewrite Hs. exact Hsd1.
  - exact Hsd1.
Qed.

Lemma step_source_docs (op : Op) (st : State) :
  exists new : list SourceDocument,
    source_docs (step canonicalize sha256 matchers op st) = source_docs st ++ new.
Proof.
  destruct op; simpl.
  - exists []. rewrite app_nil_r. destruct (sites st !! site); reflexivity.
  - exists []. rewrite app_nil_r. destruct (sites st !! site); reflexivity.
  - exists []. rewrite app_nil_r. apply runJob_frame.
  - exists []. rewrite app_nil_r. reflexivity.
  - exists []. rewrite app_nil_r. apply finishJob_frame.
  - apply process_document_source_docs.
  - eexists. apply preserve_spec.
  - exists []. rewrite app_nil_r. apply apply_capture_spec.
  - exists []. rewrite app_nil_r. apply extract_current_frame.
Qed.

Lemma accepted_false (failures : list string) (bundle : CaptureBundle) :
  accepted failures (artifacts bundle) = false <-> some_write_fails bundle failures.
Proof.
  unfold accepted, some_write_fails. generalize (artifacts bundle) as arts.
  intros arts. split.
  - induction arts as [| [name bytes] rest IH]; simpl; [discriminate |].
    destruct (existsb (String.eqb name) failures) eqn:E; simpl.
    + intros _. apply existsb_exists in E. destruct E as (x & Hx & Heq).
      apply String.eqb_eq in Heq. subst x. exists name, bytes. split; [left; reflexivity | exact Hx].
    + intros H. destruct (IH H) as (n & b & Hin & Hf). exists n, b. split; [right; exact Hin | exact Hf].
  - intros (n & b & Hin & Hf).
    destruct (forallb _ arts) eqn:E; [| reflexivity]. exfalso.
    rewrite forallb_forall in E. specialize (E (n, b) Hin). simpl in E.
    apply negb_true_iff in E.
    assert (existsb (String.eqb n) failures = true)
      by (apply existsb_exists; exists n; split; [exact Hf | apply String.eqb_refl]).
    congruence.
Qed.

Lemma steps_source_docs (ops : list Op) (st : State) (i : nat) (sd : SourceDocument) :
  source_docs st !! i = Some sd ->
  source_docs (steps canonicalize sha256 matchers ops st) !! i = Some sd.
Proof.
  unfold steps. revert st. induction ops as [| op ops IH]; intros st Hsd; simpl.
  - exact Hsd.
  - apply IH. destruct (step_source_docs op st) as [new ->].
    apply lookup_app_l_Some. exact Hsd.
Qed.

(** C2. A SourceDocument whose status is preserved is left as it is,
    field by field, by every sequence of later operations (and so is any
    other SourceDocument on record: a failed one is never marked preserved
    later).  A re-fetch adds one new SourceDocument and edits none.  The
    record of a capture of which some artifact write fails is marked
    failed, with a preservation error; only when every write is accepted
    and read back is it marked preserved. *)
Theorem source_documents_are_immutable (st : State) :
  (forall (ops : list Op) (i : nat) (sd : SourceDocument),
      source_docs st !! i = Some sd ->
      preservation_status sd = preserved ->
      source_docs (steps canonicalize sha256 matchers ops st) !! i = Some sd)
  /\ (forall (ops : list Op) (i : nat) (sd : SourceDocument),
         source_docs st !! i = Some sd ->
         source_docs (steps canonicalize sha256 matchers ops st) !! i = Some sd)
  /\ (forall (site : N) (sourceUrl domain : string) (fetched : Z) (version : string)
             (bundle : CaptureBundle) (failures : list string),
         let r := preserve canonicalize sha256 site sourceUrl domain fetched version bundle
                    failures st in
         (forall (i : nat) (sd : SourceDocument),
             source_docs st !! i = Some sd -> source_docs (snd r) !! i = Some sd)
         /\ length (source_docs (snd r)) = S (length (source_docs st))
         /\ exists new : SourceDocument,
              source_docs (snd r) !! fst r = Some new
              /\ (some_write_fails bundle failures ->
                  preservation_status new = failed /\ is_Some (preservation_error new))
              /\ (~ some_write_fails bundle failures ->
                  preservation_status new = preserved /\ preservation_error new = None)).
Proof.
  split; [| split].
  - intros ops i sd Hsd _. apply steps_source_docs. exact Hsd.
  - intros ops i sd Hsd. apply steps_source_docs. exact Hsd.
  - intros site sourceUrl domain fetched version bundle failures r.
    destruct (preserve_spec site sourceUrl domain fetched version bundle failures st)
      as (Hid & Hsds & _). fold r in Hid, Hsds.
    split; [| split].
    + intros i sd Hsd. rewrite Hsds. apply lookup_app_l_Some. exact Hsd.
    + rewrite Hsds, length_app. simpl. lia.
    + eexists. split.
      * rewrite Hsds, Hid, lookup_app_r by lia. rewrite Nat.sub_diag. reflexivity.
      * unfold recorded, with_status. cbn [preservation_status preservation_error].
        split.
        -- intros Hfail. apply accepted_false in Hfail. rewrite Hfail. split; eauto.
        -- intros Hok. destruct (accepted failures (artifacts bundle)) eqn:E.
           ++ split; reflexivity.
           ++ exfalso. apply Hok. apply accepted_false. exact E.
Qed.

(** *** Re-running a capture *)

Lemma process_document_ran job doc about sourceUrl domain bundle now failures st :
  fst (process_document canonicalize sha256 matchers job doc about sourceUrl domain bundle
         now failures st) <> NotRun ->
  exists j : CaptureJob, jobs st !! job = Some j /\ runnable j = true.
Proof.
  unfold process_document.
  destruct (jobs st !! job) as [j |] eqn:Hj; [| intros H; contradiction H; reflexivity].
  destruct (runnable j) eqn:Hrun; [| intros H; contradiction H; reflexivity].
  intros _. exists j. split; [reflexivity | exact Hrun].
Qed.

Lemma runnable_count (o : DocOutcome) (j : CaptureJob) : runnable (count o j) = runnable j.
Proof. reflexivity. Qed.

(** C3. [applyCapture] on a capture whose fingerprint is that of the
    current version returns NoChange; on the registry nothing changes
    then: no version is created, and the SourceDocument of the capture
    stays on record.  Running the same capture a second time in a job
    yields exactly one new SourceDocument and no new DocumentVersion, and
    the document is counted as unchanged when the first run preserved
    it. *)
Theorem applyCapture_is_idempotent (st : State) :
  (forall (vs : list DocumentVersion) (sd_id : nat) (sd : SourceDocument) (text : string)
          (now : Z) (p : DocumentVersion),
      current_version vs = Some p ->
      version_fingerprint p = fingerprint sd ->
      applyCapture vs sd_id sd text now = NoChange)
  /\ (forall (doc : N) (about : DocumentInfo) (sd_id : nat) (text : string) (now : Z)
             (td : TrackedDocument) (p : DocumentVersion) (sd : SourceDocument),
         documents st !! doc = Some td ->
         current_version (versions td) = Some p ->
         source_docs st !! sd_id = Some sd ->
         version_fingerprint p = fingerprint sd ->
         apply_capture doc about sd_id text now st = (Unchanged, st))
  /\ (reachable canonicalize sha256 matchers st ->
      forall (job : nat) (doc : N) (about : DocumentInfo) (sourceUrl domain : string)
             (bundle : CaptureBundle) (t1 t2 : Z) (failures : list string),
        let r1 := process_document canonicalize sha256 matchers job doc about sourceUrl
                    domain bundle t1 failures st in
        fst r1 <> NotRun ->
        let r2 := process_document canonicalize sha256 matchers job doc about sourceUrl
                    domain bundle t2 failures (snd r1) in
        length (source_docs (snd r2)) = S (length (source_docs (snd r1)))
        /\ documents (snd r2) = documents (snd r1)
        /\ (fst r1 <> DocFailed -> fst r2 = DocSkippedUnchanged)).
Proof.
  split; [| split].
  - intros vs sd_id sd text now p Hp Hfp. eapply applyCapture_unchanged; eassumption.
  - intros doc about sd_id text now td p sd Htd Hp Hsd Hfp.
    unfold apply_capture. rewrite Hsd, Htd.
    rewrite (applyCapture_unchanged _ _ _ _ _ p Hp Hfp). reflexivity.
  - intros Hreach job doc about sourceUrl domain bundle t1 t2 failures r1 Hran r2.
    pose proof (reachable_versions_ok st Hreach) as Hok.
    destruct (process_document_ran _ _ _ _ _ _ _ _ _ Hran) as (j & Hj & Hrun).
    destruct (process_document_run job doc about sourceUrl domain bundle t1 failures st j
                Hj Hrun) as (Hjobs1 & Hsd1 & _ & Hfail1 & Hacc1).
    fold r1 in Hjobs1, Hsd1, Hfail1, Hacc1.
    assert (Hj1 : jobs (snd r1) !! job = Some (count (fst r1) j)).
    { rewrite Hjobs1, list_lookup_alter_eq, Hj. reflexivity. }
    destruct (process_document_run job doc about sourceUrl domain bundle t2 failures
                (snd r1) (count (fst r1) j) Hj1 Hrun) as (_ & Hsd2 & _ & Hfail2 & Hacc2).
    fold r2 in Hsd2, Hfail2, Hacc2.
    split; [rewrite Hsd2, length_app; simpl; lia |].
    destruct (accepted failures (artifacts bundle)) eqn:Hacc.
    + destruct (Hacc1 eq_refl) as [_ Hnew1]. destruct (Hnew1 Hok) as [_ Hcur].
      destruct (Hacc2 eq_refl) as [Hsame2 _]. destruct (Hsame2 Hcur) as [Ho2 Hd2].
      split; [exact Hd2 | intros _; exact Ho2].
    + destruct (Hfail1 eq_refl) as [Ho1 _]. destruct (Hfail2 eq_refl) as [_ Hd2].
      split; [exact Hd2 | intros H; contradiction (H Ho1)].
Qed.

(** *** Jobs *)

Lemma filter_nil_existsb {A : Type} (p : A -> bool) (l : list A) :
  List.filter p l = [] <-> existsb p l = false.
Proof.
  induction l as [| x l IH]; simpl; [tauto |].
  destruct (p x); simpl; [split; discriminate | exact IH].
Qed.

Lemma filter_alter_length {A : Type} (p : A -> bool) (f : A -> A) (i : nat) (l : list A) :
  (forall x, p (f x) = p x) ->
  length (List.filter p (alter f i l)) = length (List.filter p l).
Proof.
  intros Hf. unfold alter. revert i.
  induction l as [| x l IH]; intros i; [reflexivity |].
  destruct i as [| i]; simpl.
  - rewrite Hf. destruct (p x); reflexivity.
  - destruct (p x); simpl; rewrite IH; reflexivity.
Qed.

Lemma filter_insert_length {A : Type} (p : A -> bool) (x : A) (i : nat) (l : list A) :
  p x = false ->
  (length (List.filter p (<[i := x]> l)) <= length (List.filter p l))%nat.
Proof.
  intros Hx. revert i.
  induction l as [| y l IH]; intros i; [simpl; lia |].
  destruct i as [| i]; simpl.
  - rewrite Hx. destruct (p y); simpl; lia.
  - specialize (IH i). destruct (p y); simpl; lia.
Qed.

Lemma runJob_jobs site kind now st :
  jobs (snd (runJob site kind now st)) = jobs st
  \/ (existsb (running_for site) (jobs st) = false
      /\ exists j, running_for site j = true
                   /\ jobs (snd (runJob site kind now st)) = jobs st ++ [j]).
Proof.
  unfold runJob.
  destruct (existsb (running_for site) (jobs st)) eqn:E; [left; reflexivity |].
  destruct (sites st !! site) as [s |]; [| left; reflexivity].
  destruct (negb (enabled s)); [left; reflexivity |].
  right. split; [reflexivity |].
  eexists. split; [| cbn [snd jobs emit set_jobs];
                     replace (length (jobs st)) with (length (jobs st) + 0)%nat by lia;
                     rewrite alter_app_r; reflexivity].
  unfold running_for. cbn. rewrite N.eqb_refl. reflexivity.
Qed.

Lemma process_document_jobs job doc about sourceUrl domain bundle now failures st :
  exists o : DocOutcome,
    jobs (snd (process_document canonicalize sha256 matchers job doc about sourceUrl domain
                 bundle now failures st))
    = alter (count o) job (jobs st).
Proof.
  destruct (jobs st !! job) as [j |] eqn:Hj.
  - destruct (runnable j) eqn:Hrun.
    + eexists. eapply process_document_run; eassumption.
    + exists NotRun. unfold process_document. rewrite Hj, Hrun. cbn [snd].
      symmetry. apply list_alter_id. intros x. destruct x as [? ? ? ? ? []]; reflexivity.
    - exists NotRun. unfold process_document. rewrite Hj. cbn [snd].
      symmetry. apply list_alter_id. intros x. destruct x as [? ? ? ? ? []]; reflexivity.
Qed.

Lemma step_running_jobs (op : Op) (st : State) (site : N) :
  (length (running_jobs site st) <= 1)%nat ->
  (length (running_jobs site (step canonicalize sha256 matchers op st)) <= 1)%nat.
Proof.
  unfold running_jobs. intros H. destruct op; simpl.
  - destruct (sites st !! site0); exact H.
  - destruct (sites st !! site0); exact H.
  - destruct (runJob_jobs site0 kind now st) as [-> | (Hnone & j & Hj & ->)]; [exact H |].
    rewrite List.filter_app, length_app. simpl.
    destruct (N.eq_dec site0 site) as [-> | Hne].
    + apply filter_nil_existsb in Hnone. rewrite Hnone, Hj. simpl. lia.
    + assert (Hj' : running_for site j = false).
      { unfold running_for in *. apply andb_true_iff in Hj. destruct Hj as [Hs _].
        apply N.eqb_eq in Hs. rewrite Hs.
        destruct (N.eqb site0 site) eqn:E; [apply N.eqb_eq in E; contradiction | reflexivity]. }
      rewrite Hj'. simpl. lia.
  - rewrite filter_alter_length; [exact H |].
    intros j. unfold running_for.
    destruct (job_status j) eqn:E; cbn; rewrite ?E; reflexivity.
  - unfold finishJob. destruct (jobs st !! job) as [j |]; [| exact H].
    destruct (job_status j); try exact H.
    cbn [jobs emit set_jobs]. etransitivity; [apply filter_insert_length | exact H].
    unfold running_for. destruct how; cbn; apply andb_false_r.
  - destruct (process_document_jobs job doc about sourceUrl domain bundle now failures st)
      as [o ->].
    rewrite filter_alter_length; [exact H | reflexivity].
  - destruct (preserve_spec site0 sourceUrl domain fetched "1.0.0" bundle failures st)
      as (_ & _ & _ & -> & _). exact H.
  - destruct (apply_capture_spec doc about sd_id text now st) as (_ & -> & _). exact H.
  - destruct (extract_current_frame doc now st) as (_ & -> & _). exact H.
Qed.

(** C4. A call of [runJob] for a site that has a running job returns the
    conflict error and leaves the whole state, the job registry with it,
    as it was: no second job is created.  In every state the pipeline can
    reach, a site has at most one running job. *)
Theorem one_running_job_per_site (st : State) :
  (forall (site : N) (kind : TriggerKind) (now : Z),
      running_jobs site st <> [] ->
      runJob site kind now st = (ConflictError, st))
  /\ (reachable canonicalize sha256 matchers st ->
      forall site : N, (length (running_jobs site st) <= 1)%nat).
Proof.
  split.
  - intros site kind now Hrunning. unfold runJob.
    destruct (existsb (running_for site) (jobs st)) eqn:E; [reflexivity |].
    apply filter_nil_existsb in E. contradiction.
  - intros Hreach site. induction Hreach as [| op st _ IH].
    + simpl. lia.
    + apply step_running_jobs. exact IH.
Qed.

End PipelineFacts.

Section PipelineWitnesses.
Import Pipeline PipelineClaims PipelineExamples.

Lemma run_reachable (ops : list Op) : reachable keep_text keep_text no_matchers (run ops).
Proof.
  unfold run, steps.
  generalize initial, (reachable_initial keep_text keep_text no_matchers).
  induction ops as [| op ops IH]; intros st Hst; simpl; [exact Hst |].
  apply IH. apply reachable_step. exact Hst.
Qed.

Lemma version_currency_invariant_witness :
  exists td : TrackedDocument,
    documents captured_once !! 5%N = Some td
    /\ count_current (versions td) = 1%nat
    /\ sequence <$> versions td = seq 1 (length (versions td)).
Proof.
  destruct (documents captured_once !! 5%N) as [td |] eqn:Htd.
  - exists td. split; [reflexivity |].
    exact (proj1 (version_currency_invariant keep_text keep_text no_matchers captured_once
                    (run_reachable _)) 5%N td Htd).
  - vm_compute in Htd. discriminate Htd.
Defined.

Lemma source_documents_are_immutable_witness :
  (exists sd : SourceDocument,
      source_docs captured_once !! 0%nat = Some sd
      /\ preservation_status sd = preserved
      /\ source_docs
           (steps keep_text keep_text no_matchers
              [Preserve 1%N "https://www.toronto.ca/bylaws/2024-001" "www.toronto.ca" 120
                 adu_page ["page.html"];
               FinishJob 0 completed 130] captured_once) !! 0%nat = Some sd)
  /\ (exists new : SourceDocument,
         source_docs
           (snd (preserve keep_text keep_text 1%N "https://www.toronto.ca/bylaws/2024-001"
                   "www.toronto.ca" 120 "1.0.0" adu_page ["page.html"] captured_once))
         !! 1%nat = Some new
         /\ preservation_status new = failed).
Proof.
  split.
  - destruct (source_docs captured_once !! 0%nat) as [sd |] eqn:Hsd.
    + assert (Hstatus : preservation_status sd = preserved).
      { vm_compute in Hsd. injection Hsd as <-. reflexivity. }
      exists sd. split; [reflexivity |]. split; [exact Hstatus |].
      apply (proj1 (source_documents_are_immutable keep_text keep_text no_matchers
                      captured_once)); [exact Hsd | exact Hstatus].
    + vm_compute in Hsd. discriminate Hsd.
  - destruct (proj2 (proj2 (source_documents_are_immutable keep_text keep_text no_matchers
                              captured_once))
                1%N "https://www.toronto.ca/bylaws/2024-001" "www.toronto.ca" 120 "1.0.0"
                adu_page ["page.html"]) as (_ & _ & new & Hnew & Hfail & _).
    exists new. split.
    + exact Hnew.
    + apply Hfail. exists "page.html", (primary adu_page).
      split; left; reflexivity.
Defined.

Lemma applyCapture_is_idempotent_witness :
  let again :=
    process_document keep_text keep_text no_matchers 0 5%N adu_bylaw
      "https://www.toronto.ca/bylaws/2024-001" "www.toronto.ca" adu_page 120 []
      captured_once in
  fst again = DocSkippedUnchanged
  /\ length (source_docs (snd again)) = S (length (source_docs captured_once))
  /\ documents (snd again) = documents captured_once.
Proof.
  destruct (proj2 (proj2 (applyCapture_is_idempotent keep_text keep_text no_matchers
                            job_running))
              (run_reachable _) 0%nat 5%N adu_bylaw
              "https://www.toronto.ca/bylaws/2024-001" "www.toronto.ca" adu_page 110 120 [])
    as (Hlen & Hdocs & Hskip).
  - vm_compute. discriminate.
  - split; [| split].
    + apply Hskip. vm_compute. discriminate.
    + exact Hlen.
    + exact Hdocs.
Defined.

Lemma one_running_job_per_site_witness :
  runJob 1%N scheduled 130 job_running = (ConflictError, job_running)
  /\ (length (running_jobs 1%N job_running) <= 1)%nat.
Proof.
  destruct (one_running_job_per_site keep_text keep_text no_matchers job_running)
    as [Hconflict Hone].
  split.
  - apply Hconflict. vm_compute. discriminate.
  - apply Hone. apply run_reachable.
Defined.

End PipelineWitnesses.

Section AuditFacts.
Import Pipeline PipelineClaims AuditClaims.

Variable canonicalize : string -> string.
Variable sha256 : string -> string.
Variable matchers : string -> list RequirementFact.

(** *** Steps that change no record of the core *)

Lemma audited_nothing (st st' : State) :
  source_docs st' = source_docs st -> documents st' = documents st ->
  facts st' = facts st -> (forall job, status_of st' job = status_of st job) ->
  audit st' = audit st ->
  audited st st' [].
Proof.
  intros Hsd Hd Hf Hj Ha. split; [rewrite Ha, app_nil_r; reflexivity |].
  split; [constructor |]. unfold all_recorded, doc_versions. rewrite Hsd, Hd, Hf.
  split; [| split; [| split]].
  - intros id Hnone [x Hx]. rewrite Hnone in Hx. discriminate.
  - intros doc v Hv Hnew. exfalso. exact (Hnew v Hv eq_refl).
  - intros doc seq H. contradiction.
  - intros job H. rewrite Hj in H. contradiction.
Qed.

Lemma audited_refl (st : State) : audited st st [].
Proof. apply audited_nothing; reflexivity. Qed.

Lemma emitted_app (st st' : State) (events : list AuditEvent) :
  audit st' = audit st ++ events -> emitted st st' = events.
Proof. intros H. unfold emitted. rewrite H. apply drop_app_length. Qed.

(** *** The Preserver *)

Lemma preserve_audit site sourceUrl domain fetched version bundle failures st :
  exists e,
    audit (snd (preserve canonicalize sha256 site sourceUrl domain fetched version bundle
                  failures st)) = audit st ++ [e]
    /\ entity e = source_document_entity (length (source_docs st)).
Proof.
  unfold preserve.
  match goal with
  | |- context [write_artifacts ?a ?b ?c ?d ?e ?s] =>
      pose proof (write_artifacts_frame a b c d e s) as Hframe;
      destruct (write_artifacts a b c d e s) as [written st2]
  end.
  cbn [fst snd] in *. cbv zeta in Hframe. destruct Hframe as (_ & _ & _ & _ & _ & Ha).
  cbn [audit emit set_source_docs] in *. rewrite Ha. eexists. split; reflexivity.
Qed.

(** *** The Version Manager *)

Lemma sequence_le_max (vs : list DocumentVersion) (w : DocumentVersion) :
  In w vs -> (sequence w <= fold_right Nat.max 0%nat (sequence <$> vs))%nat.
Proof.
  induction vs as [| v vs IH]; [contradiction |].
  rewrite fmap_cons. cbn [fold_right In].
  intros [-> | H]; [lia |]. specialize (IH H). lia.
Qed.

Lemma next_sequence_fresh (vs : list DocumentVersion) (w : DocumentVersion) :
  In w vs -> sequence w <> next_sequence vs.
Proof. intros H. apply sequence_le_max in H. unfold next_sequence. lia. Qed.

Lemma flip_In (prior : option DocumentVersion) (new : DocumentVersion)
    (vs : list DocumentVersion) (x : DocumentVersion) :
  In x (flip prior new vs) -> x = new \/ exists w, In w vs /\ sequence w = sequence x.
Proof.
  unfold flip. intros H. apply in_app_or in H as [H | [<- | []]]; [| left; reflexivity].
  right. apply list_elem_of_In, list_elem_of_fmap in H as (w & -> & Hw).
  exists w. split; [apply list_elem_of_In; exact Hw |].
  destruct prior as [p |]; [| reflexivity].
  destruct (Nat.eqb (sequence w) (sequence p)); reflexivity.
Qed.

Lemma applyCapture_new (vs vs' : list DocumentVersion) (sd_id : nat) (sd : SourceDocument)
    (text : string) (now : Z) (v : DocumentVersion) :
  applyCapture vs sd_id sd text now = NewVersion v vs' ->
  In v vs'
  /\ (forall w, In w vs -> sequence w <> sequence v)
  /\ (forall x, In x vs' -> x = v \/ exists w, In w vs /\ sequence w = sequence x)
  /\ (forall w, In w vs -> exists x, In x vs' /\ sequence x = sequence w).
Proof.
  unfold applyCapture.
  destruct (match current_version vs with
            | Some p => String.eqb (version_fingerprint p) (fingerprint sd)
            | None => false
            end); [discriminate |].
  intros [= <- <-]. split; [| split; [| split]].
  - unfold flip. apply in_or_app. right. left. reflexivity.
  - intros w Hw. cbn [sequence]. apply next_sequence_fresh. exact Hw.
  - intros x Hx. apply flip_In in Hx. exact Hx.
  - intros w Hw. unfold flip. eexists. split.
    + apply in_or_app. left. apply list_elem_of_In, list_elem_of_fmap_2, list_elem_of_In.
      exact Hw.
    + cbv beta. destruct (current_version vs) as [p |]; [| reflexivity].
      destruct (Nat.eqb (sequence w) (sequence p)); reflexivity.
Qed.

Lemma apply_capture_audit doc about sd_id text now st :
  let st' := snd (apply_capture doc about sd_id text now st) in
  jobs st' = jobs st /\ source_docs st' = source_docs st /\ facts st' = facts st
  /\ (st' = st
      \/ exists (sd : SourceDocument) (v : DocumentVersion) (td' : TrackedDocument)
                (e : AuditEvent),
           applyCapture (doc_versions st doc) sd_id sd text now = NewVersion v (versions td')
           /\ documents st' = <[doc := td']> (documents st)
           /\ audit st' = audit st ++ [e]
           /\ entity e = version_entity doc (sequence v)
           /\ event_kind e = "version_created").
Proof.
  unfold apply_capture, doc_versions.
  destruct (source_docs st !! sd_id) as [sd |] eqn:Hsd.
  2: { cbn [snd]. repeat split. left. reflexivity. }
  destruct (documents st !! doc) as [td |] eqn:Htd.
  - destruct (applyCapture (versions td) sd_id sd text now) as [| v vs'] eqn:Happly;
      cbn [snd]; do 3 (split; [reflexivity |]).
    + left. reflexivity.
    + right. exists sd, v, {| info := info td; versions := vs' |}. eexists.
      split; [exact Happly |]. repeat split.
  - cbn [versions info].
    destruct (applyCapture [] sd_id sd text now) as [| v vs'] eqn:Happly;
      cbn [snd]; do 3 (split; [reflexivity |]).
    + left. reflexivity.
    + right. exists sd, v, {| info := about; versions := vs' |}. eexists.
      split; [exact Happly |]. repeat split.
Qed.

Lemma doc_versions_insert (docs : gmap N TrackedDocument) (doc d : N) (td : TrackedDocument)
    (st st' : State) :
  documents st = docs -> documents st' = <[doc := td]> docs ->
  doc_versions st' d = if decide (doc = d) then versions td else doc_versions st d.
Proof.
  intros H H'. unfold doc_versions. rewrite H, H'.
  destruct (decide (doc = d)) as [-> | Hne].
  - rewrite lookup_insert_eq. reflexivity.
  - rewrite lookup_insert_ne by exact Hne. reflexivity.
Qed.

(** *** The Extractor *)

Lemma extract_current_audit doc now st :
  let st' := extract_current matchers doc now st in
  jobs st' = jobs st /\ source_docs st' = source_docs st /\ documents st' = documents st
  /\ (st' = st
      \/ exists (v : DocumentVersion) (e : AuditEvent),
           In v (doc_versions st doc)
           /\ facts st' = <[(doc, sequence v) := matchers (content v)]> (facts st)
           /\ audit st' = audit st ++ [e]
           /\ entity e = facts_entity doc (sequence v)).
Proof.
  unfold extract_current, doc_versions.
  destruct (documents st !! doc) as [td |]; [| repeat split; left; reflexivity].
  destruct (current_version (versions td)) as [v |] eqn:Hv;
    [| repeat split; left; reflexivity].
  do 3 (split; [reflexivity |]). right. exists v. eexists.
  split; [| repeat split].
  unfold current_version in Hv. apply List.find_some in Hv as [Hv _]. exact Hv.
Qed.

(** *** Putting the stages together *)

Lemma performed_persists (st st1 st2 : State) (e : AuditEvent) :
  persists st1 st2 -> performed st st1 e -> performed st st2 e.
Proof.
  intros (Hsd & Hv & Hf & Hj). unfold performed.
  destruct (entity e) as [site | job | id | doc seq | doc seq].
  - exact (fun H => H).
  - intros (status & H1 & H0). exists status. rewrite Hj. split; assumption.
  - intros [H0 H1]. split; [exact H0 | apply Hsd; exact H1].
  - intros [(v & Hin & Hseq) H0]. split; [| exact H0].
    destruct (Hv doc v Hin) as (x & Hx & Hxs). exists x. split; [exact Hx | congruence].
  - intros [H1 (v & Hin & Hseq)]. split; [apply Hf; exact H1 |].
    destruct (Hv doc v Hin) as (x & Hx & Hxs). exists x. split; [exact Hx | congruence].
Qed.

Lemma In_app_last {A : Type} (x : A) (l : list A) : In x (l ++ [x]).
Proof. apply in_or_app. right. left. reflexivity. Qed.

Lemma In_app_old {A : Type} (x y : A) (l : list A) : In x l -> In x (l ++ [y]).
Proof. intros H. apply in_or_app. left. exact H. Qed.

(** The Preserver adds a source document and its event. *)
Lemma audited_preserve (st st1 : State) (record : SourceDocument) (e : AuditEvent) :
  source_docs st1 = source_docs st ++ [record] ->
  documents st1 = documents st -> facts st1 = facts st -> jobs st1 = jobs st ->
  audit st1 = audit st ++ [e] ->
  entity e = source_document_entity (length (source_docs st)) ->
  audited st st1 [e].
Proof.
  intros Hsd Hd Hf Hj Ha He. split; [exact Ha |]. split.
  - constructor; [| constructor]. unfold performed. rewrite He, Hsd. split.
    + apply lookup_ge_None. lia.
    + rewrite lookup_app_r by lia. rewrite Nat.sub_diag. eauto.
  - unfold all_recorded, doc_versions, status_of. rewrite Hd, Hf, Hj.
    split; [| split; [| split]].
    + intros id Hnone [x Hx]. exists e. split; [left; reflexivity |]. rewrite He. f_equal.
      apply lookup_ge_None in Hnone. apply lookup_lt_Some in Hx.
      rewrite Hsd, length_app in Hx. simpl in Hx. lia.
    + intros doc v Hv Hnew. exfalso. exact (Hnew v Hv eq_refl).
    + intros doc seq H. contradiction.
    + intros job H. contradiction.
Qed.

(** The Version Manager adds a version and its event. *)
Lemma audited_version (st st1 st2 : State) (events : list AuditEvent) (doc : N)
    (sd_id : nat) (sd : SourceDocument) (text : string) (now : Z) (v : DocumentVersion)
    (td' : TrackedDocument) (e : AuditEvent) :
  audited st st1 events ->
  documents st1 = documents st ->
  jobs st2 = jobs st1 -> source_docs st2 = source_docs st1 -> facts st2 = facts st1 ->
  applyCapture (doc_versions st1 doc) sd_id sd text now = NewVersion v (versions td') ->
  documents st2 = <[doc := td']> (documents st1) ->
  audit st2 = audit st1 ++ [e] ->
  entity e = version_entity doc (sequence v) -> event_kind e = "version_created" ->
  audited st st2 (events ++ [e]).
Proof.
  intros (Ha1 & Hp1 & Hsd1 & Hv1 & Hf1 & Hj1) Hd Hj Hsd Hf Happly Hd2 Ha He Hk.
  apply applyCapture_new in Happly as (Hin & Hfresh & Hfrom & Hkeep).
  assert (Hversions : forall d, doc_versions st2 d
                                = if decide (doc = d) then versions td' else doc_versions st1 d).
  { intros d. apply (doc_versions_insert (documents st1)); [reflexivity | exact Hd2]. }
  assert (Hsame : forall d, doc_versions st1 d = doc_versions st d).
  { intros d. unfold doc_versions. rewrite Hd. reflexivity. }
  assert (Hpersists : persists st1 st2).
  { split; [| split; [| split]].
    - intros id. rewrite Hsd. exact (fun H => H).
    - intros d w Hw. rewrite Hversions. destruct (decide (doc = d)) as [<- | _].
      + apply Hkeep. exact Hw.
      + exists w. split; [exact Hw | reflexivity].
    - intros key. rewrite Hf. exact (fun H => H).
    - intros job. unfold status_of. rewrite Hj. reflexivity. }
  split; [rewrite Ha, Ha1, <- app_assoc; reflexivity |]. split.
  - apply Forall_app. split.
    + eapply Forall_impl; [exact Hp1 |]. intros x. apply performed_persists. exact Hpersists.
    + constructor; [| constructor]. unfold performed. rewrite He. split.
      * exists v. split; [| reflexivity]. rewrite Hversions, decide_True by reflexivity.
        exact Hin.
      * intros w Hw. apply Hfresh. rewrite Hsame. exact Hw.
  - split; [| split; [| split]].
    + intros id Hnone Hsome. rewrite Hsd in Hsome.
      destruct (Hsd1 id Hnone Hsome) as (x & Hx & Hxe). exists x.
      split; [apply In_app_old; exact Hx | exact Hxe].
    + intros d x Hx Hnew. rewrite Hversions in Hx.
      destruct (decide (doc = d)) as [<- | _].
      * destruct (Hfrom x Hx) as [-> | (w & Hw & Hws)].
        -- exists e. split; [apply In_app_last |]. split; assumption.
        -- exfalso. apply (Hnew w); [rewrite <- Hsame; exact Hw | exact Hws].
      * exfalso. apply (Hnew x); [rewrite <- Hsame; exact Hx | reflexivity].
    + intros d seq Hne. rewrite Hf in Hne.
      destruct (Hf1 d seq Hne) as (x & Hx & Hxe). exists x.
      split; [apply In_app_old; exact Hx | exact Hxe].
    + intros job Hne. unfold status_of in Hne. rewrite Hj in Hne.
      destruct (Hj1 job Hne) as (x & Hx & Hxe). exists x.
      split; [apply In_app_old; exact Hx | exact Hxe].
Qed.

(** The Extractor stores the facts of a version and adds their event. *)
Lemma audited_facts (st st2 st3 : State) (events : list AuditEvent) (doc : N)
    (v : DocumentVersion) (fs : list RequirementFact) (e : AuditEvent) :
  audited st st2 events ->
  jobs st3 = jobs st2 -> source_docs st3 = source_docs st2 -> documents st3 = documents st2 ->
  In v (doc_versions st2 doc) ->
  facts st3 = <[(doc, sequence v) := fs]> (facts st2) ->
  audit st3 = audit st2 ++ [e] ->
  entity e = facts_entity doc (sequence v) ->
  audited st st3 (events ++ [e]).
Proof.
  intros (Ha2 & Hp2 & Hsd2 & Hv2 & Hf2 & Hj2) Hj Hsd Hd Hin Hf Ha He.
  assert (Hsame : forall d, doc_versions st3 d = doc_versions st2 d).
  { intros d. unfold doc_versions. rewrite Hd. reflexivity. }
  assert (Hpersists : persists st2 st3).
  { split; [| split; [| split]].
    - intros id. rewrite Hsd. exact (fun H => H).
    - intros d w Hw. exists w. split; [rewrite Hsame; exact Hw | reflexivity].
    - intros key Hkey. rewrite Hf.
      destruct (decide ((doc, sequence v) = key)) as [<- | Hne].
      + rewrite lookup_insert_eq. eauto.
      + rewrite lookup_insert_ne by exact Hne. exact Hkey.
    - intros job. unfold status_of. rewrite Hj. reflexivity. }
  split; [rewrite Ha, Ha2, <- app_assoc; reflexivity |]. split.
  - apply Forall_app. split.
    + eapply Forall_impl; [exact Hp2 |]. intros x. apply performed_persists. exact Hpersists.
    + constructor; [| constructor]. unfold performed. rewrite He. split.
      * rewrite Hf, lookup_insert_eq. eauto.
      * exists v. split; [rewrite Hsame; exact Hin | reflexivity].
  - split; [| split; [| split]].
    + intros id Hnone Hsome. rewrite Hsd in Hsome.
      destruct (Hsd2 id Hnone Hsome) as (x & Hx & Hxe). exists x.
      split; [apply In_app_old; exact Hx | exact Hxe].
    + intros d x Hx Hnew. rewrite Hsame in Hx.
      destruct (Hv2 d x Hx Hnew) as (y & Hy & Hye). exists y.
      split; [apply In_app_old; exact Hy | exact Hye].
    + intros d seq Hne. destruct (decide ((doc, sequence v) = (d, seq))) as [[= <- <-] | Hkey].
      * exists e. split; [apply In_app_last | exact He].
      * rewrite Hf, lookup_insert_ne in Hne by exact Hkey.
        destruct (Hf2 d seq Hne) as (x & Hx & Hxe). exists x.
        split; [apply In_app_old; exact Hx | exact Hxe].
    + intros job Hne. unfold status_of in Hne. rewrite Hj in Hne.
      destruct (Hj2 job Hne) as (x & Hx & Hxe). exists x.
      split; [apply In_app_old; exact Hx | exact Hxe].
Qed.

(** A change that leaves the records and the status of the jobs as they
    are needs no event. *)
Lemma audited_tail (st st3 st4 : State) (events : list AuditEvent) :
  audited st st3 events ->
  source_docs st4 = source_docs st3 -> documents st4 = documents st3 ->
  facts st4 = facts st3 -> (forall job, status_of st4 job = status_of st3 job) ->
  audit st4 = audit st3 ->
  audited st st4 events.
Proof.
  intros (Ha3 & Hp3 & Hsd3 & Hv3 & Hf3 & Hj3) Hsd Hd Hf Hj Ha.
  assert (Hsame : forall d, doc_versions st4 d = doc_versions st3 d).
  { intros d. unfold doc_versions. rewrite Hd. reflexivity. }
  split; [rewrite Ha; exact Ha3 |]. split.
  - eapply Forall_impl; [exact Hp3 |]. intros x. apply performed_persists.
    split; [| split; [| split]].
    + intros id. rewrite Hsd. exact (fun H => H).
    + intros d w Hw. exists w. split; [rewrite Hsame; exact Hw | reflexivity].
    + intros key. rewrite Hf. exact (fun H => H).
    + exact Hj.
  - split; [| split; [| split]].
    + intros id. rewrite Hsd. apply Hsd3.
    + intros d x. rewrite Hsame. apply Hv3.
    + intros d seq. rewrite Hf. apply Hf3.
    + intros job. rewrite Hj. apply Hj3.
Qed.

(** *** The Orchestrator *)

Lemma status_alter (f : CaptureJob -> CaptureJob) (id job : nat) (l : list CaptureJob) :
  (forall j, job_status (f j) = job_status j) ->
  job_status <$> alter f id l !! job = job_status <$> l !! job.
Proof.
  intros Hf. destruct (decide (id = job)) as [<- | Hne].
  - rewrite list_lookup_alter_eq. destruct (l !! id) as [j |]; simpl; [| reflexivity].
    rewrite Hf. reflexivity.
  - rewrite list_lookup_alter_ne by exact Hne. reflexivity.
Qed.

Lemma cancelJob_audited (job : nat) (st : State) : audited st (cancelJob job st) [].
Proof.
  apply audited_nothing; try reflexivity.
  intros k. unfold status_of, cancelJob. cbn [jobs set_jobs].
  apply status_alter. intros j. destruct (job_status j) eqn:E; cbn; rewrite ?E; reflexivity.
Qed.

Lemma record_outcome_status (job : nat) (o : DocOutcome) (st : State) (k : nat) :
  status_of (snd (record_outcome job (o, st))) k = status_of st k.
Proof.
  unfold status_of, record_outcome. cbn [fst snd jobs set_jobs].
  apply status_alter. intros j. reflexivity.
Qed.

Lemma performed_job (st st' : State) (e : AuditEvent) (job : nat) (status : JobStatus) :
  entity e = job_entity job ->
  status_of st' job = Some status -> status_of st job <> Some status ->
  performed st st' e.
Proof. intros He H1 H0. unfold performed. rewrite He. exists status. split; assumption. Qed.

Lemma runJob_audited (site : N) (kind : TriggerKind) (now : Z) (st : State) :
  exists events, audited st (snd (runJob site kind now st)) events.
Proof.
  unfold runJob.
  destruct (existsb (running_for site) (jobs st)); [exists []; apply audited_refl |].
  destruct (sites st !! site) as [s |]; [| exists []; apply audited_refl].
  destruct (negb (enabled s)); [exists []; apply audited_refl |].
  cbn [snd]. eexists. split; [| split].
  - cbn [audit emit set_jobs]. rewrite <- app_assoc. reflexivity.
  - assert (Hnew : status_of st (length (jobs st)) <> Some job_running).
    { unfold status_of. rewrite (proj2 (lookup_ge_None (jobs st) (length (jobs st)))) by lia.
      discriminate. }
    constructor; [| constructor; [| constructor]];
      (eapply performed_job; [reflexivity | | exact Hnew]);
      unfold status_of; cbn [jobs emit set_jobs];
      rewrite list_lookup_alter_eq, lookup_app_r by lia;
      rewrite Nat.sub_diag; reflexivity.
  - split; [| split; [| split]].
    + intros id Hnone [x Hx]. cbn [source_docs emit set_jobs] in Hx.
      rewrite Hnone in Hx. discriminate.
    + intros doc v Hv Hnew. exfalso. exact (Hnew v Hv eq_refl).
    + intros doc seq H. contradiction.
    + intros job Hne. destruct (decide (job = length (jobs st))) as [-> | Hjob].
      * eexists. split; [left; reflexivity | reflexivity].
      * exfalso. apply Hne. unfold status_of. cbn [jobs emit set_jobs].
        rewrite list_lookup_alter_ne by congruence.
        destruct (decide (job < length (jobs st))%nat) as [Hlt | Hge].
        -- rewrite lookup_app_l by exact Hlt. reflexivity.
        -- rewrite !(proj2 (lookup_ge_None _ _)); [reflexivity | lia |].
           rewrite length_app. simpl. lia.
Qed.

Lemma finishJob_audited (job : nat) (how : JobEnd) (now : Z) (st : State) :
  exists events, audited st (finishJob job how now st) events.
Proof.
  unfold finishJob.
  destruct (jobs st !! job) as [j |] eqn:Hjob; [| exists []; apply audited_refl].
  destruct (job_status j) eqn:Hstatus; try (exists []; apply audited_refl).
  eexists. split; [| split].
  - reflexivity.
  - constructor; [| constructor]. eapply performed_job; [reflexivity | |].
    + unfold status_of. cbn [jobs emit set_jobs].
      rewrite list_lookup_insert_eq by (apply lookup_lt_Some in Hjob; exact Hjob).
      reflexivity.
    + unfold status_of. rewrite Hjob. cbn [fmap option_fmap option_map]. rewrite Hstatus.
      destruct how; discriminate.
  - split; [| split; [| split]].
    + intros id Hnone [x Hx]. cbn [source_docs emit set_jobs] in Hx.
      rewrite Hnone in Hx. discriminate.
    + intros doc v Hv Hnew. exfalso. exact (Hnew v Hv eq_refl).
    + intros doc seq H. contradiction.
    + intros k Hne. destruct (decide (k = job)) as [-> | Hk].
      * eexists. split; [left; reflexivity | reflexivity].
      * exfalso. apply Hne. unfold status_of. cbn [jobs emit set_jobs].
        rewrite list_lookup_insert_ne by congruence. reflexivity.
Qed.

(** *** One document, through Preserver, Version Manager and Extractor *)

Lemma preserve_audited site sourceUrl domain fetched version bundle failures st :
  exists e,
    audited st
      (snd (preserve canonicalize sha256 site sourceUrl domain fetched version bundle
              failures st)) [e].
Proof.
  pose proof (preserve_spec canonicalize sha256 site sourceUrl domain fetched version bundle
                failures st) as Hspec.
  cbv zeta in Hspec. destruct Hspec as (_ & Hsd & _ & Hj & Hd & Hf).
  destruct (preserve_audit site sourceUrl domain fetched version bundle failures st)
    as (e & Ha & He).
  exists e. eapply audited_preserve; eassumption.
Qed.

Lemma apply_capture_audited doc about sd_id text now (st st1 : State)
    (events : list AuditEvent) :
  audited st st1 events -> documents st1 = documents st ->
  exists events', audited st (snd (apply_capture doc about sd_id text now st1)) events'.
Proof.
  intros Haud Hd.
  destruct (apply_capture_audit doc about sd_id text now st1)
    as (Hj & Hsd & Hf & [-> | (sd & v & td' & e & Happly & Hd2 & Ha & He & Hk)]).
  - exists events. exact Haud.
  - exists (events ++ [e]). eapply audited_version; eassumption.
Qed.

Lemma extract_current_audited doc now (st st2 : State) (events : list AuditEvent) :
  audited st st2 events ->
  exists events', audited st (extract_current matchers doc now st2) events'.
Proof.
  intros Haud.
  destruct (extract_current_audit doc now st2)
    as (Hj & Hsd & Hd & [-> | (v & e & Hin & Hf & Ha & He)]).
  - exists events. exact Haud.
  - exists (events ++ [e]). eapply audited_facts; eassumption.
Qed.

Lemma process_document_audited job doc about sourceUrl domain bundle now failures st :
  exists events,
    audited st
      (snd (process_document canonicalize sha256 matchers job doc about sourceUrl domain
              bundle now failures st)) events.
Proof.
  unfold process_document.
  destruct (jobs st !! job) as [j |]; [| exists []; apply audited_refl].
  destruct (runnable j); [| exists []; apply audited_refl].
  destruct (preserve_audited (job_site j) sourceUrl domain now "1.0.0" bundle failures st)
    as (e & Hp).
  pose proof (preserve_spec canonicalize sha256 (job_site j) sourceUrl domain now "1.0.0"
                bundle failures st) as Hspec.
  cbv zeta in Hspec. destruct Hspec as (_ & _ & _ & _ & Hd & _).
  destruct (preserve canonicalize sha256 (job_site j) sourceUrl domain now "1.0.0" bundle
              failures st) as [sd_id st1].
  cbn [fst snd] in *.
  assert (Htail : forall (o : DocOutcome) (st3 : State) (events : list AuditEvent),
             audited st st3 events ->
             exists events', audited st (snd (record_outcome job (o, st3))) events').
  { intros o st3 events H. exists events. eapply audited_tail; [exact H | ..];
      try reflexivity. intros k. apply record_outcome_status. }
  destruct (is_preserved sd_id st1); [| eapply Htail; exact Hp].
  unfold version_and_extract.
  destruct (apply_capture_audited doc about sd_id (primary bundle) now st st1 [e] Hp Hd)
    as (events2 & H2).
  destruct (apply_capture doc about sd_id (primary bundle) now st1) as [outcome st2].
  cbn [snd] in H2.
  destruct outcome; try (eapply Htail; exact H2).
  destruct (extract_current_audited doc now st st2 events2 H2) as (events3 & H3).
  eapply Htail. exact H3.
Qed.

(** Every operation of the pipeline appends its events to the audit
    sink, each for a mutation it performed, and one for each. *)
Lemma step_audited (op : Op) (st : State) :
  exists events, audited st (step canonicalize sha256 matchers op st) events.
Proof.
  destruct op; cbn [step].
  - exists []. destruct (sites st !! site); apply audited_nothing; reflexivity.
  - exists []. destruct (sites st !! site); apply audited_nothing; reflexivity.
  - apply runJob_audited.
  - exists []. apply cancelJob_audited.
  - apply finishJob_audited.
  - apply process_document_audited.
  - destruct (preserve_audited site sourceUrl domain fetched "1.0.0" bundle failures st)
      as (e & H). exists [e]. exact H.
  - apply (apply_capture_audited doc about sd_id text now st st [] (audited_refl st)).
    reflexivity.
  - apply (extract_current_audited doc now st st [] (audited_refl st)).
Qed.

(** In the pipeline of the specification, every operation of a core
    component appends its events to the audit sink itself: what a step
    adds to the sink are events for mutations performed in this very
    step (a source document added, a version added, the facts of a
    version stored, a job given a new status), every such mutation has
    its event, and the storage interface ([put]) never touches the
    sink. *)
Lemma operations_emit_their_audit_events (op : Op) (st : State) :
  audit (step canonicalize sha256 matchers op st)
  = audit st ++ emitted st (step canonicalize sha256 matchers op st)
  /\ Forall (performed st (step canonicalize sha256 matchers op st))
            (emitted st (step canonicalize sha256 matchers op st))
  /\ all_recorded st (step canonicalize sha256 matchers op st)
       (emitted st (step canonicalize sha256 matchers op st))
  /\ (forall path bytes rejected, audit (snd (put path bytes rejected st)) = audit st).
Proof.
  destruct (step_audited op st) as (events & Ha & Hp & Hr).
  rewrite (emitted_app _ _ _ Ha).
  split; [exact Ha |]. split; [exact Hp |]. split; [exact Hr |].
  intros path bytes rejected. unfold put. destruct rejected; reflexivity.
Qed.

End AuditFacts.

Section AuditExamples.
Import Pipeline PipelineClaims PipelineExamples AuditClaims.

(** Scenario A: the capture of a page whose content is new adds the
    events of the Preserver, of the Version Manager and of the
    Extractor, in this order. *)
Lemma capture_emits_its_events :
  event_kind <$> emitted job_running captured_once
  = ["source_preserved"; "version_created"; "facts_extracted"]
  /\ Forall (performed job_running captured_once) (emitted job_running captured_once)
  /\ all_recorded job_running captured_once (emitted job_running captured_once).
Proof.
  split; [vm_compute; reflexivity |].
  destruct (operations_emit_their_audit_events keep_text keep_text no_matchers
              (ProcessDocument 0 5%N adu_bylaw "https://www.toronto.ca/bylaws/2024-001"
                 "www.toronto.ca" adu_page 110 [])
              job_running)
    as (_ & Hperformed & Hrecorded & _).
  split; [exact Hperformed | exact Hrecorded].
Qed.

End AuditExamples.

Section SchemaInvariantFacts.
Import Schema SchemaClaims SchemaInvariants.

Lemma table_eq_dec (t t' : table) : {t = t'} + {t <> t'}.
Proof. decide equality. Qed.

Lemma get_set_same (t : table) (m : gmap N (row_of t)) (db : DB) :
  get_tbl t (set_tbl t m db) = m.
Proof. destruct t; reflexivity. Qed.

Lemma get_set_other (t t' : table) (m : gmap N (row_of t)) (db : DB) :
  t <> t' -> get_tbl t' (set_tbl t m db) = get_tbl t' db.
Proof. destruct t, t'; simpl; congruence. Qed.

Lemma get_set_audit_log (t : table) (log : list AuditLog.row) (db : DB) :
  get_tbl t (set_audit_log log db) = get_tbl t db.
Proof. destruct t; reflexivity. Qed.

Lemma ref_ok_mono {R : Type} (parent parent' : gmap N R) (fk : option N) :
  (forall k, is_Some (parent !! k) -> is_Some (parent' !! k)) ->
  ref_ok parent fk = true -> ref_ok parent' fk = true.
Proof.
  intros Hsub. destruct fk as [k |]; [| reflexivity]. simpl.
  destruct (parent !! k) eqn:E; [| discriminate].
  destruct (Hsub k) as [x ->]; eauto.
Qed.

(** The foreign keys of a row only look at which keys exist. *)
Lemma fks_ok_mono (t : table) (db db' : DB) (r : row_of t) :
  (forall t' k, is_Some (get_tbl t' db !! k) -> is_Some (get_tbl t' db' !! k)) ->
  fks_ok t db r = true -> fks_ok t db' r = true.
Proof.
  intros Hsub.
  pose proof (Hsub t_municipalities) as Hm.
  pose proof (Hsub t_source_documents) as Hsd.
  pose proof (Hsub t_bylaws) as Hb.
  pose proof (Hsub t_bylaw_versions) as Hv.
  pose proof (Hsub t_scraping_configs) as Hc.
  simpl in Hm, Hsd, Hb, Hv, Hc.
  destruct t; simpl; rewrite ?andb_true_iff; intros H;
    repeat match goal with
           | H : _ /\ _ |- _ => destruct H
           | |- _ /\ _ => split
           end;
    try reflexivity; eapply ref_ok_mono; eauto.
Qed.


Lemma forallb_map_to_list {R : Type} (f : N * R -> bool) (m : gmap N R) :
  forallb f (map_to_list m) = true <-> (forall k r, m !! k = Some r -> f (k, r) = true).
Proof.
  rewrite forallb_forall. split.
  - intros H k r Hk. apply H, list_elem_of_In, elem_of_map_to_list. exact Hk.
  - intros H [k r] Hin. apply H, elem_of_map_to_list, list_elem_of_In. exact Hin.
Qed.

Lemma lookup_set_insert (t t' : table) (id id' : N) (r : row_of t) (r' : row_of t') (db : DB) :
  get_tbl t' (set_tbl t (<[id := r]> (get_tbl t db)) db) !! id' = Some r' ->
  get_tbl t' db !! id' = Some r' /\ (t = t' -> id <> id')
  \/ exists e : t = t', id = id' /\ r' = eq_rect t row_of r t' e.
Proof.
  destruct (table_eq_dec t t') as [e | n].
  - destruct e. rewrite get_set_same. destruct (decide (id = id')) as [-> | n].
    + rewrite lookup_insert_eq. intros [= <-]. right. exists eq_refl. auto.
    + rewrite lookup_insert_ne by exact n. left. auto.
  - rewrite get_set_other by exact n. left. split; [assumption | contradiction].
Qed.

Lemma keys_kept_by_insert (t : table) (id : N) (r : row_of t) (db : DB) (t' : table) (k : N) :
  is_Some (get_tbl t' db !! k) ->
  is_Some (get_tbl t' (set_tbl t (<[id := r]> (get_tbl t db)) db) !! k).
Proof.
  destruct (table_eq_dec t t') as [e | n].
  - destruct e. rewrite get_set_same. destruct (decide (id = k)) as [-> | n].
    + rewrite lookup_insert_eq. eauto.
    + rewrite lookup_insert_ne by exact n. auto.
  - rewrite get_set_other by exact n. auto.
Qed.

Lemma fks_ok_set_audit_log (t : table) (log : list AuditLog.row) (db : DB) (r : row_of t) :
  fks_ok t (set_audit_log log db) r = fks_ok t db r.
Proof. destruct t; reflexivity. Qed.

(** Writing a row whose own references resolve keeps all references
    resolved. *)
Lemma integrity_after_write (t : table) (id : N) (r : row_of t) (log : list AuditLog.row)
    (db : DB) :
  referential_integrity db ->
  fks_ok t (set_tbl t (<[id := r]> (get_tbl t db)) db) r = true ->
  referential_integrity (set_audit_log log (set_tbl t (<[id := r]> (get_tbl t db)) db)).
Proof.
  intros Hdb Hr t' id' r'. rewrite get_set_audit_log, fks_ok_set_audit_log. intros Hin.
  apply lookup_set_insert in Hin as [[Hin _] | [e [_ ->]]].
  - eapply fks_ok_mono; [| exact (Hdb _ _ _ Hin)]. apply keys_kept_by_insert.
  - destruct e. exact Hr.
Qed.


Lemma ref_ok_remove {R : Type} (parent : gmap N R) (dead : gset N) (fk : option N) :
  ref_ok parent fk = true -> refers dead fk = false -> ref_ok (remove dead parent) fk = true.
Proof.
  destruct fk as [k |]; [| reflexivity]. intros Hok Hno.
  apply ref_ok_Some in Hok as [x Hx].
  assert (Hk : k ∉ dead) by (intros Hin; apply refers_elem in Hin; congruence).
  simpl. assert (H : remove dead parent !! k = Some x) by (apply lookup_remove; auto).
  rewrite H. reflexivity.
Qed.

(** A row that survives a cascading delete does not reference a deleted
    parent through a cascading key. *)
Lemma survivor_not_cascaded {R : Type} (fk : R -> option N) (dead extra : gset N)
    (m : gmap N R) (k : N) (r : R) :
  m !! k = Some r ->
  k ∉ extra ∪ keys_where (fun r => refers dead (fk r)) m ->
  refers dead (fk r) = false.
Proof.
  intros Hk Hout. destruct (refers dead (fk r)) eqn:E; [| reflexivity].
  exfalso. apply Hout, elem_of_union_r, elem_of_keys_where. eauto.
Qed.

Lemma lookup_swept_jobs (d : Dead) (db : DB) (k : N) (r : ScrapingJob.row) :
  scraping_jobs (sweep d db) !! k = Some r ->
  exists j, r = config_set_null (dead_scraping_configs d) j
            /\ scraping_jobs db !! k = Some j /\ k ∉ dead_scraping_jobs d.
Proof.
  simpl. rewrite lookup_fmap. intros H.
  apply fmap_Some in H as (j & Hj & ->). apply lookup_remove in Hj as [Hj Hk]. eauto.
Qed.

Lemma ref_ok_config_set_null (dead : gset N) (configs : gmap N ScrapingConfig.row)
    (j : ScrapingJob.row) :
  ref_ok configs (ScrapingJob.config_id j) = true ->
  ref_ok (remove dead configs) (ScrapingJob.config_id (config_set_null dead j)) = true.
Proof.
  intros Hok. unfold config_set_null.
  destruct (refers dead (ScrapingJob.config_id j)) eqn:E; [reflexivity |].
  apply ref_ok_remove; assumption.
Qed.

(** A cascading delete that passes the NO ACTION check leaves no
    dangling reference. *)
Lemma integrity_after_sweep (d : Dead) (db : DB) :
  referential_integrity db ->
  remaining_ok (cascade db d) (sweep (cascade db d) db) = true ->
  referential_integrity (sweep (cascade db d) db).
Proof.
  intros Hdb Hna. unfold remaining_ok in Hna.
  apply andb_true_iff in Hna as [Hby Hbv].
  rewrite forallb_map_to_list in Hby. rewrite forallb_map_to_list in Hbv.
  intros t id r Hin. destruct t.
  - reflexivity.
  - simpl in Hin. apply lookup_remove in Hin as [Hin Hout].
    pose proof (Hdb t_source_documents _ _ Hin) as Hok. simpl in Hok |- *.
    apply ref_ok_remove; [exact Hok |].
    eapply survivor_not_cascaded; [exact Hin | exact Hout].
  - pose proof (Hby _ _ Hin) as Hno. simpl in Hno.
    apply andb_true_iff in Hno as [Hno1 Hno2].
    apply negb_true_iff in Hno1, Hno2.
    simpl in Hin. apply lookup_remove in Hin as [Hin Hout].
    pose proof (Hdb t_bylaws _ _ Hin) as Hok. simpl in Hok |- *.
    apply andb_true_iff in Hok as [Hok Hok3]. apply andb_true_iff in Hok as [Hok1 Hok2].
    rewrite !andb_true_iff. repeat split.
    + apply ref_ok_remove; [exact Hok1 |].
      eapply survivor_not_cascaded; [exact Hin | exact Hout].
    + apply ref_ok_remove; [exact Hok2 | exact Hno1].
    + apply ref_ok_remove; [exact Hok3 | exact Hno2].
  - pose proof (Hbv _ _ Hin) as Hno. simpl in Hno.
    apply andb_true_iff in Hno as [Hno1 Hno2].
    apply negb_true_iff in Hno1, Hno2.
    simpl in Hin. apply lookup_remove in Hin as [Hin Hout].
    pose proof (Hdb t_bylaw_versions _ _ Hin) as Hok. simpl in Hok |- *.
    apply andb_true_iff in Hok as [Hok Hok3]. apply andb_true_iff in Hok as [Hok1 Hok2].
    rewrite !andb_true_iff. repeat split.
    + apply ref_ok_remove; [exact Hok1 |].
      eapply survivor_not_cascaded; [exact Hin | exact Hout].
    + apply ref_ok_remove; [exact Hok2 | exact Hno1].
    + apply ref_ok_remove; [exact Hok3 | exact Hno2].
  - simpl in Hin. apply lookup_remove in Hin as [Hin Hout].
    pose proof (Hdb t_adu_requirements _ _ Hin) as Hok. simpl in Hok |- *.
    apply ref_ok_remove; [exact Hok |].
    eapply survivor_not_cascaded; [exact Hin | exact Hout].
  - simpl in Hin. apply lookup_remove in Hin as [Hin Hout].
    pose proof (Hdb t_scraping_configs _ _ Hin) as Hok. simpl in Hok |- *.
    apply ref_ok_remove; [exact Hok |].
    eapply survivor_not_cascaded; [exact Hin | exact Hout].
  - apply lookup_swept_jobs in Hin as (j & -> & Hin & Hout).
    pose proof (Hdb t_scraping_jobs _ _ Hin) as Hok. simpl in Hok |- *.
    apply andb_true_iff in Hok as [Hok1 Hok2].
    rewrite andb_true_iff. split.
    + rewrite config_set_null_municipality.
      apply ref_ok_remove; [exact Hok1 |].
      eapply survivor_not_cascaded; [exact Hin | exact Hout].
    + apply ref_ok_config_set_null. exact Hok2.
Qed.

Lemma referential_integrity_set_audit_log (log : list AuditLog.row) (db : DB) :
  referential_integrity db -> referential_integrity (set_audit_log log db).
Proof.
  intros H t id r. rewrite get_set_audit_log, fks_ok_set_audit_log. apply H.
Qed.

Lemma referential_integrity_empty : referential_integrity empty_db.
Proof. intros t id r. destruct t; simpl; rewrite lookup_empty; discriminate. Qed.

Lemma integrity_after_statement (script : SetupScript) (s : Session) (stmt : Stmt) (db : DB) :
  referential_integrity db -> referential_integrity (after script s stmt db).
Proof.
  intros Hdb. unfold after.
  destruct (exec script s stmt db) as [db' |] eqn:E; [| exact Hdb].
  destruct stmt as [t id r | t id r | t id]; simpl in E.
  - unfold insert_row in E. destruct (get_tbl t db !! id); [discriminate |].
    cbv zeta in E. destruct (unique_ok t db id r); [| discriminate]. simpl in E.
    destruct (fks_ok t _ r) eqn:F; [| discriminate]. simpl in E.
    injection E as <-. apply integrity_after_write; assumption.
  - unfold update_row in E. destruct (get_tbl t db !! id); [| injection E as <-; exact Hdb].
    cbv zeta in E. destruct (unique_ok t db id _); [| discriminate]. simpl in E.
    destruct (fks_ok t _ _) eqn:F; [| discriminate]. simpl in E.
    injection E as <-. apply integrity_after_write; assumption.
  - unfold delete_row in E. destruct (get_tbl t db !! id); [| injection E as <-; exact Hdb].
    cbv zeta in E. destruct (no_action_ok _ _ _) eqn:F; [| discriminate].
    injection E as <-. apply referential_integrity_set_audit_log.
    unfold no_action_ok in F. apply andb_true_iff in F as [F _].
    apply integrity_after_sweep; assumption.
Qed.

(** X1.  Referential integrity is an invariant of the schema: if every
    foreign key of every row resolves, it still does after any sequence
    of INSERT, UPDATE and DELETE statements, whether they succeed, fail,
    or delete through ON DELETE CASCADE and ON DELETE SET NULL. *)
Theorem statements_keep_referential_integrity (script : SetupScript) (s : Session)
    (stmts : list Stmt) (db : DB) :
  referential_integrity db -> referential_integrity (run script s stmts db).
Proof.
  unfold run. revert db. induction stmts as [| stmt stmts IH]; intros db Hdb; simpl.
  - exact Hdb.
  - apply IH, integrity_after_statement, Hdb.
Qed.

Lemma statements_keep_referential_integrity_witness :
  referential_integrity
    (run full_schema SchemaExamples.admin_session
       [ Insert t_municipalities 1%N SchemaExamples.toronto;
         Insert t_bylaws 2%N SchemaExamples.adu_bylaw;
         Insert t_bylaw_versions 3%N SchemaExamples.first_version;
         Insert t_scraping_jobs 10%N SchemaExamples.finished_job;
         Delete t_municipalities 1%N ]
       empty_db).
Proof.
  apply statements_keep_referential_integrity. exact referential_integrity_empty.
Defined.

Lemma same_unique_key_sym (t : table) (a b : row_of t) :
  same_unique_key t a b = same_unique_key t b a.
Proof.
  assert (Hopt : forall x y, option_N_eqb x y = option_N_eqb y x).
  { intros [x |] [y |]; simpl; try reflexivity. apply N.eqb_sym. }
  destruct t; simpl; try reflexivity.
  - rewrite (String.eqb_sym (Municipality.name a)).
    rewrite (String.eqb_sym (Municipality.province a)). reflexivity.
  - rewrite Hopt, (Z.eqb_sym (BylawVersion.version_number a)). reflexivity.
  - apply Hopt.
Qed.

Lemma unique_ok_spec (t : table) (db : DB) (id : N) (r : row_of t) :
  unique_ok t db id r = true <->
  (forall k row, get_tbl t db !! k = Some row -> k <> id -> same_unique_key t r row = false).
Proof.
  unfold unique_ok. rewrite forallb_map_to_list. split.
  - intros H k row Hk Hne. specialize (H k row Hk). simpl in H.
    apply orb_true_iff in H as [H | H].
    + apply N.eqb_eq in H. contradiction.
    + apply negb_true_iff in H. exact H.
  - intros H k row Hk. simpl. destruct (N.eqb_spec k id) as [-> | Hne]; [reflexivity |].
    simpl. rewrite (H k row Hk Hne). reflexivity.
Qed.

Lemma uniqueness_set_audit_log (log : list AuditLog.row) (db : DB) :
  uniqueness db -> uniqueness (set_audit_log log db).
Proof. intros H t id1 id2 r1 r2. rewrite !get_set_audit_log. apply H. Qed.

(** Writing a row that collides with no other row keeps the UNIQUE
    constraints. *)
Lemma uniqueness_after_write (t : table) (id : N) (r : row_of t) (db : DB) :
  uniqueness db ->
  unique_ok t db id r = true ->
  uniqueness (set_tbl t (<[id := r]> (get_tbl t db)) db).
Proof.
  intros Hdb Hr. rewrite unique_ok_spec in Hr.
  intros t' id1 id2 r1 r2.
  destruct (table_eq_dec t t') as [e | n].
  - destruct e. rewrite get_set_same.
    destruct (decide (id = id1)) as [<- | n1]; destruct (decide (id = id2)) as [<- | n2];
      rewrite ?lookup_insert_eq, ?lookup_insert_ne by assumption.
    + reflexivity.
    + intros [= <-] H2 Hsame. rewrite (Hr id2 r2 H2) in Hsame by congruence. discriminate.
    + intros H1 [= <-] Hsame. rewrite same_unique_key_sym in Hsame.
      rewrite (Hr id1 r1 H1) in Hsame by congruence. discriminate.
    + apply Hdb.
  - rewrite get_set_other by exact n. apply Hdb.
Qed.

Lemma uniqueness_after_sweep (d : Dead) (db : DB) : uniqueness db -> uniqueness (sweep d db).
Proof.
  intros Hdb t id1 id2 r1 r2 H1 H2.
  destruct t; simpl in H1, H2; try discriminate;
    apply lookup_remove in H1 as [H1 _]; apply lookup_remove in H2 as [H2 _].
  - exact (Hdb t_municipalities _ _ _ _ H1 H2).
  - exact (Hdb t_bylaw_versions _ _ _ _ H1 H2).
  - exact (Hdb t_scraping_configs _ _ _ _ H1 H2).
Qed.

Lemma uniqueness_after_statement (script : SetupScript) (s : Session) (stmt : Stmt) (db : DB) :
  uniqueness db -> uniqueness (after script s stmt db).
Proof.
  intros Hdb. unfold after.
  destruct (exec script s stmt db) as [db' |] eqn:E; [| exact Hdb].
  destruct stmt as [t id r | t id r | t id]; simpl in E.
  - unfold insert_row in E. destruct (get_tbl t db !! id); [discriminate |].
    cbv zeta in E. destruct (unique_ok t db id r) eqn:U; [| discriminate]. simpl in E.
    destruct (fks_ok t _ r); [| discriminate]. simpl in E.
    injection E as <-. apply uniqueness_set_audit_log, uniqueness_after_write; assumption.
  - unfold update_row in E. destruct (get_tbl t db !! id); [| injection E as <-; exact Hdb].
    cbv zeta in E. destruct (unique_ok t db id _) eqn:U; [| discriminate]. simpl in E.
    destruct (fks_ok t _ _); [| discriminate]. simpl in E.
    injection E as <-. apply uniqueness_set_audit_log, uniqueness_after_write; assumption.
  - unfold delete_row in E. destruct (get_tbl t db !! id); [| injection E as <-; exact Hdb].
    cbv zeta in E. destruct (no_action_ok _ _ _); [| discriminate].
    injection E as <-. apply uniqueness_set_audit_log, uniqueness_after_sweep, Hdb.
Qed.

Lemma uniqueness_empty : uniqueness empty_db.
Proof. intros t id1 id2 r1 r2. destruct t; simpl; rewrite lookup_empty; discriminate. Qed.

(** X2.  The UNIQUE constraints are invariants of the schema: after any
    sequence of statements no two municipalities share name and
    province, no two versions of a bylaw share a version number, and no
    municipality has two scraping configurations. *)
Theorem statements_keep_uniqueness (script : SetupScript) (s : Session)
    (stmts : list Stmt) (db : DB) :
  uniqueness db ->
  let db' := run script s stmts db in
  (forall id1 id2 m1 m2,
      municipalities db' !! id1 = Some m1 -> municipalities db' !! id2 = Some m2 ->
      Municipality.name m1 = Municipality.name m2 ->
      Municipality.province m1 = Municipality.province m2 -> id1 = id2)
  /\ (forall id1 id2 v1 v2 bylaw,
         bylaw_versions db' !! id1 = Some v1 -> bylaw_versions db' !! id2 = Some v2 ->
         BylawVersion.bylaw_id v1 = Some bylaw -> BylawVersion.bylaw_id v2 = Some bylaw ->
         BylawVersion.version_number v1 = BylawVersion.version_number v2 -> id1 = id2)
  /\ (forall id1 id2 c1 c2 site,
         scraping_configs db' !! id1 = Some c1 -> scraping_configs db' !! id2 = Some c2 ->
         ScrapingConfig.municipality_id c1 = Some site ->
         ScrapingConfig.municipality_id c2 = Some site -> id1 = id2)
  /\ uniqueness db'.
Proof.
  intros Hdb db'.
  assert (H : uniqueness db').
  { subst db'. unfold run. revert db Hdb.
    induction stmts as [| stmt stmts IH]; intros db Hdb; simpl.
    - exact Hdb.
    - apply IH, uniqueness_after_statement, Hdb. }
  repeat split; [| | | exact H].
  - intros id1 id2 m1 m2 H1 H2 Hn Hp. apply (H t_municipalities _ _ _ _ H1 H2).
    simpl. rewrite Hn, Hp, !String.eqb_refl. reflexivity.
  - intros id1 id2 v1 v2 b H1 H2 Hb1 Hb2 Hv. apply (H t_bylaw_versions _ _ _ _ H1 H2).
    simpl. rewrite Hb1, Hb2, Hv. simpl. rewrite N.eqb_refl, Z.eqb_refl. reflexivity.
  - intros id1 id2 c1 c2 site H1 H2 Hc1 Hc2. apply (H t_scraping_configs _ _ _ _ H1 H2).
    simpl. rewrite Hc1, Hc2. simpl. apply N.eqb_refl.
Qed.

Lemma statements_keep_uniqueness_witness :
  uniqueness
    (run full_schema SchemaExamples.admin_session
       [ Insert t_municipalities 1%N SchemaExamples.toronto;
         Insert t_municipalities 2%N SchemaExamples.toronto;
         Update t_municipalities 1%N SchemaExamples.toronto ]
       empty_db).
Proof.
  apply (statements_keep_uniqueness full_schema SchemaExamples.admin_session
           [ Insert t_municipalities 1%N SchemaExamples.toronto;
             Insert t_municipalities 2%N SchemaExamples.toronto;
             Update t_municipalities 1%N SchemaExamples.toronto ] empty_db).
  exact uniqueness_empty.
Defined.


Lemma refers_empty (fk : option N) : refers ∅ fk = false.
Proof. destruct fk as [k |]; [| reflexivity]. simpl. apply bool_decide_eq_false. set_solver. Qed.

Lemma remove_empty {R : Type} (m : gmap N R) : remove ∅ m = m.
Proof. unfold remove. apply map_filter_id. intros i x _. simpl. set_solver. Qed.

Lemma config_set_null_empty (m : gmap N ScrapingJob.row) : config_set_null ∅ <$> m = m.
Proof.
  apply map_eq. intros k. rewrite lookup_fmap. destruct (m !! k) as [j |]; [| reflexivity].
  simpl. unfold config_set_null. rewrite refers_empty. reflexivity.
Qed.

Lemma remove_singleton {R : Type} (id : N) (m : gmap N R) : remove {[ id ]} m = delete id m.
Proof.
  apply map_eq. intros k. apply option_eq. intros r. rewrite lookup_remove.
  rewrite lookup_delete_Some, not_elem_of_singleton.
  split; intros [H1 H2]; split; auto.
Qed.

(** Deleting a source document cascades nowhere. *)
Lemma cascade_source_document (db : DB) (id : N) :
  cascade db (target t_source_documents id)
  = {| dead_municipalities := ∅; dead_source_documents := {[ id ]}; dead_bylaws := ∅;
       dead_bylaw_versions := ∅; dead_adu_requirements := ∅; dead_scraping_configs := ∅;
       dead_scraping_jobs := ∅ |}.
Proof.
  unfold cascade, target. cbn [dead_municipalities dead_source_documents dead_bylaws
    dead_bylaw_versions dead_adu_requirements dead_scraping_configs dead_scraping_jobs].
  rewrite (keys_where_refers_empty SourceDocument.municipality_id).
  rewrite !(keys_where_refers_empty Bylaw.municipality_id).
  rewrite (keys_where_refers_empty ScrapingConfig.municipality_id).
  rewrite (keys_where_refers_empty ScrapingJob.municipality_id).
  rewrite !(left_id_L ∅ (∪)), (right_id_L ∅ (∪)).
  rewrite !(keys_where_refers_empty BylawVersion.bylaw_id).
  rewrite ?(left_id_L ∅ (∪)).
  rewrite (keys_where_refers_empty AduRequirement.bylaw_version_id).
  reflexivity.
Qed.

Lemma forallb_false {A : Type} (f : A -> bool) (l : list A) :
  forallb f l = false <-> exists x, In x l /\ f x = false.
Proof.
  induction l as [| a l IH]; simpl.
  - split; [discriminate | intros (x & [] & _)].
  - rewrite andb_false_iff, IH. split.
    + intros [H | (x & Hx & Hf)]; eauto.
    + intros (x & [<- | Hx] & Hf); eauto.
Qed.

Lemma forallb_map_to_list_false {R : Type} (f : N * R -> bool) (m : gmap N R) :
  forallb f (map_to_list m) = false <-> exists k r, m !! k = Some r /\ f (k, r) = false.
Proof.
  rewrite forallb_false. split.
  - intros ([k r] & Hin & Hf). exists k, r. split; [| exact Hf].
    apply elem_of_map_to_list, list_elem_of_In. exact Hin.
  - intros (k & r & Hk & Hf). exists (k, r). split; [| exact Hf].
    apply list_elem_of_In, elem_of_map_to_list. exact Hk.
Qed.

Lemma refers_singleton (id : N) (fk : option N) : refers {[ id ]} fk = true <-> fk = Some id.
Proof.
  destruct fk as [k |]; simpl.
  - rewrite bool_decide_eq_true. set_solver.
  - split; discriminate.
Qed.

Lemma delete_row_present (script : SetupScript) (s : Session) (t : table) (id : N)
    (r : row_of t) (db : DB) :
  get_tbl t db !! id = Some r ->
  delete_row script s t id db
  = let d := cascade db (target t id) in
    let db' := sweep d db in
    if no_action_ok d db db' then
      Done (set_audit_log (fire_delete_audits script s d db (audit_log db')) db')
    else Failed foreign_key_violation.
Proof. intros H. unfold delete_row. rewrite H. reflexivity. Qed.

(** The NO ACTION checks of the DELETE of one source document. *)
Lemma no_action_ok_source_document (d : Dead) (db db' : DB) (id : N) :
  dead_source_documents d = {[ id ]} ->
  dead_bylaws d = ∅ -> dead_bylaw_versions d = ∅ ->
  bylaws db' = bylaws db -> bylaw_versions db' = bylaw_versions db ->
  no_action_ok d db db' = true <-> ~ cited db id.
Proof.
  intros Hd Hb Hv Eb Ev. unfold no_action_ok, remaining_ok, documents_unused.
  rewrite Hd, Hb, Hv, Eb, Ev. split.
  - intros E Hc. apply andb_true_iff in E as [E _]. apply andb_true_iff in E as [E1 E2].
    rewrite forallb_map_to_list in E1. rewrite forallb_map_to_list in E2.
    destruct Hc as [(b & row & Hrow & Hfk) | (v & row & Hrow & Hfk)].
    + specialize (E1 _ _ Hrow). simpl in E1. rewrite Hfk in E1. simpl in E1.
      rewrite bool_decide_eq_true_2 in E1 by set_solver. discriminate.
    + specialize (E2 _ _ Hrow). simpl in E2. rewrite Hfk in E2. simpl in E2.
      rewrite bool_decide_eq_true_2 in E2 by set_solver. discriminate.
  - intros Hc.
    repeat (apply andb_true_iff; split); apply forallb_map_to_list; intros k row Hk;
      simpl; rewrite ?refers_empty, ?andb_true_r;
      apply negb_true_iff, not_true_is_false; intros Hr; apply refers_singleton in Hr;
      apply Hc; [left | right | right]; eauto.
Qed.

Lemma no_action_fails_source_document (d : Dead) (db db' : DB) (id : N) :
  dead_source_documents d = {[ id ]} ->
  dead_bylaws d = ∅ -> dead_bylaw_versions d = ∅ ->
  bylaws db' = bylaws db -> bylaw_versions db' = bylaw_versions db ->
  no_action_ok d db db' = false -> cited db id.
Proof.
  intros Hd Hb Hv Eb Ev. unfold no_action_ok, remaining_ok, documents_unused.
  rewrite Hd, Hb, Hv, Eb, Ev. intros E.
  apply andb_false_iff in E as [E | E]; [apply andb_false_iff in E as [E | E] |];
    apply forallb_map_to_list_false in E as (k & row & Hk & Hf); simpl in Hf;
    rewrite ?refers_empty, ?andb_true_r in Hf;
    apply negb_false_iff, refers_singleton in Hf; [left | right | right]; eauto.
Qed.

(** X3.  A source document that a bylaw or a bylaw version cites cannot
    be deleted: the DELETE fails with a foreign-key violation exactly
    when the document is cited.  An uncited document is removed alone;
    every other row of the database stays as it was. *)
Theorem source_document_delete (script : SetupScript) (s : Session) (db : DB) (id : N)
    (doc : SourceDocument.row) :
  source_documents db !! id = Some doc ->
  (exec script s (Delete t_source_documents id) db = Failed foreign_key_violation
   <-> cited db id)
  /\ (forall db', exec script s (Delete t_source_documents id) db = Done db' ->
        same_rows db' (set_tbl t_source_documents (delete id (source_documents db)) db)).
Proof.
  intros Hdoc. unfold exec.
  rewrite (delete_row_present script s t_source_documents id doc db Hdoc). cbv zeta.
  rewrite cascade_source_document.
  assert (Hsweep : forall d, d = {| dead_municipalities := ∅; dead_source_documents := {[ id ]};
       dead_bylaws := ∅; dead_bylaw_versions := ∅; dead_adu_requirements := ∅;
       dead_scraping_configs := ∅; dead_scraping_jobs := ∅ |} ->
     sweep d db
     = set_tbl t_source_documents (delete id (source_documents db)) db).
  { intros d ->. unfold sweep. simpl.
    rewrite !remove_empty, remove_singleton, config_set_null_empty. reflexivity. }
  rewrite (Hsweep _ eq_refl).
  pose proof (no_action_ok_source_document
                {| dead_municipalities := ∅; dead_source_documents := {[ id ]};
                   dead_bylaws := ∅; dead_bylaw_versions := ∅; dead_adu_requirements := ∅;
                   dead_scraping_configs := ∅; dead_scraping_jobs := ∅ |} db
                (set_tbl t_source_documents (delete id (source_documents db)) db) id
                eq_refl eq_refl eq_refl eq_refl eq_refl) as Hspec.
  destruct (no_action_ok _ db _) eqn:E.
  - split.
    + split; [discriminate |]. intros Hc. exfalso. apply Hspec; [reflexivity | exact Hc].
    + intros db' [= <-]. intros t. rewrite get_set_audit_log. reflexivity.
  - split; [| discriminate]. split; [intros _ | reflexivity].
    eapply no_action_fails_source_document; [.. | exact E]; reflexivity.
Qed.


Lemma source_document_delete_witness :
  exec full_schema SchemaExamples.admin_session (Delete t_source_documents 5%N) cited_db
  = Failed foreign_key_violation.
Proof.
  apply (source_document_delete full_schema SchemaExamples.admin_session cited_db 5%N scraped_page).
  - vm_compute. reflexivity.
  - right. exists 3%N, cited_version. split; vm_compute; reflexivity.
Defined.

Lemma lookup_remove_keys_where {R : Type} (p : R -> bool) (m : gmap N R) (k : N) (r : R) :
  remove (∅ ∪ keys_where p m) m !! k = Some r <-> m !! k = Some r /\ p r = false.
Proof.
  rewrite lookup_remove, (left_id_L ∅ (∪)), elem_of_keys_where. split.
  - intros [Hk Hout]. split; [exact Hk |].
    destruct (p r) eqn:E; [| reflexivity]. exfalso. apply Hout. eauto.
  - intros [Hk Hp]. split; [exact Hk |].
    intros (r' & Hk' & Hp'). congruence.
Qed.

Lemma refers_keys_where {R : Type} (p : R -> bool) (m : gmap N R) (fk : option N) :
  refers (∅ ∪ keys_where p m) fk = true
  <-> exists k r, fk = Some k /\ m !! k = Some r /\ p r = true.
Proof.
  destruct fk as [k |].
  - rewrite refers_elem, (left_id_L ∅ (∪)), elem_of_keys_where. split.
    + intros (r & Hk & Hp). eauto.
    + intros (k' & r & [= <-] & Hk & Hp). eauto.
  - split; [discriminate | intros (k & r & H & _); discriminate].
Qed.

Lemma not_true_false (b : bool) : b = false <-> ~ b = true.
Proof. destruct b; split; congruence. Qed.

(** X4.  A municipality cannot be deleted while a bylaw version cites one
    of its source documents, be it a version of one of its own bylaws:
    the DELETE fails with a foreign-key violation, because the
    reference of the version to the document is checked before the
    versions are removed.  A DELETE that succeeds destroys the whole
    legislative record of the municipality and nothing else: what is
    left of the source documents and bylaws are exactly those of other
    municipalities, and what is left of the bylaw versions and
    extracted requirements are exactly those that do not belong to a
    bylaw of the deleted municipality. *)
Theorem municipality_delete_scope (script : SetupScript) (s : Session) (db : DB)
    (site : N) (m : Municipality.row) :
  municipalities db !! site = Some m ->
  ((exists doc page v version,
       source_documents db !! doc = Some page
       /\ SourceDocument.municipality_id page = Some site
       /\ bylaw_versions db !! v = Some version
       /\ BylawVersion.source_document_id version = Some doc) ->
   exec script s (Delete t_municipalities site) db = Failed foreign_key_violation)
  /\ (forall db',
        exec script s (Delete t_municipalities site) db = Done db' ->
        (forall k r, source_documents db' !! k = Some r
                     <-> source_documents db !! k = Some r
                         /\ SourceDocument.municipality_id r <> Some site)
        /\ (forall k r, bylaws db' !! k = Some r
                        <-> bylaws db !! k = Some r /\ Bylaw.municipality_id r <> Some site)
        /\ (forall k r, bylaw_versions db' !! k = Some r
                        <-> bylaw_versions db !! k = Some r /\ ~ version_of_site db site r)
        /\ (forall k r, adu_requirements db' !! k = Some r
                        <-> adu_requirements db !! k = Some r
                            /\ ~ requirement_of_site db site r)).
Proof.
  intros Hm. unfold exec.
  rewrite (delete_row_present script s t_municipalities site m db Hm). cbv zeta.
  split.
  - intros (doc & page & v & version & Hpage & Hsite & Hversion & Hcites).
    assert (Hunused : documents_unused (cascade db (target t_municipalities site)) db = false).
    { destruct (documents_unused _ db) eqn:E; [| reflexivity]. exfalso.
      unfold documents_unused in E. rewrite forallb_map_to_list in E.
      specialize (E _ _ Hversion). simpl in E. apply negb_true_iff in E.
      rewrite Hcites in E. simpl in E. apply bool_decide_eq_false in E. apply E.
      apply elem_of_union_r, elem_of_keys_where. exists page.
      split; [exact Hpage |]. apply refers_singleton. exact Hsite. }
    unfold no_action_ok. rewrite Hunused, andb_false_r. reflexivity.
  - intros db'. destruct (no_action_ok _ _ _); [| discriminate]. intros [= <-].
    assert (Hbylaw : forall r : Bylaw.row,
               refers {[ site ]} (Bylaw.municipality_id r) = true
               <-> Bylaw.municipality_id r = Some site).
    { intros r. apply refers_singleton. }
    assert (Hversion : forall r : BylawVersion.row,
               refers (∅ ∪ keys_where (fun b => refers {[ site ]} (Bylaw.municipality_id b))
                             (bylaws db)) (BylawVersion.bylaw_id r) = true
               <-> version_of_site db site r).
    { intros r. rewrite refers_keys_where. unfold version_of_site.
      split; intros (b & brow & H1 & H2 & H3); exists b, brow; repeat split;
        try assumption; apply Hbylaw; assumption. }
    simpl. split; [| split; [| split]]; intros k r; rewrite lookup_remove_keys_where;
      rewrite not_true_false.
    + rewrite refers_singleton. reflexivity.
    + rewrite Hbylaw. reflexivity.
    + rewrite Hversion. reflexivity.
    + rewrite refers_keys_where. unfold requirement_of_site.
      split; intros [H1 H2]; (split; [exact H1 |]); intros (v & vrow & H3 & H4 & H5);
        apply H2; exists v, vrow; repeat split; try assumption; apply Hversion; exact H5.
Qed.

Lemma municipality_delete_scope_witness :
  exec full_schema SchemaExamples.admin_session (Delete t_municipalities 1%N) cited_db
  = Failed foreign_key_violation
  /\ (bylaw_versions
        (after supabase_setup SchemaExamples.admin_session (Delete t_municipalities 1%N) uncited_db)
        !! 3%N
      = Some SchemaExamples.first_version
      <-> bylaw_versions uncited_db !! 3%N = Some SchemaExamples.first_version
          /\ ~ version_of_site uncited_db 1%N SchemaExamples.first_version).
Proof.
  split.
  - apply (municipality_delete_scope full_schema SchemaExamples.admin_session cited_db 1%N
             SchemaExamples.toronto); [vm_compute; reflexivity |].
    exists 5%N, scraped_page, 3%N, cited_version.
    split; [| split; [| split]]; vm_compute; reflexivity.
  - assert (Hm : municipalities uncited_db !! 1%N = Some SchemaExamples.toronto)
      by (vm_compute; reflexivity).
    assert (Hexec : exec supabase_setup SchemaExamples.admin_session (Delete t_municipalities 1%N)
                      uncited_db
                    = Done (after supabase_setup SchemaExamples.admin_session
                              (Delete t_municipalities 1%N) uncited_db))
      by (vm_compute; reflexivity).
    exact (proj1 (proj2 (proj2
             (proj2 (municipality_delete_scope supabase_setup SchemaExamples.admin_session
                       uncited_db 1%N SchemaExamples.toronto Hm) _ Hexec))) 3%N
             SchemaExamples.first_version).
Defined.

End SchemaInvariantFacts.

Section SchemaRoundTrip.
Import Schema SchemaClaims SchemaInvariants.

Lemma keys_where_none {R : Type} (p : R -> bool) (m : gmap N R) :
  (forall k r, m !! k = Some r -> p r = false) -> keys_where p m = ∅.
Proof.
  intros H. apply elem_of_equiv_empty_L. intros k Hk.
  apply elem_of_keys_where in Hk as (r & Hr & Hp). rewrite (H k r Hr) in Hp. discriminate.
Qed.

(** A reference that resolves does not point to a key that is not
    there. *)
Lemma ref_ok_fresh {R : Type} (parent : gmap N R) (fk : option N) (id : N) :
  parent !! id = None -> ref_ok parent fk = true -> refers {[ id ]} fk = false.
Proof.
  intros Hid Hok. destruct fk as [k |]; [| reflexivity]. simpl.
  apply bool_decide_eq_false. intros Hk. apply elem_of_singleton in Hk. subst k.
  simpl in Hok. rewrite Hid in Hok. discriminate.
Qed.

Lemma remove_inserted {R : Type} (id : N) (r : R) (m : gmap N R) :
  m !! id = None -> remove {[ id ]} (<[id := r]> m) = m.
Proof. intros H. rewrite remove_singleton. apply delete_insert_id. exact H. Qed.

Lemma config_set_null_unreferenced (dead : gset N) (m : gmap N ScrapingJob.row) :
  (forall k j, m !! k = Some j -> refers dead (ScrapingJob.config_id j) = false) ->
  config_set_null dead <$> m = m.
Proof.
  intros H. apply map_eq. intros k. rewrite lookup_fmap.
  destruct (m !! k) as [j |] eqn:E; [| reflexivity].
  simpl. unfold config_set_null. rewrite (H k j E). reflexivity.
Qed.


(** No row of a consistent database refers to a key that is not there. *)
Ltac unreferenced Hdb Hid :=
  let k := fresh "k" in
  let row := fresh "row" in
  let Hk := fresh "Hk" in
  let Hok := fresh "Hok" in
  intros k row Hk;
  first [ pose proof (Hdb t_source_documents k row Hk) as Hok
        | pose proof (Hdb t_bylaws k row Hk) as Hok
        | pose proof (Hdb t_bylaw_versions k row Hk) as Hok
        | pose proof (Hdb t_adu_requirements k row Hk) as Hok
        | pose proof (Hdb t_scraping_configs k row Hk) as Hok
        | pose proof (Hdb t_scraping_jobs k row Hk) as Hok ];
  cbn in Hok;
  repeat (let H := fresh "Hok" in apply andb_true_iff in Hok as [Hok H]);
  cbn; rewrite ?refers_empty; cbn;
  rewrite ?(ref_ok_fresh _ _ _ Hid) by assumption;
  reflexivity.

Ltac prune_cascade Hdb Hid :=
  repeat first
    [ rewrite (left_id_L ∅ (∪))
    | rewrite (right_id_L ∅ (∪))
    | match goal with
      | |- context [keys_where (fun r => refers ∅ (@?f r)) ?m] =>
          rewrite (keys_where_refers_empty f m)
      | |- context [keys_where (fun r => refers {[ ?id ]} (@?f r)) ?m] =>
          rewrite (keys_where_none (fun r => refers {[ id ]} (f r)) m)
            by unreferenced Hdb Hid
      end ].

Lemma delete_fresh_row (t : table) (id : N) (r : row_of t) (db : DB) :
  referential_integrity db ->
  get_tbl t db !! id = None ->
  let db1 := set_tbl t (<[id := r]> (get_tbl t db)) db in
  no_action_ok (cascade db1 (target t id)) db1 (sweep (cascade db1 (target t id)) db1) = true
  /\ same_rows (sweep (cascade db1 (target t id)) db1) db.
Proof.
  intros Hdb Hid db1. subst db1.
  destruct t; cbn in Hid;
    unfold cascade, target, sweep, no_action_ok, remaining_ok, documents_unused;
    cbn [dead_municipalities dead_source_documents dead_bylaws dead_bylaw_versions
         dead_adu_requirements dead_scraping_configs dead_scraping_jobs
         municipalities source_documents bylaws bylaw_versions adu_requirements
         scraping_configs scraping_jobs audit_log set_tbl get_tbl];
    prune_cascade Hdb Hid.
  all: rewrite ?remove_empty, ?remove_inserted by exact Hid.
  all: rewrite ?config_set_null_empty.
  all: try rewrite config_set_null_unreferenced by unreferenced Hdb Hid.
  all: split; [| intros t'; destruct t'; reflexivity].
  all: repeat (apply andb_true_iff; split); apply forallb_map_to_list.
  all: first [ unreferenced Hdb Hid | intros k row _; cbn; rewrite refers_empty; reflexivity ].
Qed.


Lemma same_rows_set_audit_log (log : list AuditLog.row) (a b : DB) :
  same_rows a b -> same_rows (set_audit_log log a) b.
Proof. intros H t. rewrite get_set_audit_log. apply H. Qed.

(** X5.  Insert and delete are inverse on a consistent database: a row
    that was just inserted can always be deleted again, and the DELETE
    removes this row only, so that every table is as it was before the
    INSERT (the audit log is left aside). *)
Theorem insert_then_delete_restores (script : SetupScript) (s : Session) (t : table) (id : N)
    (r : row_of t) (db db1 : DB) :
  referential_integrity db ->
  exec script s (Insert t id r) db = Done db1 ->
  exists db2, exec script s (Delete t id) db1 = Done db2 /\ same_rows db2 db.
Proof.
  intros Hdb Hins. unfold exec, insert_row in Hins.
  destruct (get_tbl t db !! id) eqn:Hid; [discriminate |]. cbv zeta in Hins.
  destruct (unique_ok t db id r); [| discriminate]. simpl in Hins.
  destruct (fks_ok t _ r); [| discriminate]. simpl in Hins.
  injection Hins as <-.
  destruct (delete_fresh_row t id r db Hdb Hid) as [Hna Hsame].
  unfold exec.
  rewrite (delete_row_present script s t id r).
  - cbv zeta.
    change (cascade (set_audit_log ?l ?x) ?d) with (cascade x d).
    change (no_action_ok ?d (set_audit_log ?l ?x) (sweep ?d (set_audit_log ?l ?x)))
      with (no_action_ok d x (sweep d x)).
    rewrite Hna. eexists. split; [reflexivity |].
    apply same_rows_set_audit_log. intros t'. rewrite <- (Hsame t').
    destruct t'; reflexivity.
  - rewrite get_set_audit_log, get_set_same. apply lookup_insert_eq.
Qed.

Lemma insert_then_delete_restores_witness :
  exists db2,
    exec full_schema SchemaExamples.admin_session (Delete t_bylaws 2%N)
      (after full_schema SchemaExamples.admin_session (Insert t_bylaws 2%N SchemaExamples.adu_bylaw)
         (after full_schema SchemaExamples.admin_session
            (Insert t_municipalities 1%N SchemaExamples.toronto) empty_db))
    = Done db2
    /\ same_rows db2
         (after full_schema SchemaExamples.admin_session
            (Insert t_municipalities 1%N SchemaExamples.toronto) empty_db).
Proof.
  apply (insert_then_delete_restores full_schema SchemaExamples.admin_session t_bylaws 2%N
           SchemaExamples.adu_bylaw).
  - apply integrity_after_statement. exact referential_integrity_empty.
  - vm_compute. reflexivity.
Defined.



Lemma same_rows_rewrite (t : table) (id : N) (r : row_of t) (db : DB) :
  same_rows (set_tbl t (<[id := r]> (get_tbl t (set_tbl t (<[id := r]> (get_tbl t db)) db)))
               (set_tbl t (<[id := r]> (get_tbl t db)) db))
            (set_tbl t (<[id := r]> (get_tbl t db)) db).
Proof.
  intros t'. destruct (table_eq_dec t t') as [<- | n].
  - rewrite !get_set_same. apply insert_insert_eq.
  - rewrite !get_set_other by exact n. reflexivity.
Qed.




End SchemaRoundTrip.

Section VersionHistoryViewFacts.
Import JsArray JsString BylawVersionHistory BylawVersionHistoryView VersionHistoryClaims.

Lemma string_length_append (a b : string) :
  String.length (a ++ b)%string = (String.length a + String.length b)%nat.
Proof. induction a as [| c a IH]; simpl; [reflexivity | rewrite IH; reflexivity]. Qed.

Lemma substring_0_length (n : nat) (s : string) :
  (n <= String.length s)%nat -> String.length (String.substring 0 n s) = n.
Proof.
  revert s. induction n as [| n IH]; intros s Hn.
  - destruct s; reflexivity.
  - destruct s as [| c s]; simpl in *; [lia |]. rewrite IH; [reflexivity | lia].
Qed.

Lemma substring_0_prefix (n : nat) (s : string) :
  String.prefix (String.substring 0 n s) s = true.
Proof.
  revert s. induction n as [| n IH]; intros s.
  - destruct s; reflexivity.
  - destruct s as [| c s]; simpl; [reflexivity |].
    destruct (ascii_dec c c) as [_ | n0]; [apply IH | contradiction].
Qed.

Lemma substring_0_append (p q : string) :
  String.substring 0 (String.length p) (p ++ q)%string = p.
Proof.
  induction p as [| c p IH]; simpl.
  - destruct q; reflexivity.
  - rewrite IH. reflexivity.
Qed.

(** [substring(0, n)] for an [n] between 0 and the length. *)
Lemma substring_from_0 (s : string) (n : Z) :
  0 <= n <= len s -> substring s 0 n = String.substring 0 (Z.to_nat n) s.
Proof.
  intros Hn. unfold substring, clamp.
  replace (Z.min (Z.max 0 0) (len s)) with 0 by lia.
  replace (Z.min (Z.max n 0) (len s)) with n by lia.
  replace (Z.min 0 n) with 0 by lia. replace (Z.max 0 n - 0) with n by lia.
  reflexivity.
Qed.

Lemma substring_to_negative (s : string) (n : Z) : n <= 0 -> substring s 0 n = "".
Proof.
  intros Hn. unfold substring, clamp. pose proof (len_nonneg s).
  replace (Z.min (Z.max 0 0) (len s)) with 0 by lia.
  replace (Z.min (Z.max n 0) (len s)) with 0 by lia.
  simpl. destruct s; reflexivity.
Qed.

(** What a cut preview looks like. *)
Lemma getContentPreview_cut (content : string) (maxLength : Z) :
  maxLength < len content ->
  exists p, getContentPreview content maxLength = (p ++ "...")%string
            /\ len p = Z.max 0 maxLength
            /\ String.prefix p content = true.
Proof.
  intros Hcut. unfold getContentPreview.
  destruct (Z.leb_spec (len content) maxLength) as [Hle | _]; [lia |].
  exists (substring content 0 maxLength). split; [reflexivity |].
  destruct (Z.le_gt_cases maxLength 0) as [Hneg | Hpos].
  - rewrite substring_to_negative by exact Hneg. split; [unfold len; simpl; lia |].
    destruct content; reflexivity.
  - rewrite substring_from_0 by lia. split.
    + unfold len in *. rewrite substring_0_length by lia. lia.
    + apply substring_0_prefix.
Qed.

(** X7.  The preview of a content that fits into [maxLength] characters
    is the content itself; a longer content is cut to its first
    [maxLength] characters followed by three dots.  So a preview never
    has more than [maxLength + 3] characters. *)
Theorem getContentPreview_spec (content : string) (maxLength : Z) :
  0 <= maxLength ->
  (len content <= maxLength -> getContentPreview content maxLength = content)
  /\ (maxLength < len content ->
      exists p, getContentPreview content maxLength = (p ++ "...")%string
                /\ len p = maxLength /\ String.prefix p content = true)
  /\ len (getContentPreview content maxLength) <= maxLength + 3.
Proof.
  intros Hmax. split; [| split].
  - intros Hfit. unfold getContentPreview.
    destruct (Z.leb_spec (len content) maxLength); [reflexivity | lia].
  - intros Hcut. destruct (getContentPreview_cut content maxLength Hcut) as (p & E & Hp & Hpre).
    exists p. repeat split; [exact E | lia | exact Hpre].
  - destruct (Z.le_gt_cases (len content) maxLength) as [Hfit | Hcut].
    + unfold getContentPreview.
      destruct (Z.leb_spec (len content) maxLength); lia.
    + destruct (getContentPreview_cut content maxLength Hcut) as (p & -> & Hp & _).
      unfold len in *. rewrite string_length_append. simpl. lia.
Qed.

Lemma getContentPreview_spec_witness :
  len (getContentPreview "Maximum height 8 m." 10) <= 10 + 3.
Proof. apply (getContentPreview_spec "Maximum height 8 m." 10). lia. Defined.

(** X8.  Previewing a preview changes nothing: [getContentPreview] is
    idempotent for every [maxLength], although a cut preview is longer
    than [maxLength]. *)
Theorem getContentPreview_idempotent (content : string) (maxLength : Z) :
  getContentPreview (getContentPreview content maxLength) maxLength
  = getContentPreview content maxLength.
Proof.
  destruct (Z.le_gt_cases (len content) maxLength) as [Hfit | Hcut].
  - unfold getContentPreview at 2.
    destruct (Z.leb_spec (len content) maxLength) as [_ | H]; [| lia].
    unfold getContentPreview.
    destruct (Z.leb_spec (len content) maxLength) as [_ | H]; [reflexivity | lia].
  - destruct (getContentPreview_cut content maxLength Hcut) as (p & -> & Hp & _).
    unfold getContentPreview.
    assert (Hlen : len (p ++ "...")%string = len p + 3).
    { unfold len. rewrite string_length_append. simpl. lia. }
    destruct (Z.leb_spec (len (p ++ "...")%string) maxLength) as [H | _]; [lia |].
    f_equal.
    destruct (Z.le_gt_cases maxLength 0) as [Hneg | Hpos].
    + rewrite substring_to_negative by exact Hneg.
      destruct p; [reflexivity |]. unfold len in Hp. simpl in Hp. lia.
    + rewrite substring_from_0 by lia.
      replace (Z.to_nat maxLength) with (String.length p) by (unfold len in Hp; lia).
      apply substring_0_append.
Qed.


Lemma findIndex_from_first {A : Type} (p : A -> bool) (l rest : list A) (x : A) (i : Z) :
  Forall (fun y => p y = false) l -> p x = true ->
  findIndex_from p (l ++ x :: rest) i = i + Z.of_nat (length l).
Proof.
  intros Hl Hx. revert i.
  induction Hl as [| y l Hy _ IH]; intros i; simpl.
  - rewrite Hx. lia.
  - rewrite Hy, IH. lia.
Qed.

(** In a list with distinct ids the previous version of an entry is the
    entry below it. *)
Lemma previousVersion_next (pre rest : list BylawVersion) (v : BylawVersion) :
  Forall (fun w => id w <> id v) pre ->
  previousVersion (pre ++ v :: rest) v = head rest.
Proof.
  intros Hpre. unfold previousVersion, currentIndex, findIndex.
  rewrite findIndex_from_first.
  - unfold at_index. destruct (Z.ltb_spec (0 + Z.of_nat (length pre) + 1) 0) as [H | _]; [lia |].
    replace (Z.to_nat (0 + Z.of_nat (length pre) + 1)) with (length pre + 1)%nat by lia.
    rewrite lookup_app_r by lia.
    replace (length pre + 1 - length pre)%nat with 1%nat by lia.
    destruct rest; reflexivity.
  - eapply Forall_impl; [exact Hpre |]. simpl. intros w Hw.
    apply String.eqb_neq. exact Hw.
  - apply String.eqb_refl.
Qed.

Lemma total_app (a b : list Z) : total (a ++ b) = total a + total b.
Proof. induction a as [| x a IH]; simpl; [reflexivity | rewrite IH; lia]. Qed.

(** The numbers shown for one version add up to the change of length
    against the previous version. *)
Lemma total_shownDiff (versions : list BylawVersion) (v : BylawVersion) :
  total (shownDiff versions v)
  = len (content v)
    - match previousVersion versions v with Some p => len (content p) | None => 0 end.
Proof.
  unfold shownDiff, calculateContentDiff. pose proof (len_nonneg (content v)) as Hv.
  destruct (previousVersion versions v) as [p |]; cbv zeta; simpl added; simpl removed.
  - destruct (Z.ltb_spec 0 (Z.max 0 (len (content v) - len (content p))));
      destruct (Z.ltb_spec 0 (Z.max 0 (len (content p) - len (content v))));
      simpl; lia.
  - destruct (Z.ltb_spec 0 (len (content v))); simpl; lia.
Qed.

(** X9.  When the loaded versions have distinct ids, the signed numbers
    shown along the history (+added, -removed, nothing for 0) add up to
    the length of the newest version's content; for an empty history
    they add up to 0. *)
Theorem shown_diffs_add_up (versions : list BylawVersion) :
  NoDup (map id versions) ->
  total (shownDiffs versions)
  = match versions with [] => 0 | newest :: _ => len (content newest) end.
Proof.
  intros Hnd. unfold shownDiffs.
  enough (H : forall rest pre : list BylawVersion,
             NoDup (map id (pre ++ rest)) ->
             total (concat (map (shownDiff (pre ++ rest)) rest))
             = match rest with [] => 0 | v :: _ => len (content v) end)
    by exact (H versions [] Hnd).
  clear versions Hnd. induction rest as [| v rest IH]; intros pre Hnd; [reflexivity |].
  simpl. rewrite total_app, total_shownDiff.
  assert (Hpre : Forall (fun w => id w <> id v) pre).
  { rewrite map_app in Hnd. apply NoDup_app in Hnd as (_ & Hdis & _).
    apply Forall_forall. intros w Hw Heq.
    apply (Hdis (id w)).
    - apply list_elem_of_fmap_2. exact Hw.
    - rewrite Heq. simpl. apply list_elem_of_here. }
  rewrite (previousVersion_next pre rest v Hpre).
  replace (pre ++ v :: rest) with ((pre ++ [v]) ++ rest) in * by (rewrite <- app_assoc; reflexivity).
  rewrite (IH (pre ++ [v]) Hnd).
  destruct rest as [| w rest]; simpl; lia.
Qed.

Lemma shown_diffs_add_up_witness :
  total (shownDiffs VersionExamples.loaded_versions) = len (content VersionExamples.version_2).
Proof.
  apply (shown_diffs_add_up VersionExamples.loaded_versions).
  apply (NoDup_cons_2 "v2"); [| apply (NoDup_cons_2 "v1"); [| apply NoDup_nil_2]].
  - intros H. apply list_elem_of_In in H. simpl in H. destruct H as [H | []]. discriminate H.
  - intros H. apply list_elem_of_In in H. simpl in H. exact H.
Defined.

End VersionHistoryViewFacts.

Section ADUSummaryFacts.
Import ADURequirements ADUSummary ADUSummaryClaims.

Lemma filteredRequirements_cons (r : ADURequirement) (reqs : list ADURequirement)
    (cat : option Category) (m : Q) :
  filteredRequirements (r :: reqs) cat m
  = if match cat with None => true | Some c => Category_eqb (category r) c end
       && Qle_bool m (confidence r)
    then r :: filteredRequirements reqs cat m
    else filteredRequirements reqs cat m.
Proof. reflexivity. Qed.

Lemma Qle_bool_trans (a b c : Q) : (a <= b)%Q -> Qle_bool b c = true -> Qle_bool a c = true.
Proof. intros Hab Hbc. apply Qle_bool_iff. apply Qle_bool_iff in Hbc. eapply Qle_trans; eauto. Qed.

(** X10.  Raising the confidence threshold only removes requirements
    from the list that is shown: what is shown at the higher threshold
    is a sublist of what is shown at the lower one, and it is what the
    higher threshold would select from the lower list. *)
Theorem raising_threshold_only_removes (requirements : list ADURequirement)
    (cat : option Category) (m1 m2 : Q) :
  (m1 <= m2)%Q ->
  sublist (filteredRequirements requirements cat m2) (filteredRequirements requirements cat m1)
  /\ filteredRequirements (filteredRequirements requirements cat m1) cat m2
     = filteredRequirements requirements cat m2.
Proof.
  intros Hm. induction requirements as [| r reqs [IH1 IH2]].
  - split; [constructor | reflexivity].
  - rewrite !filteredRequirements_cons.
    destruct (match cat with None => true | Some c => Category_eqb (category r) c end) eqn:Ec;
      simpl andb.
    + destruct (Qle_bool m2 (confidence r)) eqn:E2.
      * rewrite (Qle_bool_trans _ _ _ Hm E2).
        rewrite filteredRequirements_cons, Ec, E2. simpl andb. cbv iota.
        split; [apply sublist_skip; exact IH1 | f_equal; exact IH2].
      * destruct (Qle_bool m1 (confidence r)) eqn:E1.
        -- rewrite filteredRequirements_cons, Ec, E2. simpl andb. cbv iota.
           split; [apply sublist_cons; exact IH1 | exact IH2].
        -- split; assumption.
    + split; assumption.
Qed.

Lemma raising_threshold_only_removes_witness :
  sublist (filteredRequirements mockRequirements None (90 # 1))
          (filteredRequirements mockRequirements None initialMinConfidence).
Proof.
  apply (raising_threshold_only_removes mockRequirements None initialMinConfidence (90 # 1)).
  vm_compute. discriminate.
Defined.


Lemma perm_push {A : Type} (x : A) (l X Y : list A) :
  Permutation (x :: X) Y -> Permutation (x :: l ++ X) (l ++ Y).
Proof.
  intros H. rewrite <- H. apply Permutation_middle.
Qed.

(** X11.  Every requirement that passes the threshold is listed under
    exactly one category: the six category views, taken together, are a
    rearrangement of the view 'All Categories'. *)
Theorem categories_partition_all (requirements : list ADURequirement) (minConfidence : Q) :
  Permutation (byCategory requirements minConfidence)
              (filteredRequirements requirements None minConfidence).
Proof.
  unfold byCategory, categories. cbn [map concat].
  induction requirements as [| r reqs IH]; [reflexivity |].
  rewrite !filteredRequirements_cons. cbn [andb].
  destruct (Qle_bool minConfidence (confidence r)).
  - rewrite <- IH. symmetry.
    destruct (category r); cbn [Category_eqb andb app];
      repeat first [ reflexivity | apply perm_push ].
  - rewrite !andb_false_r. exact IH.
Qed.

Lemma green_badge_spec (c : Q) :
  String.eqb (getConfidenceColor c) green_badge = Qle_bool (90 # 1) c.
Proof.
  unfold getConfidenceColor, green_badge.
  destruct (Qle_bool (90 # 1) c); [reflexivity |].
  destruct (Qle_bool (75 # 1) c); reflexivity.
Qed.

Lemma filter_pointwise {A : Type} (f g : A -> bool) (l : list A) :
  (forall x, f x = g x) -> List.filter f l = List.filter g l.
Proof.
  intros H. induction l as [| a l IH]; simpl; [reflexivity |]. rewrite H, IH. reflexivity.
Qed.

Lemma filter_length_le {A : Type} (f : A -> bool) (l : list A) :
  (length (List.filter f l) <= length l)%nat.
Proof.
  induction l as [| a l IH]; simpl; [lia |]. destruct (f a); simpl; lia.
Qed.

(** X12.  The tile 'High Confidence' of the analysis summary counts the
    requirements of the whole list, whatever the category and the
    threshold selected: its number is the number of requirements that
    the list shows under 'All Categories' with the threshold at 90, it
    is the number of requirements whose confidence badge is green, and
    it is at most the number of the tile 'Total Requirements'.  Every
    requirement that is shown with a threshold of 90 or more has a
    green badge. *)
Theorem highConfidence_counts_green_badges (requirements : list ADURequirement) :
  highConfidence requirements = length (filteredRequirements requirements None (90 # 1))
  /\ highConfidence requirements = length (green_badges requirements)
  /\ (highConfidence requirements <= length requirements)%nat
  /\ (forall (cat : option Category) (minConfidence : Q),
        (90 # 1 <= minConfidence)%Q ->
        Forall (fun r => getConfidenceColor (confidence r) = green_badge)
               (filteredRequirements requirements cat minConfidence)).
Proof.
  unfold highConfidence, green_badges, filteredRequirements.
  split; [| split; [| split]].
  - reflexivity.
  - f_equal. apply filter_pointwise. intros r. symmetry. apply green_badge_spec.
  - apply filter_length_le.
  - intros cat m Hm. apply List.Forall_forall. intros r Hr.
    apply List.filter_In in Hr as [_ Hr]. apply andb_true_iff in Hr as [_ Hr].
    pose proof (Qle_bool_trans _ _ _ Hm Hr) as H90.
    apply String.eqb_eq. rewrite green_badge_spec. exact H90.
Qed.

End ADUSummaryFacts.

Section AuthServiceFacts.
Import Supabase AuthService.

Lemma handleApiError_no_return (error v : JsValue) : handleApiError error <> Returns v.
Proof.
  unfold handleApiError. destruct (get error "code") as [code |]; [| discriminate].
  destruct (strict_eq_string code "PGRST301"); [discriminate |].
  destruct (strict_eq_string code "PGRST116"); [discriminate |].
  destruct (get error "message") as [m |]; [| discriminate].
  destruct (truthy m); [| discriminate].
  destruct (to_string m); discriminate.
Qed.

(** An [Error] is thrown on with its message, if it has one. *)
Lemma handleApiError_of_Error (message : string) :
  handleApiError (JsObject [("message", JsString message)])
  = ThrowsError (if String.eqb message "" then "An unexpected error occurred" else message).
Proof.
  unfold handleApiError. simpl.
  destruct (String.eqb message ""); reflexivity.
Qed.





(** The [catch] block never lets a value through as it caught it. *)
Lemma try_catch_no_reason (typeErrorMessage : string) (body : Result) (reason : JsValue) :
  try_catch typeErrorMessage body <> Throws (AReason reason).
Proof.
  destruct body as [v | e]; simpl; [discriminate |].
  unfold handled. destruct (handleApiError (caught typeErrorMessage e)) eqn:E;
    try discriminate.
  exfalso. eapply handleApiError_no_return, E.
Qed.

Lemma try_catch_Value (typeErrorMessage : string) (body : Result) (v : JsValue) :
  try_catch typeErrorMessage body = Value v <-> body = Value v.
Proof.
  destruct body as [w | e]; simpl; [reflexivity |].
  unfold handled. destruct (handleApiError (caught typeErrorMessage e)) eqn:E.
  - exfalso. eapply handleApiError_no_return, E.
  - split; discriminate.
  - split; discriminate.
Qed.

Lemma check_Value (error : JsValue) (rest : Result) (v : JsValue) :
  check error rest = Value v <-> truthy error = false /\ rest = Value v.
Proof.
  unfold check. destruct (truthy error) eqn:Et.
  - unfold handled. destruct (handleApiError error) eqn:E.
    + exfalso. eapply handleApiError_no_return, E.
    + split; [discriminate | intros [H _]; discriminate].
    + split; [discriminate | intros [H _]; discriminate].
  - split; [auto | intros [_ H]; exact H].
Qed.

Lemma read_Value (obj : JsValue) (key : string) (rest : JsValue -> Result) (v : JsValue) :
  read obj key rest = Value v <-> exists x, get obj key = Some x /\ rest x = Value v.
Proof.
  unfold read. destruct (get obj key) as [x |].
  - split; [eauto | intros (y & [= <-] & H); exact H].
  - split; [discriminate | intros (y & H & _); discriminate].
Qed.

(** The [catch] block turns whatever was thrown inside [try] into what
    [handleApiError] throws for it. *)
Lemma try_catch_Throws (typeErrorMessage : string) (e : Thrown) :
  try_catch typeErrorMessage (Throws e)
  = match e with
    | AnError message =>
        Throws (AnError (if String.eqb message "" then "An unexpected error occurred"
                         else message))
    | ATypeError =>
        Throws (AnError (if String.eqb typeErrorMessage "" then "An unexpected error occurred"
                         else typeErrorMessage))
    | AReason reason =>
        match handleApiError reason with
        | Returns _ => Throws e
        | ThrowsError message => Throws (AnError message)
        | ThrowsTypeError => Throws ATypeError
        end
    end.
Proof.
  destruct e as [message | | reason]; simpl; unfold handled.
  - rewrite handleApiError_of_Error. reflexivity.
  - rewrite handleApiError_of_Error. reflexivity.
  - reflexivity.
Qed.

(** X14.  [signIn] returns only when the client reported no error and
    gave both a user and a session, and then returns exactly these two.
    When the client reports an error, [handleApiError] throws for it
    inside [try], and the [catch] block handles what was thrown a
    second time: the caller gets an [Error] with the message
    [handleApiError] chose for the reported error, or with the message
    'An unexpected error occurred' if that message is empty, and still
    an [Error] if the first handling ended in a [TypeError].  Without an
    error but with no user or no session, the caller gets the [Error]
    'Authentication failed'.  In no case does the value that was caught
    travel on as it was: the [throw error] of the [catch] block is
    never reached. *)
Theorem signIn_outcomes (typeErrorMessage : string) (awaited : Awaited) :
  (forall v, signIn typeErrorMessage awaited = Value v <->
     exists response data error user session,
       awaited = Resolved response
       /\ get response "data" = Some data /\ get response "error" = Some error
       /\ truthy error = false
       /\ get data "user" = Some user /\ truthy user = true
       /\ get data "session" = Some session /\ truthy session = true
       /\ v = JsObject [("user", user); ("session", session)])
  /\ (forall response data error,
        awaited = Resolved response ->
        get response "data" = Some data -> get response "error" = Some error ->
        truthy error = true ->
        (forall message,
            handleApiError error = ThrowsError message ->
            signIn typeErrorMessage awaited
            = Throws (AnError (if String.eqb message "" then "An unexpected error occurred"
                               else message)))
        /\ (handleApiError error = ThrowsTypeError ->
            exists message, signIn typeErrorMessage awaited = Throws (AnError message)))
  /\ (forall response data error user,
        awaited = Resolved response ->
        get response "data" = Some data -> get response "error" = Some error ->
        truthy error = false ->
        get data "user" = Some user -> truthy user = false ->
        signIn typeErrorMessage awaited = Throws (AnError "Authentication failed"))
  /\ (forall response data error user session,
        awaited = Resolved response ->
        get response "data" = Some data -> get response "error" = Some error ->
        truthy error = false ->
        get data "user" = Some user -> get data "session" = Some session ->
        truthy session = false ->
        signIn typeErrorMessage awaited = Throws (AnError "Authentication failed"))
  /\ (forall reason, signIn typeErrorMessage awaited <> Throws (AReason reason)).
Proof.
  split; [| split; [| split; [| split]]].
  - intros v. unfold signIn. rewrite try_catch_Value.
    destruct awaited as [response | reason].
    + rewrite read_Value. split.
      * intros (data & Hd & H). apply read_Value in H as (error & He & H).
        apply check_Value in H as [Ht H]. apply read_Value in H as (user & Hu & H).
        destruct (truthy user) eqn:Etu; simpl in H; [| discriminate].
        apply read_Value in H as (session & Hs & H).
        destruct (truthy session) eqn:Ets; simpl in H; [| discriminate].
        injection H as <-. exists response, data, error, user, session.
        repeat split; assumption.
      * intros (r & data & error & user & session & [= <-] & Hd & He & Ht & Hu & Htu
                & Hs & Hts & ->).
        exists data. split; [exact Hd |]. apply read_Value. exists error. split; [exact He |].
        apply check_Value. split; [exact Ht |]. apply read_Value. exists user.
        split; [exact Hu |]. rewrite Htu. simpl. apply read_Value. exists session.
        split; [exact Hs |]. rewrite Hts. reflexivity.
    + split; [discriminate |].
      intros (r & data & error & user & session & H & _). discriminate.
  - intros response data error -> Hd He Ht.
    unfold signIn, read. rewrite Hd, He. unfold check. rewrite Ht. unfold handled.
    split.
    + intros message Hm. rewrite Hm, try_catch_Throws. reflexivity.
    + intros Hm. rewrite Hm, try_catch_Throws. eexists. reflexivity.
  - intros response data error user -> Hd He Ht Hu Htu.
    unfold signIn, read. rewrite Hd, He. unfold check. rewrite Ht, Hu, Htu. reflexivity.
  - intros response data error user session -> Hd He Ht Hu Hs Hts.
    unfold signIn, read. rewrite Hd, He. unfold check. rewrite Ht, Hu, Hs, Hts.
    destruct (truthy user); reflexivity.
  - intros reason. apply try_catch_no_reason.
Qed.

(** X15.  [isAdmin] never throws: it always returns a boolean.  It
    returns [true] exactly when the client resolved without an error
    and the user it gave is not [null]; a rejected call, a reported
    error and a malformed response all give [false]. *)
Theorem isAdmin_spec (typeErrorMessage : string) (awaited : Awaited) :
  exists b, isAdmin typeErrorMessage awaited = Value (JsBool b)
            /\ (b = true <->
                exists response data user error,
                  awaited = Resolved response
                  /\ get response "data" = Some data /\ get data "user" = Some user
                  /\ user <> JsNull
                  /\ get response "error" = Some error /\ truthy error = false).
Proof.
  unfold isAdmin.
  destruct (getCurrentUser typeErrorMessage awaited) as [user | e] eqn:E.
  - exists (strict_neq_null user). split; [reflexivity |].
    unfold getCurrentUser in E. apply try_catch_Value in E.
    destruct awaited as [response | reason]; [| discriminate].
    apply read_Value in E as (data & Hd & E). apply read_Value in E as (u & Hu & E).
    apply read_Value in E as (error & He & E). apply check_Value in E as [Ht [= ->]].
    split.
    + intros Hn. exists response, data, user, error. repeat split; try assumption.
      intros ->. discriminate.
    + intros (r & d & u & er & [= <-] & Hd' & Hu' & Hn & _).
      rewrite Hd in Hd'. injection Hd' as <-. rewrite Hu in Hu'. injection Hu' as <-.
      destruct user; try reflexivity. contradiction.
  - exists false. split; [reflexivity |]. split; [discriminate |].
    intros (response & data & user & error & -> & Hd & Hu & Hn & He & Ht). exfalso.
    unfold getCurrentUser, read in E. rewrite Hd, Hu, He in E.
    unfold check in E. rewrite Ht in E. discriminate.
Qed.

End AuthServiceFacts.

Section MunicipalityRouteFacts.
Import MunicipalityService MunicipalityRoutes.

Lemma plain_char_path (c : ascii) :
  plain_char c = true ->
  Ascii.eqb c "/"%char = false /\ Ascii.eqb c "?"%char = false /\ Ascii.eqb c "#"%char = false.
Proof.
  intros H. repeat split; apply Ascii.eqb_neq; intros ->; vm_compute in H; discriminate H.
Qed.

Lemma target_path_append (id rest : string) :
  plain id = true -> target_path (id ++ rest)%string = (id ++ target_path rest)%string.
Proof.
  induction id as [| c id IH]; simpl; [reflexivity |].
  intros H. apply andb_true_iff in H as [Hc H].
  destruct (plain_char_path c Hc) as (_ & Hq & Hh).
  change (String c id ++ rest)%string with (String c (id ++ rest)%string).
  change (String c id ++ target_path rest)%string
    with (String c (id ++ target_path rest)%string).
  simpl. rewrite Hq, Hh. simpl. rewrite IH by exact H. reflexivity.
Qed.

Lemma segments_append (id rest : string) :
  plain id = true ->
  segments (id ++ rest)%string
  = match segments rest with
    | segment :: others => (id ++ segment)%string :: others
    | [] => [id]
    end.
Proof.
  induction id as [| c id IH]; intros H.
  - change ("" ++ rest)%string with rest.
    destruct (segments rest) as [| segment others] eqn:E; [| reflexivity].
    destruct rest as [| c rest]; simpl in E; [discriminate |].
    destruct (Ascii.eqb c "/"%char); [discriminate |].
    destruct (segments rest); discriminate.
  - simpl in H. apply andb_true_iff in H as [Hc H].
    destruct (plain_char_path c Hc) as (Hs & _ & _).
    change (String c id ++ rest)%string with (String c (id ++ rest)%string).
    simpl. rewrite Hs, IH by exact H.
    destruct (segments rest) as [| segment others]; reflexivity.
Qed.

Lemma append_empty (s : string) : (s ++ "")%string = s.
Proof.
  induction s as [| c s IH]; [reflexivity |].
  change (String c s ++ "")%string with (String c (s ++ "")%string). rewrite IH. reflexivity.
Qed.

Lemma target_path_route (rest : string) :
  target_path ("/api/municipalities/" ++ rest)%string
  = ("/api/municipalities/" ++ target_path rest)%string.
Proof. reflexivity. Qed.

Lemma segments_route (rest : string) :
  segments ("/api/municipalities/" ++ rest)%string
  = "" :: "api" :: "municipalities" :: segments rest.
Proof. reflexivity. Qed.

(** X16.  The requests of the municipality service put the id into the
    path as it is, so that distinct ids give distinct requests.  For an
    id made of letters, digits and hyphens, as the database generates
    them, the path that is sent has no query and no fragment, and its
    segments are api, municipalities and the id, followed by config in
    the requests for the configuration: such an id, unless it is the
    word provinces, addresses the municipality and nothing else.  Other
    ids are not safe: the id provinces, and ids that continue it with a
    query or a fragment, address the list of provinces, the empty id
    gives the path of the list with a slash behind it, and the id
    m/config addresses the configuration of m. *)
Theorem municipality_requests (id : string) :
  (forall id', getMunicipalityById id = getMunicipalityById id' -> id = id')
  /\ (forall id', updateMunicipality id = updateMunicipality id' -> id = id')
  /\ (forall id', deleteMunicipality id = deleteMunicipality id' -> id = id')
  /\ (plain_id id = true ->
      target_path (path (getMunicipalityById id)) = path (getMunicipalityById id)
      /\ segments (path (getMunicipalityById id)) = [""; "api"; "municipalities"; id]
      /\ path (updateMunicipality id) = path (getMunicipalityById id)
      /\ path (deleteMunicipality id) = path (getMunicipalityById id)
      /\ target_path (path (getMunicipalityConfig id)) = path (getMunicipalityConfig id)
      /\ segments (path (getMunicipalityConfig id))
         = [""; "api"; "municipalities"; id; "config"]
      /\ path (updateMunicipalityConfig id) = path (getMunicipalityConfig id))
  /\ (plain_id id = true -> id <> "provinces" ->
      segments (path (getMunicipalityById id)) <> segments (path getMunicipalities)
      /\ segments (path (getMunicipalityById id)) <> segments (path getProvinces)
      /\ (forall m, plain_id m = true ->
                    segments (path (getMunicipalityById id))
                    <> segments (path (getMunicipalityConfig m))))
  /\ segments (path getMunicipalities) = [""; "api"; "municipalities"]
  /\ segments (path getProvinces) = [""; "api"; "municipalities"; "provinces"]
  /\ getMunicipalityById "provinces" = getProvinces
  /\ target_path (path (getMunicipalityById ("provinces?" ++ id)%string)) = path getProvinces
  /\ target_path (path (getMunicipalityById ("provinces#" ++ id)%string)) = path getProvinces
  /\ path (getMunicipalityById "") = (path getMunicipalities ++ "/")%string
  /\ getMunicipalityById (id ++ "/config")%string = getMunicipalityConfig id
  /\ updateMunicipality (id ++ "/config")%string = updateMunicipalityConfig id.
Proof.
  assert (Hplain : forall x, plain_id x = true ->
            target_path (path (getMunicipalityById x)) = path (getMunicipalityById x)
            /\ segments (path (getMunicipalityById x)) = [""; "api"; "municipalities"; x]
            /\ target_path (path (getMunicipalityConfig x)) = path (getMunicipalityConfig x)
            /\ segments (path (getMunicipalityConfig x))
               = [""; "api"; "municipalities"; x; "config"]).
  { intros x Hx. unfold plain_id in Hx. apply andb_true_iff in Hx as [_ Hx].
    unfold getMunicipalityById, getMunicipalityConfig. cbn [path].
    pose proof (target_path_append x "" Hx) as T1.
    pose proof (target_path_append x "/config" Hx) as T2.
    pose proof (segments_append x "" Hx) as S1.
    pose proof (segments_append x "/config" Hx) as S2.
    rewrite append_empty in T1, S1. cbn in T1, S1, T2, S2.
    rewrite append_empty in T1, S1, S2.
    rewrite !target_path_route, !segments_route, T1, T2, S1, S2.
    repeat split. }
  split; [| split; [| split; [| split; [| split]]]].
  - intros id' H. injection H as H. exact H.
  - intros id' H. injection H as H. exact H.
  - intros id' H. injection H as H. exact H.
  - intros Hid. destruct (Hplain id Hid) as (T1 & S1 & T2 & S2).
    split; [exact T1 |]. split; [exact S1 |]. split; [reflexivity |].
    split; [reflexivity |]. split; [exact T2 |]. split; [exact S2 | reflexivity].
  - intros Hid Hword. destruct (Hplain id Hid) as (_ & S1 & _). rewrite S1.
    split; [discriminate |]. split; [intros [= H]; contradiction |].
    intros m Hm. destruct (Hplain m Hm) as (_ & _ & _ & S2). rewrite S2. discriminate.
  - repeat split.
Qed.

Lemma municipality_requests_witness :
  segments (path (getMunicipalityById RouteExamples.toronto_id))
  = [""; "api"; "municipalities"; RouteExamples.toronto_id].
Proof.
  destruct (municipality_requests RouteExamples.toronto_id) as (_ & _ & _ & H & _).
  apply H. reflexivity.
Defined.

End MunicipalityRouteFacts.

Section SourceVerificationFacts.
Import JsString SourceVerification.

(** X17.  The verification score is one of 0, 25, 50, 75 and 100, and it
    is shown green only when all four checks passed.  A bylaw whose
    source URL does not start with https:// gets at most 50 and is
    always shown red, whatever the draws.  The stored hash and the
    content of the bylaw play no part: bylaws with the same source URL
    get the same status from the same draws. *)
Theorem verification_score (bylaw : ADURequirements.Bylaw) (now : Z) (draw1 draw2 draw3 : Q) :
  let status := simulateVerificationCheck bylaw now draw1 draw2 draw3 in
  let score := getVerificationScore (Some status) in
  In score [0; 25; 50; 75; 100]
  /\ (getScoreColor score = green
      <-> sourceAccessible status = true /\ hashVerified status = true
          /\ certificateValid status = true /\ sslVerified status = true)
  /\ (startsWith (ADURequirements.source_url bylaw) "https://" = false ->
      score <= 50 /\ getScoreColor score = red)
  /\ (forall other : ADURequirements.Bylaw,
        ADURequirements.source_url other = ADURequirements.source_url bylaw ->
        simulateVerificationCheck other now draw1 draw2 draw3 = status).
Proof.
  intros status score. subst score status.
  unfold simulateVerificationCheck, getVerificationScore, getScoreColor.
  cbn [sourceAccessible hashVerified certificateValid sslVerified].
  split; [| split; [| split]].
  - destruct (gt draw1 (1 # 10)), (gt draw2 (5 # 100)), (gt draw3 (1 # 10)),
      (startsWith (ADURequirements.source_url bylaw) "https://"); simpl; tauto.
  - destruct (gt draw1 (1 # 10)), (gt draw2 (5 # 100)), (gt draw3 (1 # 10)),
      (startsWith (ADURequirements.source_url bylaw) "https://"); simpl;
      split; try discriminate; try tauto; intros (H1 & H2 & H3 & H4); discriminate.
  - intros ->.
    destruct (gt draw1 (1 # 10)), (gt draw2 (5 # 100)), (gt draw3 (1 # 10)); simpl;
      split; try lia; reflexivity.
  - intros other ->. reflexivity.
Qed.

Lemma verification_score_witness :
  getVerificationScore
    (Some (simulateVerificationCheck RouteExamples.http_bylaw 1700000000000
             (9 # 10) (9 # 10) (9 # 10))) <= 50.
Proof.
  destruct (verification_score RouteExamples.http_bylaw 1700000000000 (9 # 10) (9 # 10) (9 # 10))
    as (_ & _ & H & _).
  apply H. reflexivity.
Defined.

End SourceVerificationFacts.

Section RowLevelSecurityFacts.
Import RowLevelSecurity PolicyClaims.

Lemma permitted_app (a b : list Policy) (table : string) (c : Command) (req : Request)
    (row_status : option string) :
  permitted (a ++ b) table c req row_status
  = permitted a table c req row_status || permitted b table c req row_status.
Proof. unfold permitted. apply existsb_app. Qed.

(** A script without [DROP POLICY] only adds its policies. *)
Lemma run_script_creates (script : list PolicyStmt) (policies policies' : list Policy) :
  forallb (fun stmt => match stmt with CreatePolicy _ => true | _ => false end) script = true ->
  run_script script policies = Some policies' ->
  policies' = policies ++ concat (map created script).
Proof.
  revert policies. induction script as [| stmt script IH]; intros policies Hc Hrun; simpl in *.
  - injection Hrun as <-. rewrite app_nil_r. reflexivity.
  - apply andb_true_iff in Hc as [Hstmt Hc]. destruct stmt as [name table | p]; [discriminate |].
    simpl in Hrun. destruct (existsb _ policies); [discriminate |].
    rewrite (IH _ Hc Hrun). simpl. rewrite <- app_assoc. reflexivity.
Qed.

(** X18.  The script with the role based policies only adds
    permissions, and it adds no policy for a direct UPDATE or DELETE of
    a bylaw version or a source document, or for a write to the audit
    log: who could not send such a statement before the script cannot
    send it after it.  This does not make these records immutable.
    The script lets editors and admins DELETE bylaws and
    municipalities, and the ON DELETE CASCADE of the schema, which row
    level security does not apply to, then removes the versions of the
    bylaw and the source documents of the municipality. *)
Theorem role_based_policies_guard_direct_writes_only (policies policies' : list Policy) :
  run_script role_based_policies policies = Some policies' ->
  (forall table c req row_status,
      permitted policies table c req row_status = true ->
      permitted policies' table c req row_status = true)
  /\ (forall table c req row_status,
         In (table, c) guarded ->
         permitted policies' table c req row_status
         = permitted policies table c req row_status)
  /\ (forall req row_status,
         is_one_of (user_role req) ["editor"; "admin"] = true ->
         permitted policies' "bylaws" cmd_delete req row_status = true
         /\ permitted policies' "municipalities" cmd_delete req row_status = true)
  /\ (forall script s db db' bylaw row,
         Schema.bylaws db !! bylaw = Some row ->
         Schema.exec script s (Schema.Delete Schema.t_bylaws bylaw) db = Schema.Done db' ->
         forall v version,
           Schema.bylaw_versions db !! v = Some version ->
           Schema.BylawVersion.bylaw_id version = Some bylaw ->
           Schema.bylaw_versions db' !! v = None)
  /\ (forall script s db db' site row,
         Schema.municipalities db !! site = Some row ->
         Schema.exec script s (Schema.Delete Schema.t_municipalities site) db
         = Schema.Done db' ->
         forall doc page,
           Schema.source_documents db !! doc = Some page ->
           Schema.SourceDocument.municipality_id page = Some site ->
           Schema.source_documents db' !! doc = None).
Proof.
  intros Hrun. apply run_script_creates in Hrun; [| reflexivity]. subst policies'.
  split; [| split; [| split; [| split]]].
  - intros table c req row_status H. rewrite permitted_app, H. reflexivity.
  - intros table c req row_status Hin. rewrite permitted_app.
    simpl in Hin.
    destruct Hin as [H | [H | [H | [H | [H | [H | [H | []]]]]]]]; injection H as <- <-;
      cbn; rewrite ?andb_false_r; apply orb_false_r.
  - intros req row_status Hrole. rewrite !permitted_app.
    split; apply orb_true_iff; right; cbn; cbn in Hrole; rewrite Hrole;
      rewrite ?orb_true_r; reflexivity.
  - intros script s db db' bylaw row Hrow. unfold Schema.exec.
    rewrite (delete_row_present script s Schema.t_bylaws bylaw row db Hrow). cbv zeta.
    destruct (Schema.no_action_ok _ _ _); [| discriminate]. intros [= <-].
    intros v version Hv Hb. simpl.
    destruct (Schema.remove _ (Schema.bylaw_versions db) !! v) as [r |] eqn:E;
      [| reflexivity].
    apply lookup_remove in E as [_ E]. exfalso. apply E.
    apply elem_of_union_r, elem_of_keys_where. exists version. split; [exact Hv |].
    rewrite Hb. apply refers_elem. apply elem_of_union_l, elem_of_singleton. reflexivity.
  - intros script s db db' site row Hrow. unfold Schema.exec.
    rewrite (delete_row_present script s Schema.t_municipalities site row db Hrow). cbv zeta.
    destruct (Schema.no_action_ok _ _ _); [| discriminate]. intros [= <-].
    intros doc page Hdoc Hsite. simpl.
    destruct (Schema.remove _ (Schema.source_documents db) !! doc) as [r |] eqn:E;
      [| reflexivity].
    apply lookup_remove in E as [_ E]. exfalso. apply E.
    apply elem_of_union_r, elem_of_keys_where. exists page. split; [exact Hdoc |].
    rewrite Hsite. apply refers_elem. apply elem_of_singleton. reflexivity.
Qed.

Lemma role_based_policies_guard_direct_writes_only_witness :
  permitted role_based_store "bylaw_versions" cmd_delete editor None = false
  /\ permitted role_based_store "bylaws" cmd_delete editor None = true
  /\ Schema.bylaw_versions SchemaInvariants.uncited_db !! 3%N
     = Some SchemaExamples.first_version
  /\ Schema.bylaw_versions
       (Schema.after Schema.supabase_setup SchemaExamples.admin_session
          (Schema.Delete Schema.t_bylaws 2%N) SchemaInvariants.uncited_db) !! 3%N
     = None.
Proof.
  assert (Hrun : run_script role_based_policies setup_store = Some role_based_store)
    by (vm_compute; reflexivity).
  destruct (role_based_policies_guard_direct_writes_only setup_store role_based_store Hrun)
    as (_ & Hguard & Heditor & Hbylaw & _).
  split; [| split; [| split]].
  - rewrite Hguard by (simpl; tauto). vm_compute. reflexivity.
  - apply Heditor. reflexivity.
  - vm_compute. reflexivity.
  - assert (Hexec : Schema.exec Schema.supabase_setup SchemaExamples.admin_session
                      (Schema.Delete Schema.t_bylaws 2%N) SchemaInvariants.uncited_db
                    = Schema.Done
                        (Schema.after Schema.supabase_setup SchemaExamples.admin_session
                           (Schema.Delete Schema.t_bylaws 2%N) SchemaInvariants.uncited_db))
      by (vm_compute; reflexivity).
    assert (Hrow : Schema.bylaws SchemaInvariants.uncited_db !! 2%N
                   = Some SchemaExamples.adu_bylaw) by (vm_compute; reflexivity).
    apply (Hbylaw Schema.supabase_setup SchemaExamples.admin_session
             SchemaInvariants.uncited_db _ 2%N SchemaExamples.adu_bylaw
             Hrow Hexec 3%N SchemaExamples.first_version).
    + vm_compute. reflexivity.
    + reflexivity.
Defined.

(** A policy that is there or is created, and that no statement drops,
    is there after the script. *)
Lemma run_script_keeps (p : Policy) (script : list PolicyStmt)
    (policies policies' : list Policy) :
  run_script script policies = Some policies' ->
  forallb (keeps p) script = true ->
  In p policies \/ In (CreatePolicy p) script ->
  In p policies'.
Proof.
  revert policies. induction script as [| stmt script IH]; intros policies Hrun Hk Hin.
  - simpl in Hrun. injection Hrun as <-. destruct Hin as [H | []]. exact H.
  - simpl in Hk. apply andb_true_iff in Hk as [Hstmt Hk]. simpl in Hrun.
    destruct (run_stmt stmt policies) as [policies1 |] eqn:E; [| discriminate].
    apply (IH policies1 Hrun Hk).
    destruct stmt as [name table | q]; simpl in E.
    + injection E as <-. destruct Hin as [H | [H | H]]; [| discriminate | right; exact H].
      left. apply filter_In. split; [exact H | exact Hstmt].
    + destruct (existsb _ policies); [discriminate |]. injection E as <-.
      destruct Hin as [H | [H | H]].
      * left. apply in_or_app. left. exact H.
      * injection H as ->. left. apply in_or_app. right. left. reflexivity.
      * right. exact H.
Qed.

(** X19.  After simple_auth_policies.sql every authenticated request
    may do everything on every table, whatever policies were there
    before: select, insert, update and delete, also on bylaw versions,
    source documents and the audit log. *)
Theorem simple_auth_policies_permit_everything (policies policies' : list Policy)
    (table : string) (c : Command) (req : Request) (row_status : option string) :
  run_script simple_auth_policies policies = Some policies' ->
  In table tables ->
  auth_role req = Some "authenticated" ->
  permitted policies' table c req row_status = true.
Proof.
  intros Hrun Htable Hreq. unfold permitted. apply existsb_exists.
  exists {| policy_name := "Authenticated users have full access"; on_table := table;
            for_clause := for_all; expr := auth_role_is "authenticated" |}.
  split.
  - apply (run_script_keeps _ _ _ _ Hrun).
    + simpl in Htable.
      destruct Htable as [<- | [<- | [<- | [<- | [<- | [<- | [<- | [<- | []]]]]]]]];
        reflexivity.
    + right. simpl in Htable.
      destruct Htable as [<- | [<- | [<- | [<- | [<- | [<- | [<- | [<- | []]]]]]]]];
        unfold simple_auth_policies, policy; simpl; tauto.
  - simpl. rewrite String.eqb_refl, Hreq. reflexivity.
Qed.

Lemma simple_auth_policies_permit_everything_witness :
  permitted simple_store "bylaw_versions" cmd_delete signed_in_user None = true.
Proof.
  apply (simple_auth_policies_permit_everything setup_store).
  - vm_compute. reflexivity.
  - simpl. tauto.
  - reflexivity.
Defined.

End RowLevelSecurityFacts.
